(** * MCGPU: the parallel Metropolis Monte Carlo core

    A shallow embedding of
    - [src/Metropolis/ParallelSim/ParallelCalcs.cu] (neighbour batching, the
      pairwise Lennard-Jones + Coulomb kernel, the strided reduction and the
      Metropolis driver [runParallel]), and
    - [Box.cpp] (molecule selection, checkpoint [saveChangedMole], [Rollback]
      and [copyMolecule]),
    together with the properties of the specification that concern them.

    Conventions.
    - [int] values are integers in [Z]; the C operators [/] and [%] on them
      are [Z.quot] and [Z.rem], undefined for a zero divisor.  Signed overflow
      is undefined in the source; the properties are about executions in
      which the index arithmetic stays in the range of [int].
    - [Real] is the floating-point typedef of DataTypes.h, a header that is
      not among the sources.  The code is embedded over an interface
      [RealOps] of the operations it uses.  Two implementations are given:
      [R_ops], exact real arithmetic, in which the numeric properties are
      stated, and [F_ops], IEEE binary64, in which the code runs.  Properties
      that do not depend on the arithmetic are proved for every [RealOps].
    - Arrays are lists; an access outside the array is undefined behaviour in
      the source and [None] here.
    - A CUDA kernel launch is the fold of the per-thread body over the thread
      indices of the grid, in increasing order.  The threads of each of the
      three kernels touch disjoint cells, and the result is shown not to
      depend on the order.
    - [while] loops whose termination depends on the arithmetic carry a
      fuel argument and return [None] when it runs out. *)

From Stdlib Require Import ZArith QArith Reals Lra Lia Floats Uint63 List.
From stdpp Require Import base option list.

Set Warnings "-inexact-float".
Set Default Proof Using "Type".

Local Open Scope Z_scope.

(** ** The arithmetic interface *)

Class RealOps := {
  Real : Type;
  rlit : Q -> Real;                (* a decimal literal, e.g. [0.5] *)
  radd : Real -> Real -> Real;
  rsub : Real -> Real -> Real;
  rmul : Real -> Real -> Real;
  rdiv : Real -> Real -> Real;
  ropp : Real -> Real;
  rsqrt : Real -> Real;
  rexp : Real -> Real;
  rltb : Real -> Real -> bool;     (* [a < b]  *)
  rleb : Real -> Real -> bool;     (* [a <= b] *)
  reqb : Real -> Real -> bool;     (* [a == b] *)
  rofZ : Z -> Real;                (* conversion [int] to [Real] *)
  rtrunc : Real -> Z;              (* the cast [(int) a] *)
}.

Declare Scope real_scope.
Delimit Scope real_scope with real.
Infix "+" := radd : real_scope.
Infix "-" := rsub : real_scope.
Infix "*" := rmul : real_scope.
Infix "/" := rdiv : real_scope.
Notation "- a" := (ropp a) : real_scope.
Notation "a <? b" := (rltb a b) : real_scope.
Notation "a >? b" := (rltb b a) : real_scope.
Notation "a >=? b" := (rleb b a) : real_scope.
Notation "a =? b" := (reqb a b) : real_scope.

(** Exact real arithmetic. *)
Definition Rtrunc (a : R) : Z :=
  if Rle_dec 0 a then Int_part a else (- Int_part (- a))%Z.
Definition Rltb (a b : R) : bool := if Rlt_dec a b then true else false.
Definition Rleb (a b : R) : bool := if Rle_dec a b then true else false.
Definition Reqb (a b : R) : bool := if Req_dec_T a b then true else false.

Definition R_ops : RealOps := {|
  Real := R;
  rlit := Q2R;
  radd := Rplus; rsub := Rminus; rmul := Rmult; rdiv := Rdiv; ropp := Ropp;
  rsqrt := R_sqrt.sqrt; rexp := Rtrigo_def.exp;
  rltb := Rltb; rleb := Rleb; reqb := Reqb;
  rofZ := IZR; rtrunc := Rtrunc;
|}.

(** IEEE binary64.  [exp] is not a primitive operation: a software
    exponential (argument halving and a Taylor polynomial) stands in for the
    one of the C library, with which it is not bit-compatible. *)
Definition float_of_Z (z : Z) : float :=
  match z with
  | Z0 => 0%float
  | Zpos _ => PrimFloat.of_uint63 (Uint63.of_Z z)
  | Zneg p => PrimFloat.opp (PrimFloat.of_uint63 (Uint63.of_Z (Zpos p)))
  end.

Definition float_of_Q (q : Q) : float :=
  PrimFloat.div (float_of_Z (Qnum q)) (float_of_Z (Zpos (Qden q))).

Definition Z_of_float (a : float) : Z :=
  match Prim2SF a with
  | S754_finite s m e =>
      let v := if decide (0 <= e) then Z.shiftl (Zpos m) e
               else Z.shiftr (Zpos m) (- e) in
      if s then - v else v
  | _ => 0
  end.

Definition fexp_pos (a : float) : float :=
  let y := (a / 1024)%float in
  let p := (1 + y * (1 + y / 2 * (1 + y / 3 * (1 + y / 4 * (1 + y / 5 *
           (1 + y / 6 * (1 + y / 7 * (1 + y / 8))))))))%float in
  Nat.iter 10 (fun s => (s * s)%float) p.

Definition fexp (a : float) : float :=
  if (a <? 0)%float then (1 / fexp_pos (- a))%float else fexp_pos a.

Definition F_ops : RealOps := {|
  Real := float;
  rlit := float_of_Q;
  radd := PrimFloat.add; rsub := PrimFloat.sub; rmul := PrimFloat.mul;
  rdiv := PrimFloat.div; ropp := PrimFloat.opp;
  rsqrt := PrimFloat.sqrt; rexp := fexp;
  rltb := PrimFloat.ltb; rleb := PrimFloat.leb; reqb := PrimFloat.eqb;
  rofZ := float_of_Z; rtrunc := Z_of_float;
|}.

(** ** Loops, arrays and kernel launches *)

(** [while fuel cond body s]: the loop [while (cond) body], at most [fuel]
    evaluations of the condition. *)
Fixpoint while {S : Type} (fuel : nat) (cond : S -> bool)
    (body : S -> option S) (s : S) : option S :=
  match fuel with
  | O => None
  | Datatypes.S fuel' =>
      if cond s then s' ← body s; while fuel' cond body s' else Some s
  end.

(** [iterM body is s]: run [body i] for the indices [is], in order. *)
Fixpoint iterM {S : Type} (body : Z -> S -> option S) (l : list Z) (s : S)
    : option S :=
  match l with
  | [] => Some s
  | i :: l' => s' ← body i s; iterM body l' s'
  end.

(** [for (int i = lo; i < hi; i++) body] *)
Definition for_range {S : Type} (lo hi : Z) (body : Z -> S -> option S)
    (s : S) : option S :=
  iterM body (seqZ lo (hi - lo)) s.

(** [kernel<<<gridDim, blockDim>>>(...)]: the thread body receives
    [blockIdx.x], [blockDim.x] and [threadIdx.x]. *)
Definition launch {S : Type} (gridDim blockDim : Z)
    (kernel : Z -> Z -> Z -> S -> option S) (s : S) : option S :=
  for_range 0 gridDim
    (fun blockIdx => for_range 0 blockDim (kernel blockIdx blockDim)) s.

(** Integer division and remainder; a zero divisor is undefined. *)
Definition divZ (a b : Z) : option Z :=
  if decide (b = 0) then None else Some (a ÷ b).

Definition remZ (a b : Z) : option Z :=
  if decide (b = 0) then None else Some (Z.rem a b).

(** [a[i]] and [a[i] = v] for an [int] index. *)
Definition readZ {A : Type} (a : list A) (i : Z) : option A :=
  if decide (0 <= i) then a !! Z.to_nat i else None.

Definition writeZ {A : Type} (a : list A) (i : Z) (v : A) : option (list A) :=
  if decide (0 <= i < Z.of_nat (length a))
  then Some (<[Z.to_nat i := v]> a) else None.

(** [malloc(sizeof(A) * n)]: [n] cells of unspecified content. *)
Definition malloc {A : Type} `{!Inhabited A} (n : Z) : list A :=
  replicate (Z.to_nat n) inhabitant.

(** [memcpy(dst, src, n * sizeof(A))] *)
Definition memcpy {A : Type} (dst src : list A) (n : Z) : option (list A) :=
  if decide (0 <= n <= Z.of_nat (length dst) /\ n <= Z.of_nat (length src))
  then Some (take (Z.to_nat n) src ++ drop (Z.to_nat n) dst) else None.

(** The [int] all of whose four bytes are the low byte of [c]: what
    [memset(p, c, n * sizeof(int))] leaves in each of the [n] cells. *)
Definition memset_word (c : Z) : Z :=
  let b := c mod 256 in
  let w := b + 256 * b + 65536 * b + 16777216 * b in
  if decide (w < 2147483648) then w else w - 4294967296.

Definition memset_int (a : list Z) (c n : Z) : option (list Z) :=
  if decide (0 <= n <= Z.of_nat (length a))
  then Some (replicate (Z.to_nat n) (memset_word c) ++ drop (Z.to_nat n) a)
  else None.

(** ** Data

    StructLibrary.h is not among the sources: the records carry the fields
    the code reads and writes, and the element types of the bond, angle,
    dihedral and hop arrays are parameters. *)

Section Data.
Context {ops : RealOps}.
Context {Bond Angle Dihedral Hop : Type}.

Record Atom := mkAtom {
  ax : Real; ay : Real; az : Real;     (* [x], [y], [z] *)
  sigma : Real; epsilon : Real; charge : Real;
}.

Record Molecule := mkMolecule {
  id : Z;
  numOfAtoms : Z; numOfBonds : Z; numOfAngles : Z;
  numOfDihedrals : Z; numOfHops : Z;
  atoms : list Atom; bonds : list Bond; angles : list Angle;
  dihedrals : list Dihedral; hops : list Hop;
}.

Record Environment := mkEnvironment {
  env_x : Real; env_y : Real; env_z : Real;   (* box lengths [x], [y], [z] *)
  cutoff : Real;
  temperature : Real;
  maxTranslation : Real;
  maxRotation : Real;
  primaryAtomIndex : Z;
  numOfMolecules : Z;
}.

End Data.

Arguments Molecule {ops} Bond Angle Dihedral Hop.

#[export] Instance Atom_inhabited {ops : RealOps} : Inhabited Atom :=
  populate (mkAtom (rlit 0) (rlit 0) (rlit 0) (rlit 0) (rlit 0) (rlit 0)).

(** Constants of ParallelCalcs.cuh and DataTypes.h that the sources at hand
    do not define. *)
Class Constants {ops : RealOps} := {
  YES : Z; NO : Z;
  MOL_BLOCK : Z; BATCH_BLOCK : Z; AGG_BLOCK : Z; MAX_WARP : Z;
  kBoltz : Real;
}.

(** Functions called by the code and defined elsewhere: the random number
    generator (with its state), the rigid-body move and the coordinate
    wrap. *)
Class Externals {ops : RealOps} {Bond Angle Dihedral Hop : Type} := {
  Rng : Type;
  randomReal : Real -> Real -> Rng -> Real * Rng;
  randomFloat : Real -> Real -> Rng -> Real * Rng;
  moveMolecule : Molecule Bond Angle Dihedral Hop -> Atom ->
                 Real -> Real -> Real -> Real -> Real -> Real ->
                 Molecule Bond Angle Dihedral Hop;
  wrapBox : Real -> Real -> Real;
}.
Arguments Externals {ops} Bond Angle Dihedral Hop.

Section Model.
Context {ops : RealOps} {Bond Angle Dihedral Hop : Type}.
Context `{!Inhabited Bond, !Inhabited Angle, !Inhabited Dihedral,
          !Inhabited Hop}.
Context {consts : Constants} {ext : Externals Bond Angle Dihedral Hop}.

Local Abbreviation Molecule := (Molecule Bond Angle Dihedral Hop).

Local Open Scope real_scope.

(** ** Periodic geometry and the pair potential (ParallelCalcs.cu) *)

Definition makePeriodic (fuel : nat) (x box : Real) : option Real :=
  x ← while fuel (fun x => x <? (- rlit 0.5) * box) (fun x => Some (x + box)) x;
  while fuel (fun x => x >? rlit 0.5 * box) (fun x => Some (x - box)) x.

Definition calcBlending (d1 d2 : Real) : Real := rsqrt (d1 * d2).

Definition calc_lj (atom1 atom2 : Atom) (r2 : Real) : Real :=
  let sigma := calcBlending (sigma atom1) (sigma atom2) in
  let epsilon := calcBlending (epsilon atom1) (epsilon atom2) in
  if r2 =? rlit 0 then rlit 0
  else
    let sig2OverR2 := (sigma * sigma) / r2 in
    let sig6OverR6 := sig2OverR2 * sig2OverR2 * sig2OverR2 in
    let sig12OverR12 := sig6OverR6 * sig6OverR6 in
    let energy := rlit 4 * epsilon * (sig12OverR12 - sig6OverR6) in
    energy.

Definition calcCharge (charge1 charge2 r : Real) : Real :=
  if r =? rlit 0 then rlit 0
  else
    let e := rlit 332.06 in
    (charge1 * charge2 * e) / r.

(** The squared minimum-image distance, as both kernels compute it. *)
Definition calcR2 (fuel : nat) (atom1 atom2 : Atom) (enviro : Environment)
    : option Real :=
  deltaX ← makePeriodic fuel (ax atom1 - ax atom2) (env_x enviro);
  deltaY ← makePeriodic fuel (ay atom1 - ay atom2) (env_y enviro);
  deltaZ ← makePeriodic fuel (az atom1 - az atom2) (env_z enviro);
  Some ((deltaX * deltaX) + (deltaY * deltaY) + (deltaZ * deltaZ)).

(** The row and column of a cell of a triangular table, from its flat index.
    [sqrtf] is the single-precision square root; it is taken in the
    arithmetic of the interface, like every other operation. *)
Definition getXFromIndex (idx : Z) : Z :=
  let c := (-2 * idx)%Z in
  let discriminant := (1 - 4 * c)%Z in
  let qv := rtrunc ((rofZ (-1) + rsqrt (rofZ discriminant)) / rofZ 2) in
  (qv + 1)%Z.

Definition getYFromIndex (x idx : Z) : Z :=
  (idx - (x * x - x) ÷ 2)%Z.

(** ** The molecular state store (Box.cpp) *)

Record Box := mkBox {
  molecules : list Molecule;
  changedmole : Molecule;
  enviro : Environment;      (* [environment], also called [enviro] *)
}.

(** [for (i = 0; i < n; i++) dst[i] = src[i];] *)
Definition copy_loop {A : Type} (n : Z) (dst src : list A) : option (list A) :=
  for_range 0 n (fun i dst => v ← readZ src i; writeZ dst i v) dst.

Definition copyMolecule (mole_dst mole_src : Molecule) : option Molecule :=
  atoms' ← copy_loop (numOfAtoms mole_src) (atoms mole_dst) (atoms mole_src);
  bonds' ← copy_loop (numOfBonds mole_src) (bonds mole_dst) (bonds mole_src);
  angles' ← copy_loop (numOfAngles mole_src) (angles mole_dst) (angles mole_src);
  dihedrals' ← copy_loop (numOfDihedrals mole_src) (dihedrals mole_dst)
                 (dihedrals mole_src);
  hops' ← copy_loop (numOfHops mole_src) (hops mole_dst) (hops mole_src);
  Some {| id := id mole_src;
          numOfAtoms := numOfAtoms mole_src;
          numOfBonds := numOfBonds mole_src;
          numOfAngles := numOfAngles mole_src;
          numOfDihedrals := numOfDihedrals mole_src;
          numOfHops := numOfHops mole_src;
          atoms := atoms'; bonds := bonds'; angles := angles';
          dihedrals := dihedrals'; hops := hops' |}.

Definition set_molecule (b : Box) (i : Z) (m : Molecule) : option Box :=
  ms ← writeZ (molecules b) i m;
  Some {| molecules := ms; changedmole := changedmole b; enviro := enviro b |}.

Definition Rollback (moleno : Z) (b : Box) : option Box :=
  mole_dst ← readZ (molecules b) moleno;
  m ← copyMolecule mole_dst (changedmole b);
  set_molecule b moleno m.

(** The [memcpy] of the whole struct copies the scalar fields (and the
    array pointers, which the [malloc]s then replace). *)
Definition saveChangedMole (moleno : Z) (b : Box) : option Box :=
  mole_src ← readZ (molecules b) moleno;
  let fresh :=
    {| id := id mole_src;
       numOfAtoms := numOfAtoms mole_src;
       numOfBonds := numOfBonds mole_src;
       numOfAngles := numOfAngles mole_src;
       numOfDihedrals := numOfDihedrals mole_src;
       numOfHops := numOfHops mole_src;
       atoms := malloc (numOfAtoms mole_src);
       bonds := malloc (numOfBonds mole_src);
       angles := malloc (numOfAngles mole_src);
       dihedrals := malloc (numOfDihedrals mole_src);
       hops := malloc (numOfHops mole_src) |} in
  m ← copyMolecule fresh mole_src;
  Some {| molecules := molecules b; changedmole := m; enviro := enviro b |}.

Definition chooseMolecule (b : Box) (g : Rng) : Z * Rng :=
  let '(r, g) := randomReal (rofZ 0) (rofZ (numOfMolecules (enviro b))) g in
  (rtrunc r, g).

Definition wrapAtom (e : Environment) (a : Atom) : Atom :=
  {| ax := wrapBox (ax a) (env_x e);
     ay := wrapBox (ay a) (env_y e);
     az := wrapBox (az a) (env_z e);
     sigma := sigma a; epsilon := epsilon a; charge := charge a |}.

Definition keepMoleculeInBox (molecule : Molecule) (e : Environment)
    : option Molecule :=
  atoms' ← for_range 0 (numOfAtoms molecule)
             (fun j ats => a ← readZ ats j; writeZ ats j (wrapAtom e a))
             (atoms molecule);
  Some {| id := id molecule;
          numOfAtoms := numOfAtoms molecule;
          numOfBonds := numOfBonds molecule;
          numOfAngles := numOfAngles molecule;
          numOfDihedrals := numOfDihedrals molecule;
          numOfHops := numOfHops molecule;
          atoms := atoms'; bonds := bonds molecule; angles := angles molecule;
          dihedrals := dihedrals molecule; hops := hops molecule |}.

Definition changeMolecule (molIdx : Z) (b : Box) (g : Rng)
    : option (Box * Rng) :=
  let maxTranslation := maxTranslation (enviro b) in
  let maxRotation := maxRotation (enviro b) in
  b ← saveChangedMole molIdx b;
  mol ← readZ (molecules b) molIdx;
  let '(r, g) := randomReal (rofZ 0) (rofZ (numOfAtoms mol)) g in
  let atomIndex := rtrunc r in
  vertex ← readZ (atoms mol) atomIndex;
  let '(deltaX, g) := randomReal (- maxTranslation) maxTranslation g in
  let '(deltaY, g) := randomReal (- maxTranslation) maxTranslation g in
  let '(deltaZ, g) := randomReal (- maxTranslation) maxTranslation g in
  let '(degreesX, g) := randomReal (- maxRotation) maxRotation g in
  let '(degreesY, g) := randomReal (- maxRotation) maxRotation g in
  let '(degreesZ, g) := randomReal (- maxRotation) maxRotation g in
  let mol := moveMolecule mol vertex deltaX deltaY deltaZ
               degreesX degreesY degreesZ in
  mol ← keepMoleculeInBox mol (enviro b);
  b ← set_molecule b molIdx mol;
  Some (b, g).

(** ** The parallel simulation (ParallelCalcs.cu) *)

(** Calls recorded for the properties that speak of when a function is
    invoked; the log is not part of the program. *)
Inductive Event :=
  | EvCalcSystemEnergy
  | EvStep (changeIdx : Z)
  | EvRollback (changeIdx : Z).

Record ParallelSim := mkSim {
  innerbox : Box;
  environment : Environment;
  moleculesD : list Molecule;
  environmentD : Environment;
  moleculeCount : Z; energyCount : Z; maxMolSize : Z;
  nbrMolsH : list Z; nbrMolsD : list Z;
  molBatchH : list Z; molBatchD : list Z;
  energiesD : list Real;
  oldEnergy : Real; currentEnergy : Real;
  accepted : Z; rejected : Z;
  rng : Rng;
  trace : list Event;
}.

Definition set_innerbox (v : Box) (s : ParallelSim) : ParallelSim :=
  mkSim v (environment s) (moleculesD s) (environmentD s) (moleculeCount s)
    (energyCount s) (maxMolSize s) (nbrMolsH s) (nbrMolsD s) (molBatchH s)
    (molBatchD s) (energiesD s) (oldEnergy s) (currentEnergy s) (accepted s)
    (rejected s) (rng s) (trace s).

Definition set_moleculesD (v : list Molecule) (s : ParallelSim) : ParallelSim :=
  mkSim (innerbox s) (environment s) v (environmentD s) (moleculeCount s)
    (energyCount s) (maxMolSize s) (nbrMolsH s) (nbrMolsD s) (molBatchH s)
    (molBatchD s) (energiesD s) (oldEnergy s) (currentEnergy s) (accepted s)
    (rejected s) (rng s) (trace s).

Definition set_nbrMols (h d : list Z) (s : ParallelSim) : ParallelSim :=
  mkSim (innerbox s) (environment s) (moleculesD s) (environmentD s)
    (moleculeCount s) (energyCount s) (maxMolSize s) h d (molBatchH s)
    (molBatchD s) (energiesD s) (oldEnergy s) (currentEnergy s) (accepted s)
    (rejected s) (rng s) (trace s).

Definition set_molBatchH (v : list Z) (s : ParallelSim) : ParallelSim :=
  mkSim (innerbox s) (environment s) (moleculesD s) (environmentD s)
    (moleculeCount s) (energyCount s) (maxMolSize s) (nbrMolsH s) (nbrMolsD s)
    v (molBatchD s) (energiesD s) (oldEnergy s) (currentEnergy s)
    (accepted s) (rejected s) (rng s) (trace s).

Definition set_molBatchD (v : list Z) (s : ParallelSim) : ParallelSim :=
  mkSim (innerbox s) (environment s) (moleculesD s) (environmentD s)
    (moleculeCount s) (energyCount s) (maxMolSize s) (nbrMolsH s) (nbrMolsD s)
    (molBatchH s) v (energiesD s) (oldEnergy s) (currentEnergy s)
    (accepted s) (rejected s) (rng s) (trace s).

Definition set_energiesD (v : list Real) (s : ParallelSim) : ParallelSim :=
  mkSim (innerbox s) (environment s) (moleculesD s) (environmentD s)
    (moleculeCount s) (energyCount s) (maxMolSize s) (nbrMolsH s) (nbrMolsD s)
    (molBatchH s) (molBatchD s) v (oldEnergy s) (currentEnergy s)
    (accepted s) (rejected s) (rng s) (trace s).

Definition set_oldEnergy (v : Real) (s : ParallelSim) : ParallelSim :=
  mkSim (innerbox s) (environment s) (moleculesD s) (environmentD s)
    (moleculeCount s) (energyCount s) (maxMolSize s) (nbrMolsH s) (nbrMolsD s)
    (molBatchH s) (molBatchD s) (energiesD s) v (currentEnergy s)
    (accepted s) (rejected s) (rng s) (trace s).

Definition set_currentEnergy (v : Real) (s : ParallelSim) : ParallelSim :=
  mkSim (innerbox s) (environment s) (moleculesD s) (environmentD s)
    (moleculeCount s) (energyCount s) (maxMolSize s) (nbrMolsH s) (nbrMolsD s)
    (molBatchH s) (molBatchD s) (energiesD s) (oldEnergy s) v
    (accepted s) (rejected s) (rng s) (trace s).

Definition set_accepted (v : Z) (s : ParallelSim) : ParallelSim :=
  mkSim (innerbox s) (environment s) (moleculesD s) (environmentD s)
    (moleculeCount s) (energyCount s) (maxMolSize s) (nbrMolsH s) (nbrMolsD s)
    (molBatchH s) (molBatchD s) (energiesD s) (oldEnergy s) (currentEnergy s)
    v (rejected s) (rng s) (trace s).

Definition set_rejected (v : Z) (s : ParallelSim) : ParallelSim :=
  mkSim (innerbox s) (environment s) (moleculesD s) (environmentD s)
    (moleculeCount s) (energyCount s) (maxMolSize s) (nbrMolsH s) (nbrMolsD s)
    (molBatchH s) (molBatchD s) (energiesD s) (oldEnergy s) (currentEnergy s)
    (accepted s) v (rng s) (trace s).

Definition set_rng (v : Rng) (s : ParallelSim) : ParallelSim :=
  mkSim (innerbox s) (environment s) (moleculesD s) (environmentD s)
    (moleculeCount s) (energyCount s) (maxMolSize s) (nbrMolsH s) (nbrMolsD s)
    (molBatchH s) (molBatchD s) (energiesD s) (oldEnergy s) (currentEnergy s)
    (accepted s) (rejected s) v (trace s).

Definition log (e : Event) (s : ParallelSim) : ParallelSim :=
  mkSim (innerbox s) (environment s) (moleculesD s) (environmentD s)
    (moleculeCount s) (energyCount s) (maxMolSize s) (nbrMolsH s) (nbrMolsD s)
    (molBatchH s) (molBatchD s) (energiesD s) (oldEnergy s) (currentEnergy s)
    (accepted s) (rejected s) (rng s) (trace s ++ [e]).

(** *** Kernels: the body of one thread *)

Definition checkMoleculeDistances (fuel : nat) (molecules : list Molecule)
    (currentMol startIdx moleculeCount : Z) (enviro : Environment)
    (blockIdx blockDim threadIdx : Z) (inCutoff : list Z) : option (list Z) :=
  let otherMol := (blockIdx * blockDim + threadIdx)%Z in
  if ((otherMol <? moleculeCount) && (otherMol >=? startIdx)
      && negb (otherMol =? currentMol))%Z
  then
    mol1 ← readZ molecules currentMol;
    atom1 ← readZ (atoms mol1) (primaryAtomIndex enviro);
    mol2 ← readZ molecules otherMol;
    atom2 ← readZ (atoms mol2) (primaryAtomIndex enviro);
    r2 ← calcR2 fuel atom1 atom2 enviro;
    if r2 <? cutoff enviro * cutoff enviro
    then writeZ inCutoff otherMol YES
    else Some inCutoff
  else Some inCutoff.

Definition calcInterAtomicEnergy (fuel : nat) (molecules : list Molecule)
    (currentMol : Z) (enviro : Environment) (energyCount : Z)
    (molBatch : list Z) (maxMolSize : Z)
    (blockIdx blockDim threadIdx : Z) (energies : list Real)
    : option (list Real) :=
  let energyIdx := (blockIdx * blockDim + threadIdx)%Z in
  let segmentSize := (maxMolSize * maxMolSize)%Z in
  if (energyIdx <? energyCount)%Z then
    slot ← divZ energyIdx segmentSize;
    other ← readZ molBatch slot;
    if negb (other =? -1)%Z then
      mol1 ← readZ molecules currentMol;
      mol2 ← readZ molecules other;
      cell ← remZ energyIdx segmentSize;
      x ← divZ cell maxMolSize;
      y ← remZ cell maxMolSize;
      if ((x <? numOfAtoms mol1) && (y <? numOfAtoms mol2))%Z then
        atom1 ← readZ (atoms mol1) x;
        atom2 ← readZ (atoms mol2) y;
        if (sigma atom1 >=? rofZ 0) && (epsilon atom1 >=? rofZ 0)
           && (sigma atom2 >=? rofZ 0) && (epsilon atom2 >=? rofZ 0)
        then
          let totalEnergy := rofZ 0 in
          r2 ← calcR2 fuel atom1 atom2 enviro;
          let totalEnergy := totalEnergy + calc_lj atom1 atom2 r2 in
          let totalEnergy :=
            totalEnergy + calcCharge (charge atom1) (charge atom2) (rsqrt r2) in
          writeZ energies energyIdx totalEnergy
        else Some energies
      else Some energies
    else Some energies
  else Some energies.

Definition aggregateEnergies (energyCount interval batchSize : Z)
    (blockIdx blockDim threadIdx : Z) (energies : list Real)
    : option (list Real) :=
  let idx := (batchSize * interval * (blockIdx * blockDim + threadIdx))%Z in
  for_range 1 batchSize
    (fun i energies =>
       if (idx + i * interval <? energyCount)%Z then
         a ← readZ energies idx;
         b ← readZ energies (idx + i * interval);
         energies ← writeZ energies idx (a + b);
         writeZ energies (idx + i * interval) (rofZ 0)
       else Some energies)
    energies.

(** *** Host code *)

Definition createMolBatch (fuel : nat) (curentMol startIdx : Z)
    (s : ParallelSim) : option (Z * ParallelSim) :=
  nbrD ← memset_int (nbrMolsD s) NO (moleculeCount s);
  grid ← divZ (moleculeCount s) MOL_BLOCK;
  nbrD ← launch (grid + 1) MOL_BLOCK
           (checkMoleculeDistances fuel (moleculesD s) curentMol startIdx
              (moleculeCount s) (environmentD s)) nbrD;
  nbrH ← memcpy (nbrMolsH s) nbrD (moleculeCount s);
  batchH ← memset_int (molBatchH s) (-1) (moleculeCount s);
  '(batchH, batchSize) ←
    for_range startIdx (moleculeCount s)
      (fun i '(batchH, batchSize) =>
         nbr ← readZ nbrH i;
         if (nbr =? YES)%Z then
           batchH ← writeZ batchH batchSize i;
           Some (batchH, batchSize + 1)%Z
         else Some (batchH, batchSize))
      (batchH, 0%Z);
  Some (batchSize, set_molBatchH batchH (set_nbrMols nbrH nbrD s)).

(** The loop [for (i = 1; i < energyCount; i *= batchSize)]; its state is
    [(i, blockSize, energies)]. *)
Definition aggregate_pass (energyCount batchSize numBaseThreads : Z)
    (st : Z * Z * list Real) : option (Z * Z * list Real) :=
  let '(i, blockSize, energies) := st in
  halve ← (if (blockSize >? MAX_WARP)%Z
           then perThread ← divZ numBaseThreads i;
                Some (perThread + 1 <? blockSize)%Z
           else Some false);
  let blockSize := if halve : bool then (blockSize ÷ 2)%Z else blockSize in
  grid ← divZ numBaseThreads (i * blockSize);
  energies ← launch (grid + 1) blockSize
               (aggregateEnergies energyCount i batchSize) energies;
  Some ((i * batchSize)%Z, blockSize, energies).

Definition getEnergyFromDevice (s : ParallelSim) : option (Real * ParallelSim) :=
  let batchSize := 3%Z in
  let blockSize := AGG_BLOCK in
  let numBaseThreads := (energyCount s ÷ batchSize)%Z in
  '(_, _, energies) ←
    while (Datatypes.S (Z.to_nat (energyCount s)))
      (fun '(i, _, _) => (i <? energyCount s)%Z)
      (aggregate_pass (energyCount s) batchSize numBaseThreads)
      (1%Z, blockSize, energiesD s);
  totalEnergy ← readZ energies 0;
  energies ← writeZ energies 0 (rlit 0);
  Some (totalEnergy, set_energiesD energies s).

Definition calcBatchEnergy (fuel : nat) (numMols molIdx : Z) (s : ParallelSim)
    : option (Real * ParallelSim) :=
  if (numMols >? 0)%Z then
    energies ← writeZ (energiesD s) 0 (rlit 0);
    batchD ← memcpy (molBatchD s) (molBatchH s) (moleculeCount s);
    grid ← divZ (energyCount s) BATCH_BLOCK;
    energies ← launch (grid + 1) BATCH_BLOCK
                 (calcInterAtomicEnergy fuel (moleculesD s) molIdx
                    (environmentD s) (energyCount s) batchD (maxMolSize s))
                 energies;
    getEnergyFromDevice (set_energiesD energies (set_molBatchD batchD s))
  else Some (rofZ 0, s).

Definition calcMolecularEnergyContribution (fuel : nat) (molIdx startIdx : Z)
    (s : ParallelSim) : option (Real * ParallelSim) :=
  '(numMols, s) ← createMolBatch fuel molIdx startIdx s;
  calcBatchEnergy fuel numMols molIdx s.

Definition calcSystemEnergy (fuel : nat) (s : ParallelSim)
    : option (Real * ParallelSim) :=
  let s := log EvCalcSystemEnergy s in
  for_range 0 (moleculeCount s)
    (fun mol '(totalEnergy, s) =>
       '(e, s) ← calcMolecularEnergyContribution fuel mol mol s;
       Some (totalEnergy + e, s))
    (rofZ 0, s).

(** Modelled from the spec: [writeChangeToDevice] is defined outside the
    sources at hand; after a move or a rollback "engine-visible molecule state
    updates accordingly", that is, the device copy of the molecule is
    overwritten with the host's. *)
Definition writeChangeToDevice (changeIdx : Z) (s : ParallelSim)
    : option ParallelSim :=
  m ← readZ (molecules (innerbox s)) changeIdx;
  d ← writeZ (moleculesD s) changeIdx m;
  Some (set_moleculesD d s).

(** *** The Metropolis step, in the three parts of the loop body *)

(** Lines 255-262: choose, evaluate, move, evaluate.  The one-argument calls
    of [calcMolecularEnergyContribution] use the default [startIdx = 0]. *)
Definition proposeAndEvaluate (fuel : nat) (s : ParallelSim)
    : option (Z * Real * Real * ParallelSim) :=
  let '(changeIdx, g) := chooseMolecule (innerbox s) (rng s) in
  let s := log (EvStep changeIdx) (set_rng g s) in
  '(oldEnergyCont, s) ← calcMolecularEnergyContribution fuel changeIdx 0 s;
  '(b, g) ← changeMolecule changeIdx (innerbox s) (rng s);
  let s := set_rng g (set_innerbox b s) in
  s ← writeChangeToDevice changeIdx s;
  '(newEnergyCont, s) ← calcMolecularEnergyContribution fuel changeIdx 0 s;
  Some (changeIdx, oldEnergyCont, newEnergyCont, s).

(** Lines 264-282: the acceptance test. *)
Definition acceptMove (kT newEnergyCont oldEnergyCont : Real) (g : Rng)
    : bool * Rng :=
  if newEnergyCont <? oldEnergyCont then (true, g)
  else
    let x := rexp (- (newEnergyCont - oldEnergyCont) / kT) in
    let '(u, g) := randomFloat (rlit 0) (rlit 1) g in
    if x >=? u then (true, g) else (false, g).

(** Lines 284-295: commit or roll back. *)
Definition commitOrRollback (accept : bool) (changeIdx : Z)
    (newEnergyCont oldEnergyCont : Real) (s : ParallelSim)
    : option ParallelSim :=
  if accept then
    let s := set_accepted (accepted s + 1)%Z s in
    Some (set_oldEnergy (oldEnergy s + (newEnergyCont - oldEnergyCont)) s)
  else
    let s := set_rejected (rejected s + 1)%Z s in
    b ← Rollback changeIdx (innerbox s);
    let s := log (EvRollback changeIdx) (set_innerbox b s) in
    writeChangeToDevice changeIdx s.

Definition runStep (fuel : nat) (kT : Real) (s : ParallelSim)
    : option ParallelSim :=
  '(changeIdx, oldEnergyCont, newEnergyCont, s) ← proposeAndEvaluate fuel s;
  let '(accept, g) := acceptMove kT newEnergyCont oldEnergyCont (rng s) in
  commitOrRollback accept changeIdx newEnergyCont oldEnergyCont (set_rng g s).

Definition initialEnergy (fuel : nat) (s : ParallelSim) : option ParallelSim :=
  if oldEnergy s =? rofZ 0 then
    '(e, s) ← calcSystemEnergy fuel s;
    Some (set_oldEnergy e s)
  else Some s.

Definition runParallel (fuel : nat) (steps : Z) (s : ParallelSim)
    : option ParallelSim :=
  let temperature := temperature (environment s) in
  let kT := kBoltz * temperature in
  s ← initialEnergy fuel s;
  s ← for_range 0 steps (fun move s => runStep fuel kT s) s;
  Some (set_currentEnergy (oldEnergy s) s).

End Model.

(** * Vocabulary of the properties *)

Section Vocabulary.
Context {ops : RealOps} {Bond Angle Dihedral Hop : Type}.
Local Abbreviation Molecule := (Molecule Bond Angle Dihedral Hop).

(** The arrays of a molecule hold at least as many cells as its counts say. *)
Definition fits (m : Molecule) : Prop :=
  numOfAtoms m <= Z.of_nat (length (atoms m))
  /\ numOfBonds m <= Z.of_nat (length (bonds m))
  /\ numOfAngles m <= Z.of_nat (length (angles m))
  /\ numOfDihedrals m <= Z.of_nat (length (dihedrals m))
  /\ numOfHops m <= Z.of_nat (length (hops m)).

(** [m'] is [m] after mutations in place: the arrays are where and as long
    as they were; every field and every cell may have changed. *)
Definition in_place (m m' : Molecule) : Prop :=
  length (atoms m') = length (atoms m)
  /\ length (bonds m') = length (bonds m)
  /\ length (angles m') = length (angles m)
  /\ length (dihedrals m') = length (dihedrals m)
  /\ length (hops m') = length (hops m).

(** The observable state of a molecule: id, the five counts and the
    contents of the five arrays. *)
Definition observable (m : Molecule) :=
  (id m,
   (numOfAtoms m, numOfBonds m, numOfAngles m, numOfDihedrals m, numOfHops m),
   (take (Z.to_nat (numOfAtoms m)) (atoms m),
    take (Z.to_nat (numOfBonds m)) (bonds m),
    take (Z.to_nat (numOfAngles m)) (angles m),
    take (Z.to_nat (numOfDihedrals m)) (dihedrals m),
    take (Z.to_nat (numOfHops m)) (hops m))).

(** What [for (i = 0; i < n; i++) dst[i] = src[i]] leaves in [dst]. *)
Definition copied {A : Type} (n : Z) (dst src : list A) : list A :=
  take (Z.to_nat n) src ++ drop (Z.to_nat n) dst.

(** The sum of a buffer. *)
Definition sum_energies (l : list Real) : Real := foldr radd (rofZ 0) l.

(** What one guarded statement pair
    [energies[idx] += energies[idx + k]; energies[idx + k] = 0] does. *)
Definition fold_step (energyCount idx k : Z) (energies : list Real)
    : option (list Real) :=
  if (idx + k <? energyCount)%Z then
    a ← readZ energies idx;
    b ← readZ energies (idx + k);
    energies ← writeZ energies idx (radd a b);
    writeZ energies (idx + k) (rofZ 0)
  else Some energies.

(** After the passes with intervals below [i], only the cells whose index is
    a multiple of [i] may still hold something. *)
Definition reduced (n i : Z) (e : list Real) : Prop :=
  forall k, 0 < k < n -> ~ (i | k) -> e !! Z.to_nat k = Some (rofZ 0).

(** The distance test of [checkMoleculeDistances] for the pair
    [(currentMol, otherMol)]: whether the squared minimum-image distance of
    the two primary atoms is below the squared cutoff. *)
Definition withinCutoff (fuel : nat) (molecules : list Molecule)
    (enviro : Environment) (currentMol otherMol : Z) : option bool :=
  mol1 ← readZ molecules currentMol;
  atom1 ← readZ (atoms mol1) (primaryAtomIndex enviro);
  mol2 ← readZ molecules otherMol;
  atom2 ← readZ (atoms mol2) (primaryAtomIndex enviro);
  r2 ← calcR2 fuel atom1 atom2 enviro;
  Some (rltb r2 (rmul (cutoff enviro) (cutoff enviro))).

(** The candidates [c] in [[startIdx, moleculeCount)], in ascending order,
    other than [currentMol] and within the cutoff. *)
Definition neighbours (fuel : nat) (molecules : list Molecule)
    (enviro : Environment) (currentMol startIdx moleculeCount : Z) : list Z :=
  filter (fun c => c <> currentMol
                   /\ withinCutoff fuel molecules enviro currentMol c = Some true)
    (seqZ startIdx (moleculeCount - startIdx)).

(** The energy of an atom pair at squared distance [r2], as the kernel
    accumulates it. *)
Definition pair_energy (atom1 atom2 : Atom) (r2 : Real) : Real :=
  radd (radd (rofZ 0) (calc_lj atom1 atom2 r2))
       (calcCharge (charge atom1) (charge atom2) (rsqrt r2)).

(** The content of cell [energyIdx] after the launch of
    [calcInterAtomicEnergy] on the buffer [energies]: the thread of the cell
    either stores a pair energy or leaves the cell as it was. *)
Definition cell_result (fuel : nat) (molecules : list Molecule)
    (currentMol : Z) (enviro : Environment) (molBatch : list Z)
    (maxMolSize : Z) (energies : list Real) (energyIdx : Z) : option Real :=
  let segmentSize := (maxMolSize * maxMolSize)%Z in
  slot ← divZ energyIdx segmentSize;
  other ← readZ molBatch slot;
  if negb (other =? -1)%Z then
    mol1 ← readZ molecules currentMol;
    mol2 ← readZ molecules other;
    cell ← remZ energyIdx segmentSize;
    x ← divZ cell maxMolSize;
    y ← remZ cell maxMolSize;
    if ((x <? numOfAtoms mol1) && (y <? numOfAtoms mol2))%Z then
      atom1 ← readZ (atoms mol1) x;
      atom2 ← readZ (atoms mol2) y;
      if (rleb (rofZ 0) (sigma atom1)) && (rleb (rofZ 0) (epsilon atom1))
         && (rleb (rofZ 0) (sigma atom2)) && (rleb (rofZ 0) (epsilon atom2))
      then r2 ← calcR2 fuel atom1 atom2 enviro;
           Some (pair_energy atom1 atom2 r2)
      else readZ energies energyIdx
    else readZ energies energyIdx
  else readZ energies energyIdx.

Context {consts : Constants}.

(** The flag the kernel leaves for candidate [c]. *)
Definition flag (fuel : nat) (mols : list Molecule) (env : Environment)
    (m start : Z) (c : Z) : Z :=
  if decide (start <= c /\ c <> m /\ withinCutoff fuel mols env m c = Some true)
  then YES else memset_word NO.

Context {ext : Externals Bond Angle Dihedral Hop}.

(** [s'] differs from [s] in the scratch buffers only. *)
Definition same_but_buffers (s s' : ParallelSim) : Prop :=
  innerbox s' = innerbox s /\ environment s' = environment s
  /\ moleculesD s' = moleculesD s /\ environmentD s' = environmentD s
  /\ moleculeCount s' = moleculeCount s /\ energyCount s' = energyCount s
  /\ maxMolSize s' = maxMolSize s
  /\ oldEnergy s' = oldEnergy s /\ currentEnergy s' = currentEnergy s
  /\ accepted s' = accepted s /\ rejected s' = rejected s
  /\ rng s' = rng s /\ trace s' = trace s.

(** The events of the step loop: steps and rollbacks. *)
Definition loop_event (e : Event) : Prop := e <> EvCalcSystemEnergy.

End Vocabulary.

(** Threads and their order. *)

(** Two thread bodies commute when running them in either order gives the
    same result. *)
Definition commute {S : Type} (f g : S -> option S) : Prop :=
  forall s, f s ≫= g = g s ≫= f.

(** A thread that, independently of the array, fails, leaves the array as
    it is, or stores a value in its own cell. *)
Definition own_cell_writer {A : Type} (f : list A -> option (list A)) (i : Z)
    : Prop :=
  exists o : option (option A),
    forall e, f e = match o with
                    | None => None
                    | Some None => Some e
                    | Some (Some v) => writeZ e i v
                    end.

(** A thread that reads and writes the cells [cs] only: outside [cs] the
    array is left as it is, and whether the thread fails and what it leaves
    in [cs] depends on the length of the array and on its cells [cs]. *)
Definition agree_on {A : Type} (cs : list Z) (e e' : list A) : Prop :=
  length e' = length e /\ forall c, c ∈ cs -> readZ e' c = readZ e c.

Record local {A : Type} (f : list A -> option (list A)) (cs : list Z) : Prop := {
  local_frame : forall e r, f e = Some r ->
    length r = length e /\ forall c, c ∉ cs -> readZ r c = readZ e c;
  local_none : forall e e', agree_on cs e e' -> f e = None -> f e' = None;
  local_some : forall e e' r, agree_on cs e e' -> f e = Some r ->
    exists r', f e' = Some r' /\ forall c, c ∈ cs -> readZ r' c = readZ r c;
}.

(** The cells of lane [t] in the pass with interval [i]. *)
Definition lane_cells (i t : Z) : list Z :=
  [3 * i * t; 3 * i * t + 1 * i; 3 * i * t + 2 * i].


(** * A small system

    Three molecules in a periodic box of side 10, on which the code is run.
    The constants have the values of ParallelCalcs.cuh scaled down to the
    size of the example; the external functions are simple stand-ins: draws
    are taken from a list of numbers in [[0, 1)], the move is a translation,
    the wrap adds or subtracts the box length once. *)

Section Fixture.
Context {ops : RealOps}.
Local Open Scope real_scope.

Definition demo_consts : Constants :=
  {| YES := 1; NO := 0;
     MOL_BLOCK := 2; BATCH_BLOCK := 4; AGG_BLOCK := 4; MAX_WARP := 2;
     kBoltz := rlit 0.0019872041 |}.

Definition demo_draw (lo hi : Real) (g : list Real) : Real * list Real :=
  match g with
  | [] => (lo, [])
  | u :: g' => (lo + u * (hi - lo), g')
  end.

Definition demo_move (m : Molecule unit unit unit unit) (pivot : Atom)
    (dx dy dz rx ry rz : Real) : Molecule unit unit unit unit :=
  {| id := id m;
     numOfAtoms := numOfAtoms m; numOfBonds := numOfBonds m;
     numOfAngles := numOfAngles m; numOfDihedrals := numOfDihedrals m;
     numOfHops := numOfHops m;
     atoms := (fun a => {| ax := ax a + dx; ay := ay a + dy; az := az a + dz;
                           sigma := sigma a; epsilon := epsilon a;
                           charge := charge a |}) <$> atoms m;
     bonds := bonds m; angles := angles m; dihedrals := dihedrals m;
     hops := hops m |}.

Definition demo_wrap (x box : Real) : Real :=
  if x <? rofZ 0 then x + box else if x >=? box then x - box else x.

Definition demo_ext : Externals unit unit unit unit :=
  {| Rng := list Real;
     randomReal := demo_draw; randomFloat := demo_draw;
     moveMolecule := demo_move; wrapBox := demo_wrap |}.

Definition demo_atom (x y z : Q) (s e q : Q) : Atom :=
  {| ax := rlit x; ay := rlit y; az := rlit z;
     sigma := rlit s; epsilon := rlit e; charge := rlit q |}.

Definition demo_molecule (i : Z) (ats : list Atom)
    : Molecule unit unit unit unit :=
  {| id := i;
     numOfAtoms := Z.of_nat (length ats); numOfBonds := 1; numOfAngles := 0;
     numOfDihedrals := 0; numOfHops := 0;
     atoms := ats; bonds := [()]; angles := []; dihedrals := []; hops := [] |}.

Definition demo_molecules : list (Molecule unit unit unit unit) :=
  [ demo_molecule 0 [demo_atom 1 1 1 1 0.1 0.5; demo_atom 1.5 1 1 1 0.1 (-0.5)];
    demo_molecule 1 [demo_atom 3 1 1 1 0.1 0.25];
    demo_molecule 2 [demo_atom 8 8 8 1 0.1 0.5; demo_atom 8.5 8 8 (-1) (-1) 0] ].

Definition demo_environment : Environment :=
  {| env_x := rlit 10; env_y := rlit 10; env_z := rlit 10;
     cutoff := rlit 4; temperature := rlit 300;
     maxTranslation := rlit 0.5; maxRotation := rlit 10;
     primaryAtomIndex := 0; numOfMolecules := 3 |}.

Definition demo_box : Box :=
  {| molecules := demo_molecules;
     changedmole := demo_molecule 0 [];
     enviro := demo_environment |}.

Definition demo_sim (old : Real) (draws : list Real)
    : ParallelSim (ext := demo_ext) :=
  mkSim (ext := demo_ext)
    demo_box demo_environment demo_molecules demo_environment
    3 12 2                                    (* counts, [maxMolSize] *)
    [0; 0; 0]%Z [0; 0; 0]%Z [0; 0; 0]%Z [0; 0; 0]%Z
    (replicate 12 (rlit 0))                   (* [energiesD] *)
    old (rlit 0) 0 0 draws [].

End Fixture.

Section FixtureRuns.
Local Existing Instance F_ops.
Local Existing Instance demo_consts.
Local Existing Instance demo_ext.

(** In binary64: a step that is rejected.  Molecule 1 is moved away from
    molecule 0 and the draw 0.999 exceeds the Boltzmann factor. *)
Definition demo_start : ParallelSim :=
  demo_sim 0%float [0.4; 0.3; 0.99; 0.5; 0.5; 0.5; 0.5; 0.5; 0.999]%float.

Definition demo_kT : float :=
  Eval vm_compute in rmul kBoltz (temperature (environment demo_start)).

Definition demo_after_step : ParallelSim :=
  Eval vm_compute in default demo_start (runStep 8 demo_kT demo_start).

Definition demo_after_run : ParallelSim :=
  Eval vm_compute in default demo_start (runParallel 8 1 demo_start).

End FixtureRuns.

(** In exact arithmetic: the system with a buffer to reduce. *)
Definition demo_buffer : list R :=
  [1; 2; 3; 4; 5; 6; 7; 8; 9; 10; 11; 12]%R.

Definition demo_exact : ParallelSim (ext := demo_ext (ops:=R_ops)) :=
  set_energiesD (ops:=R_ops) demo_buffer (demo_sim (ops:=R_ops) 0%R []).


(** * Further vocabulary *)

Section MoreVocabulary.
Context {ops : RealOps} {Bond Angle Dihedral Hop : Type}.
Context `{!Inhabited Bond, !Inhabited Angle, !Inhabited Dihedral,
          !Inhabited Hop}.
Local Abbreviation Molecule := (Molecule Bond Angle Dihedral Hop).

(** The arrays of [dst] have room for as many cells as the counts of [src]
    say. *)
Definition has_room (dst src : Molecule) : Prop :=
  numOfAtoms src <= Z.of_nat (length (atoms dst))
  /\ numOfBonds src <= Z.of_nat (length (bonds dst))
  /\ numOfAngles src <= Z.of_nat (length (angles dst))
  /\ numOfDihedrals src <= Z.of_nat (length (dihedrals dst))
  /\ numOfHops src <= Z.of_nat (length (hops dst)).

(** What [saveChangedMole] leaves in [changedmole] for the molecule [mol]:
    its scalar fields and, in freshly allocated arrays, its cells. *)
Definition checkpoint_of (mol : Molecule) : Molecule :=
  {| id := id mol;
     numOfAtoms := numOfAtoms mol; numOfBonds := numOfBonds mol;
     numOfAngles := numOfAngles mol;
     numOfDihedrals := numOfDihedrals mol; numOfHops := numOfHops mol;
     atoms := copied (numOfAtoms mol) (malloc (numOfAtoms mol)) (atoms mol);
     bonds := copied (numOfBonds mol) (malloc (numOfBonds mol)) (bonds mol);
     angles := copied (numOfAngles mol) (malloc (numOfAngles mol)) (angles mol);
     dihedrals := copied (numOfDihedrals mol) (malloc (numOfDihedrals mol))
                    (dihedrals mol);
     hops := copied (numOfHops mol) (malloc (numOfHops mol)) (hops mol) |}.

(** The energy of a pair of atoms as a thread of [calcInterAtomicEnergy]
    accumulates it; [0] for a pair that the thread skips (a negative
    [sigma] or [epsilon]). *)
Definition atom_pair_energy (fuel : nat) (enviro : Environment)
    (atom1 atom2 : Atom) : Real :=
  if (rleb (rofZ 0) (sigma atom1)) && (rleb (rofZ 0) (epsilon atom1))
     && (rleb (rofZ 0) (sigma atom2)) && (rleb (rofZ 0) (epsilon atom2))
  then match calcR2 fuel atom1 atom2 enviro with
       | Some r2 => pair_energy atom1 atom2 r2
       | None => rofZ 0
       end
  else rofZ 0.

(** The energy of a pair of molecules: the sum over the pairs of their
    atoms. *)
Definition molecule_pair_energy (fuel : nat) (enviro : Environment)
    (mol1 mol2 : Molecule) : Real :=
  sum_energies
    ((fun atom1 =>
        sum_energies
          (atom_pair_energy fuel enviro atom1
             <$> take (Z.to_nat (numOfAtoms mol2)) (atoms mol2)))
       <$> take (Z.to_nat (numOfAtoms mol1)) (atoms mol1)).

(** What cell [(x, y)] of the grid of the pair [(mol1, mol2)] holds after
    the launch of [calcInterAtomicEnergy] on a buffer of zeros. *)
Definition cell_energy (fuel : nat) (enviro : Environment)
    (mol1 mol2 : Molecule) (x y : Z) : Real :=
  if ((x <? numOfAtoms mol1) && (y <? numOfAtoms mol2))%Z
  then match readZ (atoms mol1) x, readZ (atoms mol2) y with
       | Some atom1, Some atom2 => atom_pair_energy fuel enviro atom1 atom2
       | _, _ => rofZ 0
       end
  else rofZ 0.

(** The energy of molecule [c] with molecule [m] when [c] is another
    molecule within the cutoff of [m], and [0] otherwise. *)
Definition interaction (fuel : nat) (molecules : list Molecule)
    (enviro : Environment) (m c : Z) : Real :=
  if decide (c <> m /\ withinCutoff fuel molecules enviro m c = Some true)
  then match readZ molecules m, readZ molecules c with
       | Some mol1, Some mol2 => molecule_pair_energy fuel enviro mol1 mol2
       | _, _ => rofZ 0
       end
  else rofZ 0.

(** The contribution of molecule [m]: its energy with the candidates
    [[startIdx, moleculeCount)]. *)
Definition contribution (fuel : nat) (molecules : list Molecule)
    (enviro : Environment) (m startIdx moleculeCount : Z) : Real :=
  sum_energies
    (interaction fuel molecules enviro m
       <$> seqZ startIdx (moleculeCount - startIdx)).

(** The energy of the system: every pair of molecules once. *)
Definition system_energy (fuel : nat) (molecules : list Molecule)
    (enviro : Environment) (moleculeCount : Z) : Real :=
  sum_energies
    ((fun m => contribution fuel molecules enviro m m moleculeCount)
       <$> seqZ 0 moleculeCount).

(** A molecule that the kernels can process: its atom array holds its
    atoms, of which there are at most [maxMolSize], the primary atom among
    them. *)
Definition well_sized (enviro : Environment) (maxMolSize : Z) (mol : Molecule)
    : Prop :=
  0 <= numOfAtoms mol <= maxMolSize
  /\ numOfAtoms mol <= Z.of_nat (length (atoms mol))
  /\ 0 <= primaryAtomIndex enviro < Z.of_nat (length (atoms mol)).

Context {consts : Constants}.
Context {ext : Externals Bond Angle Dihedral Hop}.

(** A simulation state on which an energy evaluation is defined: block
    sizes of at least one thread, flags that [memset] keeps apart, a buffer
    of [moleculeCount * maxMolSize^2] zero cells, scratch arrays of
    [moleculeCount] cells and molecules that fit. *)
Definition ready (s : ParallelSim) : Prop :=
  (1 <= MOL_BLOCK /\ 1 <= BATCH_BLOCK /\ 1 <= AGG_BLOCK /\ 1 <= MAX_WARP)
  /\ memset_word NO <> YES
  /\ 0 < moleculeCount s /\ 0 < maxMolSize s
  /\ energyCount s = moleculeCount s * (maxMolSize s * maxMolSize s)
  /\ Z.of_nat (length (moleculesD s)) = moleculeCount s
  /\ Z.of_nat (length (energiesD s)) = energyCount s
  /\ Forall (fun v => v = rofZ 0) (energiesD s)
  /\ moleculeCount s <= Z.of_nat (length (nbrMolsD s))
  /\ moleculeCount s <= Z.of_nat (length (nbrMolsH s))
  /\ moleculeCount s <= Z.of_nat (length (molBatchH s))
  /\ moleculeCount s <= Z.of_nat (length (molBatchD s))
  /\ Forall (well_sized (environmentD s) (maxMolSize s)) (moleculesD s).

(** The configuration of a simulation: the sizes, the environments and the
    number of molecules on the host and on the device. *)
Definition configuration (s : ParallelSim) :=
  (moleculeCount s, energyCount s, maxMolSize s,
   environment s, environmentD s, enviro (innerbox s),
   length (molecules (innerbox s)), length (moleculesD s)).

End MoreVocabulary.

(** The small system after a move of molecule 1, in binary64. *)
Section MoreFixtureRuns.
Local Existing Instance F_ops.
Local Existing Instance demo_consts.
Local Existing Instance demo_ext.

Definition demo_moved : Box * list float :=
  Eval vm_compute in
    default (demo_box, [])
      (changeMolecule 1 demo_box [0.3; 0.99; 0.5; 0.5; 0.5; 0.5; 0.5]%float).

Definition demo_rolled_back : Box :=
  Eval vm_compute in default demo_box (Rollback 1 demo_moved.1).

End MoreFixtureRuns.

(** Two energy evaluations on the small system, in binary64. *)
Section MoreFixtureEvaluations.
Local Existing Instance F_ops.
Local Existing Instance demo_consts.
Local Existing Instance demo_ext.

Definition demo_contribution : float * ParallelSim :=
  Eval vm_compute in
    default (0%float, demo_start)
      (calcMolecularEnergyContribution 8 0 0 demo_start).

Definition demo_system_energy : float * ParallelSim :=
  Eval vm_compute in
    default (0%float, demo_start) (calcSystemEnergy 8 demo_start).

End MoreFixtureEvaluations.
(** * Properties *)

(** ** Loops and arrays *)

Lemma while_mono {S : Type} (c : S -> bool) (b : S -> option S) n m s s' :
  while n c b s = Some s' -> (n <= m)%nat -> while m c b s = Some s'.
Proof.
  revert m s. induction n as [|n IH]; intros m s H Hm; [discriminate|].
  destruct m as [|m]; [lia|]. simpl in *.
  destruct (c s); [|done].
  destruct (b s) as [s1|]; [|done]. simpl in *. apply IH; [done|lia].
Qed.

Lemma iterM_app {S : Type} (body : Z -> S -> option S) l1 l2 s :
  iterM body (l1 ++ l2) s = iterM body l1 s ≫= iterM body l2.
Proof.
  revert s. induction l1 as [|i l1 IH]; intros s; simpl; [done|].
  destruct (body i s) as [s1|]; simpl; [apply IH|done].
Qed.

Lemma for_range_empty {S : Type} lo hi (body : Z -> S -> option S) s :
  hi <= lo -> for_range lo hi body s = Some s.
Proof. intros H. unfold for_range. rewrite seqZ_nil by lia. done. Qed.

Lemma for_range_first {S : Type} lo hi (body : Z -> S -> option S) s :
  lo < hi ->
  for_range lo hi body s = body lo s ≫= for_range (lo + 1) hi body.
Proof.
  intros H. unfold for_range. rewrite seqZ_cons by lia. simpl.
  replace (Z.succ lo) with (lo + 1) by lia.
  replace (Z.pred (hi - lo)) with (hi - (lo + 1)) by lia. done.
Qed.

Lemma for_range_last {S : Type} lo hi (body : Z -> S -> option S) s :
  lo <= hi ->
  for_range lo (hi + 1) body s = for_range lo hi body s ≫= body hi.
Proof.
  intros H. unfold for_range.
  replace (hi + 1 - lo) with ((hi - lo) + 1) by lia.
  rewrite seqZ_app by lia. rewrite iterM_app.
  replace (lo + (hi - lo)) with hi by lia.
  rewrite (seqZ_cons hi 1), seqZ_nil by lia.
  destruct (iterM body (seqZ lo (hi - lo)) s) as [s1|]; simpl; [|done].
  by destruct (body hi s1).
Qed.

Lemma for_range_split {S : Type} lo mid hi (body : Z -> S -> option S) s :
  lo <= mid <= hi ->
  for_range lo hi body s = for_range lo mid body s ≫= for_range mid hi body.
Proof.
  intros H. unfold for_range.
  replace (hi - lo) with ((mid - lo) + (hi - mid)) by lia.
  rewrite seqZ_app by lia. rewrite iterM_app.
  replace (lo + (mid - lo)) with mid by lia. done.
Qed.

Lemma for_range_ext {S : Type} lo hi (f g : Z -> S -> option S) s :
  (forall i s, lo <= i < hi -> f i s = g i s) ->
  for_range lo hi f s = for_range lo hi g s.
Proof.
  intros H. unfold for_range.
  assert (Hin : forall i, i ∈ seqZ lo (hi - lo) -> lo <= i < hi).
  { intros i Hi. apply elem_of_seqZ in Hi. lia. }
  revert s Hin. generalize (seqZ lo (hi - lo)).
  induction l as [|i l IH]; intros s Hin; simpl; [done|].
  rewrite H by (apply Hin; left).
  destruct (g i s) as [s1|]; simpl; [|done].
  apply IH. intros j Hj. apply Hin. by right.
Qed.

(** A launch visits the thread indices [0 .. gridDim * blockDim - 1] in
    increasing order. *)
Lemma launch_flat {S : Type} gridDim blockDim
    (kernel : Z -> Z -> Z -> S -> option S) (body : Z -> S -> option S) s :
  0 <= blockDim ->
  (forall b t s, kernel b blockDim t s = body (b * blockDim + t) s) ->
  launch gridDim blockDim kernel s = for_range 0 (gridDim * blockDim) body s.
Proof.
  intros Hd Hk. unfold launch.
  destruct (Z_le_gt_dec gridDim 0) as [Hg|Hg].
  { rewrite !for_range_empty; [done|nia|lia]. }
  rewrite <- (Z2Nat.id gridDim) by lia.
  generalize (Z.to_nat gridDim) as n. clear Hg. intros n. revert s.
  induction n as [|n IH]; intros s.
  { rewrite !for_range_empty; [done|lia|lia]. }
  rewrite Nat2Z.inj_succ. unfold Z.succ.
  rewrite for_range_last by lia. rewrite IH.
  rewrite (for_range_split 0 (Z.of_nat n * blockDim) ((Z.of_nat n + 1) * blockDim))
    by nia.
  destruct (for_range 0 (Z.of_nat n * blockDim) body s) as [s1|]; simpl; [|done].
  clear IH s.
  assert (Hshift : forall k lo s,
    for_range lo (lo + Z.of_nat k) (kernel (Z.of_nat n) blockDim) s
    = for_range (Z.of_nat n * blockDim + lo)
        (Z.of_nat n * blockDim + lo + Z.of_nat k) body s).
  { induction k as [|k IHk]; intros lo s.
    { rewrite !for_range_empty; [done|lia|lia]. }
    rewrite !for_range_first by lia. rewrite Hk.
    destruct (body _ s) as [s2|]; simpl; [|done].
    replace (lo + Z.of_nat (Datatypes.S k)) with ((lo + 1) + Z.of_nat k) by lia.
    rewrite IHk. f_equal; lia. }
  specialize (Hshift (Z.to_nat blockDim) 0 s1).
  rewrite Z2Nat.id in Hshift by lia.
  replace (0 + blockDim) with blockDim in Hshift by lia.
  rewrite Hshift. f_equal; lia.
Qed.

Lemma readZ_Some {A : Type} (a : list A) i v :
  readZ a i = Some v <-> 0 <= i /\ a !! Z.to_nat i = Some v.
Proof.
  unfold readZ. case_decide; split; intros H0; try tauto; try done.
Qed.

Lemma readZ_nat {A : Type} (a : list A) (n : nat) :
  readZ a (Z.of_nat n) = a !! n.
Proof. unfold readZ. rewrite decide_True by lia. by rewrite Nat2Z.id. Qed.

Lemma writeZ_Some {A : Type} (a a' : list A) i v :
  writeZ a i v = Some a' <->
  0 <= i < Z.of_nat (length a) /\ a' = <[Z.to_nat i := v]> a.
Proof.
  unfold writeZ. case_decide; split; intros H0.
  - by injection H0 as <-.
  - by destruct H0 as [_ ->].
  - done.
  - destruct H0. lia.
Qed.

Lemma writeZ_nat {A : Type} (a : list A) (n : nat) v :
  (n < length a)%nat -> writeZ a (Z.of_nat n) v = Some (<[n := v]> a).
Proof.
  intros H. unfold writeZ. rewrite decide_True by lia. by rewrite Nat2Z.id.
Qed.

(** Loop invariants for [for] loops. *)
Lemma for_range_invariant {S : Type} (P : Z -> S -> Prop) lo hi
    (body : Z -> S -> option S) s :
  lo <= hi -> P lo s ->
  (forall i s, lo <= i < hi -> P i s ->
     exists s', body i s = Some s' /\ P (i + 1) s') ->
  exists s', for_range lo hi body s = Some s' /\ P hi s'.
Proof.
  intros Hle H0 Hstep.
  assert (G : forall k : nat, lo + Z.of_nat k <= hi ->
            exists s', for_range lo (lo + Z.of_nat k) body s = Some s'
                       /\ P (lo + Z.of_nat k) s').
  { induction k as [|k IH]; intros Hk.
    - exists s. rewrite for_range_empty by lia.
      split; [done|]. by replace (lo + Z.of_nat 0) with lo by lia.
    - destruct IH as (s1 & E1 & P1); [lia|].
      destruct (Hstep (lo + Z.of_nat k) s1) as (s2 & E2 & P2); [lia|done|].
      exists s2. replace (lo + Z.of_nat (Datatypes.S k)) with (lo + Z.of_nat k + 1) by lia.
      rewrite for_range_last by lia. rewrite E1. simpl. done. }
  specialize (G (Z.to_nat (hi - lo))).
  replace (lo + Z.of_nat (Z.to_nat (hi - lo))) with hi in G by lia.
  apply G. lia.
Qed.

(** The same, for a property that a terminating loop preserves. *)
Lemma for_range_preserves {S : Type} (P : S -> Prop) lo hi
    (body : Z -> S -> option S) s s' :
  (forall i s s', lo <= i < hi -> P s -> body i s = Some s' -> P s') ->
  P s -> for_range lo hi body s = Some s' -> P s'.
Proof.
  intros Hstep. unfold for_range.
  assert (Hin : forall i, i ∈ seqZ lo (hi - lo) -> lo <= i < hi).
  { intros i Hi. apply elem_of_seqZ in Hi. lia. }
  revert s Hin. generalize (seqZ lo (hi - lo)).
  induction l as [|i l IH]; intros s Hin Hs; simpl.
  - by intros [= <-].
  - destruct (body i s) as [s1|] eqn:E; simpl; [|done].
    apply IH.
    + intros j Hj. apply Hin. by right.
    + eapply Hstep; [|done|done]. apply Hin. left.
Qed.

Lemma launch_preserves {S : Type} (P : S -> Prop) gridDim blockDim
    (kernel : Z -> Z -> Z -> S -> option S) s s' :
  (forall b t s s', P s -> kernel b blockDim t s = Some s' -> P s') ->
  P s -> launch gridDim blockDim kernel s = Some s' -> P s'.
Proof.
  intros Hstep. unfold launch. apply for_range_preserves.
  intros b s1 s2 _. apply for_range_preserves.
  intros t s3 s4 _. apply Hstep.
Qed.
(** ** Checkpoint and rollback *)

Lemma copy_loop_nat {A : Type} (k : nat) (dst src : list A) :
  (k <= length dst)%nat -> (k <= length src)%nat ->
  copy_loop (Z.of_nat k) dst src = Some (take k src ++ drop k dst).
Proof.
  unfold copy_loop. induction k as [|k IH]; intros Hd Hs.
  { rewrite for_range_empty by lia. by rewrite take_0, drop_0. }
  rewrite Nat2Z.inj_succ. unfold Z.succ. rewrite for_range_last by lia.
  rewrite IH by lia. simpl.
  destruct (lookup_lt_is_Some_2 src k) as [v Hv]; [lia|].
  destruct (lookup_lt_is_Some_2 dst k) as [w Hw]; [lia|].
  rewrite readZ_nat, Hv. simpl.
  rewrite writeZ_nat by (rewrite length_app, length_take, length_drop; lia).
  f_equal.
  rewrite (take_S_r _ _ _ Hv), <- app_assoc. simpl.
  rewrite insert_app_r_alt by (rewrite length_take; lia).
  rewrite length_take. replace (k - k `min` length src)%nat with 0%nat by lia.
  rewrite (drop_S _ _ _ Hw). done.
Qed.

Lemma copy_loop_spec {A : Type} (n : Z) (dst src : list A) :
  n <= Z.of_nat (length dst) -> n <= Z.of_nat (length src) ->
  copy_loop n dst src = Some (take (Z.to_nat n) src ++ drop (Z.to_nat n) dst).
Proof.
  intros Hd Hs. destruct (Z_le_gt_dec n 0) as [Hn|Hn].
  - unfold copy_loop. rewrite for_range_empty by lia.
    replace (Z.to_nat n) with 0%nat by lia. by rewrite take_0, drop_0.
  - rewrite <- (Z2Nat.id n) at 1 by lia. apply copy_loop_nat; lia.
Qed.

Section Checkpoint.
Context {ops : RealOps} {Bond Angle Dihedral Hop : Type}.
Context `{!Inhabited Bond, !Inhabited Angle, !Inhabited Dihedral,
          !Inhabited Hop}.
Local Abbreviation Molecule := (Molecule Bond Angle Dihedral Hop).

Lemma copyMolecule_spec (dst src : Molecule) :
  fits src ->
  numOfAtoms src <= Z.of_nat (length (atoms dst)) ->
  numOfBonds src <= Z.of_nat (length (bonds dst)) ->
  numOfAngles src <= Z.of_nat (length (angles dst)) ->
  numOfDihedrals src <= Z.of_nat (length (dihedrals dst)) ->
  numOfHops src <= Z.of_nat (length (hops dst)) ->
  copyMolecule dst src = Some
    {| id := id src;
       numOfAtoms := numOfAtoms src; numOfBonds := numOfBonds src;
       numOfAngles := numOfAngles src; numOfDihedrals := numOfDihedrals src;
       numOfHops := numOfHops src;
       atoms := copied (numOfAtoms src) (atoms dst) (atoms src);
       bonds := copied (numOfBonds src) (bonds dst) (bonds src);
       angles := copied (numOfAngles src) (angles dst) (angles src);
       dihedrals := copied (numOfDihedrals src) (dihedrals dst) (dihedrals src);
       hops := copied (numOfHops src) (hops dst) (hops src) |}.
Proof.
  intros (F1 & F2 & F3 & F4 & F5) D1 D2 D3 D4 D5. unfold copyMolecule.
  rewrite !copy_loop_spec by done. done.
Qed.

Lemma length_malloc {A : Type} `{!Inhabited A} n :
  length (malloc (A:=A) n) = Z.to_nat n.
Proof. unfold malloc. apply length_replicate. Qed.

Lemma take_copied {A : Type} (n : Z) (dst src : list A) :
  n <= Z.of_nat (length src) ->
  take (Z.to_nat n) (copied n dst src) = take (Z.to_nat n) src.
Proof.
  intros H. unfold copied.
  rewrite take_app_le by (rewrite length_take; lia).
  rewrite take_take. f_equal. lia.
Qed.

Lemma length_copied {A : Type} (n : Z) (dst src : list A) :
  n <= Z.of_nat (length src) -> n <= Z.of_nat (length dst) ->
  length (copied n dst src) = length dst.
Proof.
  intros Hs Hd. unfold copied. rewrite length_app, length_take, length_drop. lia.
Qed.

(** C3: for every molecule index [moleno] whose arrays hold the cells its
    counts announce, [saveChangedMole moleno] succeeds and leaves the pool as
    it is; after any mutation in place of that molecule (any field, any cell
    of the five arrays; nothing but the arrays staying where they are is
    assumed, so mutations that keep the counts are covered) [Rollback moleno]
    succeeds and the molecule's observable state (id, the five counts and
    the contents of the five arrays) is the one it had at the checkpoint. *)
Theorem checkpoint_rollback_roundtrip (b : Box) (moleno : Z) (mol : Molecule) :
  readZ (molecules b) moleno = Some mol ->
  fits mol ->
  exists b1,
    saveChangedMole moleno b = Some b1
    /\ molecules b1 = molecules b
    /\ forall (b2 : Box) (mol' : Molecule),
         changedmole b2 = changedmole b1 ->
         readZ (molecules b2) moleno = Some mol' ->
         in_place mol mol' ->
         exists b3 mol3,
           Rollback moleno b2 = Some b3
           /\ readZ (molecules b3) moleno = Some mol3
           /\ observable mol3 = observable mol.
Proof.
  intros Hm Hfit. unfold saveChangedMole. rewrite Hm. simpl.
  rewrite copyMolecule_spec; simpl; rewrite ?length_malloc; try lia; [|done].
  eexists. split; [done|]. split; [done|].
  intros b2 mol' Hcm Hm' (L1 & L2 & L3 & L4 & L5).
  destruct Hfit as (F1 & F2 & F3 & F4 & F5).
  unfold Rollback. rewrite Hm', Hcm. simpl.
  rewrite copyMolecule_spec; simpl;
    rewrite ?length_copied, ?length_malloc; try lia.
  2:{ repeat split; simpl; rewrite length_copied, length_malloc;
        rewrite ?length_malloc; lia. }
  unfold set_molecule. simpl.
  apply readZ_Some in Hm' as [Hi Hl]. apply lookup_lt_Some in Hl.
  unfold writeZ. rewrite decide_True by lia. simpl.
  eexists _, _. split; [done|]. split.
  { apply readZ_Some. split; [done|]. apply list_lookup_insert_eq. lia. }
  unfold observable. simpl.
  rewrite !take_copied
    by (rewrite ?length_copied, ?length_malloc; rewrite ?length_malloc; lia).
  rewrite ?take_copied by lia. done.
Qed.
End Checkpoint.
(** ** Periodic geometry, in exact arithmetic *)

Section ExactArithmetic.
Local Open Scope R_scope.

Lemma Q2R_half : Q2R 0.5 = / 2.
Proof. unfold Q2R. simpl. lra. Qed.

Lemma Q2R_zero : Q2R 0 = 0.
Proof. unfold Q2R. simpl. lra. Qed.


Lemma nat_above (r : R) : exists n : nat, r <= INR n.
Proof.
  destruct (archimed r) as [H _].
  exists (Z.to_nat (up r)).
  destruct (Z_le_gt_dec 0 (up r)) as [Hs|Hs].
  - rewrite INR_IZR_INZ, Z2Nat.id by done. lra.
  - assert (IZR (up r) <= 0) by (apply IZR_le; lia).
    assert (0 <= INR (Z.to_nat (up r))) by apply pos_INR. lra.
Qed.

Lemma Rltb_true a b : Rltb a b = true <-> a < b.
Proof. unfold Rltb. destruct (Rlt_dec a b); split; (done || lra || intros; exfalso; auto). Qed.
Lemma Rltb_false a b : Rltb a b = false <-> b <= a.
Proof. unfold Rltb. destruct (Rlt_dec a b); split; try done; try lra. Qed.

Lemma raise_loop L x n :
  0 < L -> - L / 2 <= x + INR n * L ->
  forall fuel, (n < fuel)%nat ->
  exists y (k : nat),
    while (S:=R) fuel (fun x => Rltb x ((- Q2R 0.5) * L)) (fun x => Some (x + L)) x
      = Some y
    /\ y = x + INR k * L /\ - L / 2 <= y /\ (y = x \/ y < L / 2).
Proof.
  intros HL. revert x. induction n as [|n IH]; intros x Hx fuel Hf.
  - destruct fuel as [|fuel]; [lia|]. simpl. simpl in Hx.
    rewrite Q2R_half.
    rewrite (proj2 (Rltb_false _ _)) by lra.
    exists x, 0%nat. simpl. split; [done|]. split; [lra|]. split; [lra|]. by left.
  - destruct fuel as [|fuel]; [lia|]. simpl. rewrite Q2R_half.
    destruct (Rltb x (- / 2 * L)) eqn:E.
    + apply Rltb_true in E. simpl.
      destruct (IH (x + L)) with (fuel := fuel) as (y & k & Hw & Hy & Hlo & Hhi).
      { rewrite S_INR in Hx. lra. } { lia. }
      exists y, (S k). rewrite Q2R_half in Hw. split; [done|].
      rewrite S_INR. split; [lra|]. split; [lra|]. right.
      destruct Hhi as [->|]; lra.
    + apply Rltb_false in E. exists x, 0%nat. simpl.
      split; [done|]. split; [lra|]. split; [lra|]. by left.
Qed.

Lemma lower_loop L x n :
  0 < L -> x - INR n * L <= L / 2 ->
  forall fuel, (n < fuel)%nat ->
  exists y (k : nat),
    while (S:=R) fuel (fun x => Rltb (Q2R 0.5 * L) x) (fun x => Some (x - L)) x
      = Some y
    /\ y = x - INR k * L /\ y <= L / 2 /\ (y = x \/ - L / 2 < y).
Proof.
  intros HL. revert x. induction n as [|n IH]; intros x Hx fuel Hf.
  - destruct fuel as [|fuel]; [lia|]. simpl. simpl in Hx.
    rewrite Q2R_half.
    rewrite (proj2 (Rltb_false _ _)) by lra.
    exists x, 0%nat. simpl. split; [done|]. split; [lra|]. split; [lra|]. by left.
  - destruct fuel as [|fuel]; [lia|]. simpl. rewrite Q2R_half.
    destruct (Rltb (/ 2 * L) x) eqn:E.
    + apply Rltb_true in E. simpl.
      destruct (IH (x - L)) with (fuel := fuel) as (y & k & Hw & Hy & Hlo & Hhi).
      { rewrite S_INR in Hx. lra. } { lia. }
      exists y, (S k). rewrite Q2R_half in Hw. split; [done|].
      rewrite S_INR. split; [lra|]. split; [lra|]. right.
      destruct Hhi as [->|]; lra.
    + apply Rltb_false in E. exists x, 0%nat. simpl.
      split; [done|]. split; [lra|]. split; [lra|]. by left.
Qed.

Lemma makePeriodic_terminates (d L : R) :
  0 < L ->
  exists n : nat, forall fuel, (n <= fuel)%nat ->
  exists y, makePeriodic (ops:=R_ops) fuel d L = Some y.
Proof.
  intros HL.
  destruct (nat_above ((- L / 2 - d) / L)) as [n1 Hn1].
  destruct (nat_above ((d + L) / L)) as [n2 Hn2].
  exists (S (n1 + n2)). intros fuel Hf.
  assert (H1 : - L / 2 <= d + INR n1 * L).
  { apply (Rmult_le_compat_r L) in Hn1; [|lra].
    unfold Rdiv in Hn1. rewrite Rmult_assoc, Rinv_l, Rmult_1_r in Hn1 by lra. lra. }
  destruct (raise_loop L d n1 HL H1 fuel) as (y1 & k1 & Hw1 & Hy1 & Hlo1 & Hhi1); [lia|].
  assert (H2 : y1 - INR n2 * L <= L / 2).
  { apply (Rmult_le_compat_r L) in Hn2; [|lra].
    unfold Rdiv in Hn2. rewrite Rmult_assoc, Rinv_l, Rmult_1_r in Hn2 by lra.
    assert (0 <= INR n2 * L) by (apply Rmult_le_pos; [apply pos_INR|lra]).
    destruct Hhi1 as [->|]; lra. }
  destruct (lower_loop L y1 n2 HL H2 fuel) as (y & k2 & Hw2 & _); [lia|].
  exists y. unfold makePeriodic. simpl. rewrite Hw1. simpl. exact Hw2.
Qed.







End ExactArithmetic.

(** ** Periodic geometry, in binary64

    The lower end is returned in binary64 as well, and the loops rely on the
    coordinate difference being of the order of the box: once adding the box
    length no longer changes the value, the first loop does not end. *)

Example makePeriodic_binary64_lower_end :
  makePeriodic (ops:=F_ops) 1 (-0.5)%float 1%float = Some (-0.5)%float.
Proof. reflexivity. Qed.

Lemma while_stuck {S : Type} (c : S -> bool) (b : S -> option S) (s : S) :
  c s = true -> b s = Some s -> forall fuel, while fuel c b s = None.
Proof.
  intros Hc Hb fuel. induction fuel as [|fuel IH]; simpl; [done|].
  by rewrite Hc, Hb.
Qed.

Example makePeriodic_binary64_diverges (fuel : nat) :
  makePeriodic (ops:=F_ops) fuel (-1e17)%float 1%float = None.
Proof.
  unfold makePeriodic. rewrite while_stuck; reflexivity.
Qed.
(** ** The pair potential *)

Section Coincident.
Context {ops : RealOps}.

(** C8: for atoms at squared distance [r2 == 0], [calc_lj] and
    [calcCharge] (which the kernel calls with [sqrt(r2)]) both return the
    literal [0.0]; the result does not depend on what the division does.
    The only fact about the arithmetic that is used is that the square root
    of a zero is a zero. *)
Theorem coincident_atoms_contribute_zero (atom1 atom2 : Atom) (r2 : Real) :
  (forall r, reqb r (rlit 0) = true -> reqb (rsqrt r) (rlit 0) = true) ->
  reqb r2 (rlit 0) = true ->
  calc_lj atom1 atom2 r2 = rlit 0
  /\ calcCharge (charge atom1) (charge atom2) (rsqrt r2) = rlit 0.
Proof.
  intros Hsqrt Hr2. split.
  - unfold calc_lj. by rewrite Hr2.
  - unfold calcCharge. by rewrite (Hsqrt _ Hr2).
Qed.

End Coincident.

Lemma Reqb_true a b : Reqb a b = true <-> a = b.
Proof. unfold Reqb. destruct (Req_dec_T a b); split; done. Qed.

Lemma Reqb_false a b : Reqb a b = false <-> a <> b.
Proof. unfold Reqb. destruct (Req_dec_T a b); split; done. Qed.

Lemma Rleb_true a b : Rleb a b = true <-> (a <= b)%R.
Proof. unfold Rleb. destruct (Rle_dec a b); split; done. Qed.

Lemma Rleb_false a b : Rleb a b = false <-> (b < a)%R.
Proof.
  unfold Rleb. destruct (Rle_dec a b); split; try done; intros; lra.
Qed.

Lemma R_sqrt_zero (r : R) :
  reqb (RealOps:=R_ops) r (rlit 0) = true ->
  reqb (RealOps:=R_ops) (R_sqrt.sqrt r) (rlit 0) = true.
Proof.
  simpl. intros H. apply Reqb_true in H. apply Reqb_true.
  rewrite Q2R_zero in *. subst r. apply sqrt_0.
Qed.

Lemma F_sqrt_zero (r : float) :
  reqb (RealOps:=F_ops) r (rlit 0) = true ->
  reqb (RealOps:=F_ops) (PrimFloat.sqrt r) (rlit 0) = true.
Proof.
  simpl. rewrite !FloatAxioms.eqb_spec, FloatAxioms.sqrt_spec.
  change (Prim2SF (float_of_Q 0)) with (S754_zero false).
  destruct (Prim2SF r) as [s| | |s m e]; simpl; try done.
  - unfold SFeqb at 1. simpl. by destruct s.
  - unfold SFeqb at 1. simpl. by destruct s.
Qed.

Lemma coincident_atoms_contribute_zero_witness :
  calc_lj (ops:=R_ops) (demo_atom 1 1 1 1 0.1 0.5) (demo_atom 1 1 1 1 0.1 0.5) 0%R
    = rlit 0
  /\ calcCharge (ops:=R_ops) (Q2R 0.5) (Q2R 0.5) (R_sqrt.sqrt 0) = rlit 0.
Proof.
  apply (coincident_atoms_contribute_zero (ops:=R_ops)
           (demo_atom 1 1 1 1 0.1 0.5) (demo_atom 1 1 1 1 0.1 0.5) 0%R).
  - exact R_sqrt_zero.
  - simpl. apply Reqb_true. by rewrite Q2R_zero.
Defined.

(** X26: in binary64 the guards of [calc_lj] and [calcCharge] fire for a
    squared distance of [-0.0] as for [+0.0] (both compare equal to [0.0], and
    so does the square root of either): both terms are then [+0.0]. *)
Lemma coincident_atoms_binary64 (atom1 atom2 : Atom (ops:=F_ops)) (r2 : float) :
  (r2 =? 0)%float = true ->
  calc_lj atom1 atom2 r2 = 0%float
  /\ calcCharge (charge atom1) (charge atom2) (PrimFloat.sqrt r2) = 0%float.
Proof.
  intros H. split.
  - unfold calc_lj. simpl. change (float_of_Q 0) with 0%float. by rewrite H.
  - unfold calcCharge. simpl. pose proof (F_sqrt_zero r2 H) as H'. simpl in H'.
    change (float_of_Q 0) with 0%float in *. by rewrite H'.
Qed.
(** ** The reduction *)

Section Reduction.
Context {ops : RealOps}.



Lemma aggregateEnergies_unfold energyCount interval bIdx bDim tIdx energies :
  aggregateEnergies energyCount interval 3 bIdx bDim tIdx energies
  = fold_step energyCount (3 * interval * (bIdx * bDim + tIdx)) (1 * interval) energies
    ≫= fold_step energyCount (3 * interval * (bIdx * bDim + tIdx)) (2 * interval).
Proof.
  unfold aggregateEnergies, for_range, fold_step.
  change (seqZ 1 (3 - 1)) with [1; 2]. cbn [iterM].
  match goal with |- mbind _ ?x = _ => destruct x as [e1|]; simpl; [|done] end.
  match goal with |- mbind _ ?x = _ => by destruct x end.
Qed.

Lemma fold_step_spec n idx k (e : list Real) :
  Z.of_nat (length e) = n -> 0 <= idx -> 0 < k ->
  exists e', fold_step n idx k e = Some e'
    /\ length e' = length e
    /\ (forall j, j <> Z.to_nat idx -> j <> Z.to_nat (idx + k) -> e' !! j = e !! j)
    /\ (idx + k < n -> e' !! Z.to_nat (idx + k) = Some (rofZ 0))
    /\ (n <= idx + k -> e' = e).
Proof.
  intros Hlen Hidx Hk. unfold fold_step.
  destruct (Z.ltb_spec (idx + k) n) as [Hlt|Hge].
  2:{ exists e. repeat split; try done. lia. }
  destruct (lookup_lt_is_Some_2 e (Z.to_nat idx)) as [a Ha]; [lia|].
  destruct (lookup_lt_is_Some_2 e (Z.to_nat (idx + k))) as [b Hb]; [lia|].
  rewrite (proj2 (readZ_Some _ _ _) (conj Hidx Ha)). simpl.
  rewrite (proj2 (readZ_Some e (idx + k) b)) by (split; [lia|done]). simpl.
  unfold writeZ. rewrite decide_True by lia. simpl.
  rewrite decide_True by (rewrite length_insert; lia).
  eexists. split; [done|]. rewrite !length_insert.
  split; [done|]. split; [|split].
  - intros j H1 H2. rewrite !list_lookup_insert_ne by done. done.
  - intros _. apply list_lookup_insert_eq. rewrite length_insert. lia.
  - lia.
Qed.


Section Sum.
Hypothesis radd_assoc : forall a b c : Real, radd a (radd b c) = radd (radd a b) c.
Hypothesis radd_comm : forall a b : Real, radd a b = radd b a.
Hypothesis radd_zero : forall a : Real, radd (rofZ 0) a = a.

Lemma sum_zero_out (e : list Real) (k : nat) (y : Real) :
  e !! k = Some y -> radd y (sum_energies (<[k := rofZ 0]> e)) = sum_energies e.
Proof using radd_assoc radd_comm radd_zero.
  revert k. induction e as [|u e IH]; intros k Hk; [done|].
  destruct k as [|k]; simpl in *.
  - injection Hk as ->. by rewrite radd_zero.
  - rewrite radd_assoc, (radd_comm y u), <- radd_assoc. by rewrite IH.
Qed.

Lemma sum_fold_into (e : list Real) (a b : nat) (x y : Real) :
  (a < b)%nat -> e !! a = Some x -> e !! b = Some y ->
  sum_energies (<[b := rofZ 0]> (<[a := radd x y]> e)) = sum_energies e.
Proof using radd_assoc radd_comm radd_zero.
  revert a b. induction e as [|u e IH]; intros a b Hab Ha Hb; [done|].
  destruct b as [|b]; [lia|]. destruct a as [|a]; simpl in *.
  - injection Ha as ->. rewrite <- radd_assoc. by rewrite sum_zero_out.
  - f_equal. apply IH; [lia|done|done].
Qed.

Lemma fold_step_sum n idx k (e e' : list Real) :
  Z.of_nat (length e) = n -> 0 <= idx -> 0 < k ->
  fold_step n idx k e = Some e' -> sum_energies e' = sum_energies e.
Proof using radd_assoc radd_comm radd_zero.
  intros Hlen Hidx Hk. unfold fold_step.
  destruct (Z.ltb_spec (idx + k) n) as [Hlt|Hge]; [|by intros [= ->]].
  destruct (lookup_lt_is_Some_2 e (Z.to_nat idx)) as [a Ha]; [lia|].
  destruct (lookup_lt_is_Some_2 e (Z.to_nat (idx + k))) as [b Hb]; [lia|].
  rewrite (proj2 (readZ_Some _ _ _) (conj Hidx Ha)). simpl.
  rewrite (proj2 (readZ_Some e (idx + k) b)) by (split; [lia|done]). simpl.
  unfold writeZ. rewrite decide_True by lia. simpl.
  rewrite decide_True by (rewrite length_insert; lia).
  intros [= <-]. apply sum_fold_into; [lia|done|done].
Qed.
End Sum.

(** One thread of [aggregateEnergies], lane [t] of the pass with interval
    [i]: it owns the cells [(3t) * i], [(3t + 1) * i] and [(3t + 2) * i]. *)
Lemma aggregate_thread_spec n i bIdx bDim tIdx (e : list Real) :
  Z.of_nat (length e) = n -> 0 < i -> 0 <= bIdx * bDim + tIdx ->
  let t := bIdx * bDim + tIdx in
  exists e', aggregateEnergies n i 3 bIdx bDim tIdx e = Some e'
    /\ length e' = length e
    /\ (forall q, 0 <= q -> ~ (3 * t <= q < 3 * t + 3) ->
          e' !! Z.to_nat (q * i) = e !! Z.to_nat (q * i))
    /\ (forall j, (forall q, 0 <= q -> j <> Z.to_nat (q * i)) -> e' !! j = e !! j)
    /\ (forall q, 3 * t < q < 3 * t + 3 -> q * i < n ->
          e' !! Z.to_nat (q * i) = Some (rofZ 0))
    /\ ((forall a b c : Real, radd a (radd b c) = radd (radd a b) c) ->
        (forall a b : Real, radd a b = radd b a) ->
        (forall a : Real, radd (rofZ 0) a = a) ->
        sum_energies e' = sum_energies e).
Proof.
  intros Hlen Hi Ht t. rewrite aggregateEnergies_unfold. fold t.
  destruct (fold_step_spec n (3 * i * t) (1 * i) e) as (e1 & E1 & L1 & U1 & Z1 & N1);
    [done|nia|lia|].
  destruct (fold_step_spec n (3 * i * t) (2 * i) e1) as (e2 & E2 & L2 & U2 & Z2 & N2);
    [lia|nia|lia|].
  rewrite E1. simpl. rewrite E2. exists e2.
  split; [done|]. split; [lia|].
  assert (Hpos : forall q, 0 <= q -> 0 <= q * i) by (intros; nia).
  assert (Hinj : forall q q', 0 <= q -> 0 <= q' -> q <> q' ->
            Z.to_nat (q * i) <> Z.to_nat (q' * i)).
  { intros q q' Hq Hq' Hne Heq. apply Hne.
    assert (q * i = q' * i) by (pose proof (Hpos q Hq); pose proof (Hpos q' Hq'); lia).
    nia. }
  replace (3 * i * t) with ((3 * t) * i) in * by ring.
  replace (3 * t * i + 1 * i) with ((3 * t + 1) * i) in * by ring.
  replace (3 * t * i + 2 * i) with ((3 * t + 2) * i) in * by ring.
  split; [|split; [|split]].
  - intros q Hq Hout. rewrite U2, U1; [done|apply Hinj; lia..].
  - intros j Hj. rewrite U2, U1; [done|apply Hj; lia..].
  - intros q Hq Hqn.
    destruct (decide (q = 3 * t + 1)) as [->|Hne].
    + rewrite U2 by (apply Hinj; lia). apply Z1. done.
    + replace q with (3 * t + 2) in * by lia. apply Z2. done.
  - intros A C Zr.
    rewrite (fold_step_sum A C Zr n (3 * t * i) (2 * i) e1 e2
               ltac:(lia) ltac:(nia) ltac:(lia) E2).
    apply (fold_step_sum A C Zr n (3 * t * i) (1 * i) e e1
             ltac:(lia) ltac:(nia) ltac:(lia) E1).
Qed.


(** The lanes [0 .. T-1] of one pass, in increasing order. *)
Lemma aggregate_lanes_spec n i (T : nat) (e : list Real) :
  Z.of_nat (length e) = n -> 0 < i ->
  exists e',
    for_range 0 (Z.of_nat T) (aggregateEnergies n i 3 0 0) e = Some e'
    /\ length e' = length e
    /\ (forall j, (forall q, 0 <= q -> j <> Z.to_nat (q * i)) -> e' !! j = e !! j)
    /\ (forall q, 3 * Z.of_nat T <= q ->
          e' !! Z.to_nat (q * i) = e !! Z.to_nat (q * i))
    /\ (forall q, 0 <= q < 3 * Z.of_nat T -> q mod 3 <> 0 -> q * i < n ->
          e' !! Z.to_nat (q * i) = Some (rofZ 0))
    /\ ((forall a b c : Real, radd a (radd b c) = radd (radd a b) c) ->
        (forall a b : Real, radd a b = radd b a) ->
        (forall a : Real, radd (rofZ 0) a = a) ->
        sum_energies e' = sum_energies e).
Proof.
  intros Hlen Hi. induction T as [|T IH].
  { exists e. rewrite for_range_empty by lia. repeat split; try done. lia. }
  destruct IH as (e1 & E1 & L1 & U1 & K1 & Z1 & S1).
  rewrite Nat2Z.inj_succ. unfold Z.succ. rewrite for_range_last by lia.
  rewrite E1. simpl.
  destruct (aggregate_thread_spec n i 0 0 (Z.of_nat T) e1)
    as (e2 & E2 & L2 & K2 & U2 & Z2 & S2); [lia|done|lia|].
  change (0 * 0 + Z.of_nat T) with (Z.of_nat T) in *.
  rewrite E2. exists e2. split; [done|]. split; [lia|].
  split; [|split; [|split]].
  - intros j Hj. rewrite U2, U1; done.
  - intros q Hq. rewrite K2, K1; [done|lia..].
  - intros q Hq Hq3 Hqn.
    destruct (Z_lt_ge_dec q (3 * Z.of_nat T)) as [Hlt|Hge].
    + rewrite K2 by lia. apply Z1; [lia|done|done].
    + apply Z2; [|done]. split; [|lia].
      destruct (decide (q = 3 * Z.of_nat T)) as [->|]; [|lia].
      rewrite Z.mul_comm, Z_mod_mult in Hq3. done.
  - intros A C Zr. rewrite S2, S1; done.
Qed.



Context {consts : Constants}.

Lemma aggregate_pass_spec n i bs (e : list Real) :
  1 <= MAX_WARP ->
  Z.of_nat (length e) = n -> 1 <= i < n -> 1 <= bs -> reduced n i e ->
  exists bs' e',
    aggregate_pass n 3 (n ÷ 3) (i, bs, e) = Some (i * 3, bs', e')
    /\ 1 <= bs' /\ length e' = length e /\ reduced n (i * 3) e'
    /\ ((forall a b c : Real, radd a (radd b c) = radd (radd a b) c) ->
        (forall a b : Real, radd a b = radd b a) ->
        (forall a : Real, radd (rofZ 0) a = a) ->
        sum_energies e' = sum_energies e).
Proof.
  intros HW Hlen Hi Hbs Hred. unfold aggregate_pass.
  set (halve := if (bs >? MAX_WARP)%Z then
                  perThread ← divZ (n ÷ 3) i; Some (perThread + 1 <? bs)%Z
                else Some false).
  assert (Hh : exists h, halve = Some h /\ (h = true -> MAX_WARP < bs)).
  { unfold halve. destruct (Z.gtb_spec bs MAX_WARP).
    - unfold divZ. rewrite decide_False by lia. simpl. eauto.
    - eexists. split; [done|]. done. }
  destruct Hh as (h & -> & Hh). simpl.
  set (bs' := if h then bs ÷ 2 else bs).
  assert (Hbs' : 1 <= bs').
  { unfold bs'. destruct h; [|done]. specialize (Hh eq_refl).
    rewrite Z.quot_div_nonneg by lia. apply Z.div_le_lower_bound; lia. }
  unfold divZ at 1. rewrite decide_False by nia. simpl.
  set (grid := (n ÷ 3) ÷ (i * bs')).
  assert (Hn3 : 0 <= n ÷ 3) by (apply Z.quot_pos; lia).
  assert (Hgrid : 0 <= grid) by (apply Z.quot_pos; nia).
  assert (Hcover : n ÷ 3 < (grid + 1) * (i * bs')).
  { unfold grid. rewrite (Z.quot_div_nonneg (n ÷ 3)) by nia.
    pose proof (Z.mul_succ_div_gt (n ÷ 3) (i * bs') ltac:(nia)). lia. }
  assert (Hn : n < 3 * (n ÷ 3) + 3).
  { rewrite Z.quot_div_nonneg by lia. pose proof (Z.mul_succ_div_gt n 3 ltac:(lia)). lia. }
  rewrite (launch_flat _ _ _ (aggregateEnergies n i 3 0 0)) by (done || lia).
  destruct (aggregate_lanes_spec n i (Z.to_nat ((grid + 1) * bs')) e Hlen ltac:(lia))
    as (e' & E & L & U & K & Zr & S).
  rewrite Z2Nat.id in * by nia. rewrite E. simpl.
  exists bs', e'. split; [done|]. split; [done|]. split; [done|]. split; [|done].
  intros k Hk Hndiv.
  destruct (Z.BoolSpec_divide i k) as [[q Hq]|Hnd].
  - subst k. assert (0 < q) by nia.
    assert (q mod 3 <> 0).
    { intros Hm. apply Hndiv. exists (q / 3).
      pose proof (Z.div_mod q 3 ltac:(lia)). nia. }
    apply Zr; [nia|done|lia].
  - rewrite U; [by apply Hred|].
    intros q Hq Heq. apply Hnd. exists q. nia.
Qed.


Lemma aggregate_loop_spec n (fuel : nat) i bs (e : list Real) :
  1 <= MAX_WARP ->
  Z.of_nat (length e) = n -> 1 <= i -> 1 <= bs -> reduced n i e ->
  (0 < fuel)%nat -> n - i < Z.of_nat fuel ->
  exists i' bs' e',
    while fuel (fun '(i, _, _) => (i <? n)%Z) (aggregate_pass n 3 (n ÷ 3))
      (i, bs, e) = Some (i', bs', e')
    /\ n <= i' /\ length e' = length e /\ reduced n i' e'
    /\ ((forall a b c : Real, radd a (radd b c) = radd (radd a b) c) ->
        (forall a b : Real, radd a b = radd b a) ->
        (forall a : Real, radd (rofZ 0) a = a) ->
        sum_energies e' = sum_energies e).
Proof.
  intros HW. revert i bs e.
  induction fuel as [|fuel IH]; intros i bs e Hlen Hi Hbs Hred Hf Hfuel; [lia|].
  cbn [while]. destruct (Z.ltb_spec i n) as [Hlt|Hge].
  - destruct (aggregate_pass_spec n i bs e HW Hlen ltac:(lia) Hbs Hred)
      as (bs1 & e1 & E1 & Hbs1 & L1 & R1 & S1).
    rewrite E1. simpl.
    destruct (IH (i * 3) bs1 e1) as (i' & bs' & e' & E & Hi' & L & R & S);
      [lia|lia|done|done|lia|lia|].
    exists i', bs', e'. split; [done|]. split; [done|]. split; [lia|].
    split; [done|]. intros A C Zr. rewrite S, S1; done.
  - exists i, bs, e. repeat split; try done.
Qed.

Lemma sum_zeros (l : list Real) :
  (forall a : Real, radd (rofZ 0) a = a) ->
  Forall (fun v => v = rofZ 0) l -> sum_energies l = rofZ 0.
Proof.
  intros Zr. induction 1 as [|v l -> _ IH]; [done|]. simpl. by rewrite Zr.
Qed.

Context {Bond Angle Dihedral Hop : Type}.
Context {ext : Externals Bond Angle Dihedral Hop}.

(** [getEnergyFromDevice] returns, leaves every cell of the buffer zero and,
    when addition is associative and commutative with unit [0], returns the
    sum of the buffer. *)
Lemma getEnergyFromDevice_spec (s : ParallelSim) :
  1 <= AGG_BLOCK -> 1 <= MAX_WARP ->
  0 < energyCount s ->
  Z.of_nat (length (energiesD s)) = energyCount s ->
  exists totalEnergy energies,
    getEnergyFromDevice s = Some (totalEnergy, set_energiesD energies s)
    /\ length energies = length (energiesD s)
    /\ energies !! 0%nat = Some (rlit 0)
    /\ (forall k, (0 < k < length energies)%nat ->
          energies !! k = Some (rofZ 0))
    /\ ((forall a b c : Real, radd a (radd b c) = radd (radd a b) c) ->
        (forall a b : Real, radd a b = radd b a) ->
        (forall a : Real, radd (rofZ 0) a = a) ->
        totalEnergy = sum_energies (energiesD s)).
Proof.
  intros HA HW Hn Hlen. unfold getEnergyFromDevice.
  destruct (aggregate_loop_spec (energyCount s) (S (Z.to_nat (energyCount s)))
              1 AGG_BLOCK (energiesD s) HW Hlen ltac:(lia) HA)
    as (i' & bs' & e' & E & Hi' & L & R & S); [|lia|lia|].
  { intros k Hk Hnd. destruct Hnd. apply Z.divide_1_l. }
  rewrite E. simpl.
  destruct (lookup_lt_is_Some_2 e' 0) as [total Ht]; [lia|].
  rewrite (proj2 (readZ_Some e' 0 total)) by (split; [lia|done]). simpl.
  unfold writeZ. rewrite decide_True by lia. simpl.
  assert (Hz : forall k, (0 < k < length e')%nat -> e' !! k = Some (rofZ 0)).
  { intros k Hk. rewrite <- (Nat2Z.id k). apply R; [lia|].
    intros [q Hq]. assert (0 < Z.of_nat k < i') by lia.
    destruct (Z_le_gt_dec q 0); nia. }
  exists total, (<[0%nat := rlit 0]> e').
  split; [done|]. rewrite length_insert. split; [done|].
  split; [apply list_lookup_insert_eq; lia|]. split.
  - intros k Hk. rewrite list_lookup_insert_ne by lia. by apply Hz.
  - intros A C Zr. rewrite <- (S A C Zr).
    destruct e' as [|x e']; [done|]. simpl in Ht. injection Ht as ->. simpl.
    rewrite (sum_zeros e' Zr).
    + by rewrite C, Zr.
    + apply Forall_lookup. intros k v Hv.
      specialize (Hz (Datatypes.S k)). simpl in Hz.
      rewrite Hz in Hv; [by injection Hv|].
      apply lookup_lt_Some in Hv. lia.
Qed.

End Reduction.

(** ** The reduction and the energy buffer *)

Section ReductionClaims.
Context {ops : RealOps} {Bond Angle Dihedral Hop : Type}.
Context {consts : Constants} {ext : Externals Bond Angle Dihedral Hop}.


Lemma calcInterAtomicEnergy_length fuel (mols : list (Molecule Bond Angle Dihedral Hop))
    currentMol (env : Environment) n molBatch M b d t (e e' : list Real) :
  calcInterAtomicEnergy fuel mols currentMol env n molBatch M b d t e = Some e' ->
  length e' = length e.
Proof.
  unfold calcInterAtomicEnergy. intros H.
  repeat (case_match; simplify_option_eq; try done).
  match goal with H : writeZ _ _ _ = Some _ |- _ => apply writeZ_Some in H as [_ ->] end.
  by rewrite length_insert.
Qed.


End ReductionClaims.

(** ** The neighbour batch *)

Section Batch.
Context {ops : RealOps} {Bond Angle Dihedral Hop : Type}.
Local Abbreviation Molecule := (Molecule Bond Angle Dihedral Hop).


Context {consts : Constants}.

Lemma checkMoleculeDistances_candidate fuel (mols : list Molecule) m start n
    (env : Environment) c flags b :
  c < n -> start <= c -> c <> m ->
  withinCutoff fuel mols env m c = Some b ->
  checkMoleculeDistances fuel mols m start n env 0 0 c flags
  = if b then writeZ flags c YES else Some flags.
Proof.
  intros H1 H2 H3 Hw. unfold checkMoleculeDistances.
  change (0 * 0 + c) with c.
  rewrite (proj2 (Z.ltb_lt c n) H1), (proj2 (Z.geb_le c start) H2).
  rewrite (proj2 (Z.eqb_neq c m) H3). simpl.
  unfold withinCutoff in Hw.
  destruct (readZ mols m) as [mol1|]; simpl in *; [|done].
  destruct (readZ (atoms mol1) _) as [atom1|]; simpl in *; [|done].
  destruct (readZ mols c) as [mol2|]; simpl in *; [|done].
  destruct (readZ (atoms mol2) _) as [atom2|]; simpl in *; [|done].
  destruct (calcR2 fuel atom1 atom2 env) as [r2|]; simpl in *; [|done].
  injection Hw as <-. done.
Qed.

Lemma checkMoleculeDistances_other fuel (mols : list Molecule) m start n
    (env : Environment) c flags :
  ~ (c < n /\ start <= c /\ c <> m) ->
  checkMoleculeDistances fuel mols m start n env 0 0 c flags = Some flags.
Proof.
  intros H. unfold checkMoleculeDistances. change (0 * 0 + c) with c.
  destruct (Z.ltb_spec c n); simpl; [|done].
  destruct (Z.geb_spec c start); simpl; [|done].
  destruct (Z.eqb_spec c m); simpl; [done|]. lia.
Qed.


Lemma checkMoleculeDistances_launch fuel (mols : list Molecule) m start n
    (env : Environment) grid block flags :
  0 <= n <= Z.of_nat (length flags) -> 0 <= block -> n <= grid * block ->
  (forall c, start <= c < n -> c <> m ->
     is_Some (withinCutoff fuel mols env m c)) ->
  (forall c, 0 <= c < n -> readZ flags c = Some (memset_word NO)) ->
  exists flags',
    launch grid block (checkMoleculeDistances fuel mols m start n env) flags
    = Some flags'
    /\ length flags' = length flags
    /\ forall c, 0 <= c < n -> readZ flags' c = Some (flag fuel mols env m start c).
Proof.
  intros Hn Hb Hcov Hdef Hinit.
  rewrite (launch_flat _ _ _ (checkMoleculeDistances fuel mols m start n env 0 0))
    by done.
  destruct (for_range_invariant
    (fun t f => length f = length flags
       /\ forall c, 0 <= c < n ->
            readZ f c = Some (if decide (c < t) then flag fuel mols env m start c
                              else memset_word NO))
    0 (grid * block)
    (checkMoleculeDistances fuel mols m start n env 0 0) flags)
    as (f & E & L & Hf).
  - nia.
  - split; [done|]. intros c Hc. rewrite decide_False by lia. by apply Hinit.
  - intros t f Ht (L & Hf).
    destruct (decide (t < n /\ start <= t /\ t <> m)) as [Hcand|Hno].
    + destruct (Hdef t) as [b Hb']; [lia|tauto|].
      rewrite (checkMoleculeDistances_candidate _ _ _ _ _ _ _ _ b) by tauto.
      destruct b.
      * unfold writeZ. rewrite decide_True by lia. eexists. split; [done|].
        rewrite length_insert. split; [done|]. intros c Hc.
        destruct (decide (c = t)) as [->|Hne].
        -- rewrite decide_True by lia. apply readZ_Some. split; [lia|].
           rewrite list_lookup_insert_eq by lia. unfold flag.
           rewrite decide_True by tauto. done.
        -- apply readZ_Some. split; [lia|].
           rewrite list_lookup_insert_ne by lia.
           specialize (Hf c Hc). apply readZ_Some in Hf as [_ ->].
           destruct (decide (c < t)), (decide (c < t + 1)); try done; lia.
      * eexists. split; [done|]. split; [done|]. intros c Hc.
        rewrite (Hf c Hc).
        destruct (decide (c = t)) as [->|Hne].
        -- rewrite decide_False, decide_True by lia. unfold flag.
           rewrite decide_False; [done|]. rewrite Hb'. intros (_ & _ & ?). done.
        -- destruct (decide (c < t)), (decide (c < t + 1)); try done; lia.
    + rewrite checkMoleculeDistances_other by done.
      eexists. split; [done|]. split; [done|]. intros c Hc.
      rewrite (Hf c Hc).
      destruct (decide (c = t)) as [->|Hne].
      * rewrite decide_False, decide_True by lia. unfold flag.
        rewrite decide_False; [done|]. intros (? & ? & ?). apply Hno. lia.
      * destruct (decide (c < t)), (decide (c < t + 1)); try done; lia.
  - exists f. split; [done|]. split; [done|]. intros c Hc.
    rewrite (Hf c Hc). rewrite decide_True by lia. done.
Qed.


Lemma memset_int_spec (a : list Z) c n :
  0 <= n <= Z.of_nat (length a) ->
  exists a', memset_int a c n = Some a'
    /\ length a' = length a
    /\ forall i, 0 <= i < n -> readZ a' i = Some (memset_word c).
Proof.
  intros Hn. unfold memset_int. rewrite decide_True by done.
  eexists. split; [done|]. split.
  - rewrite length_app, length_replicate, length_drop. lia.
  - intros i Hi. apply readZ_Some. split; [lia|].
    rewrite lookup_app_l by (rewrite length_replicate; lia).
    apply lookup_replicate_2. lia.
Qed.

Lemma memcpy_spec {A : Type} (dst src : list A) n :
  0 <= n <= Z.of_nat (length dst) -> n <= Z.of_nat (length src) ->
  exists dst', memcpy dst src n = Some dst'
    /\ length dst' = length dst
    /\ forall i, 0 <= i < n -> readZ dst' i = readZ src i.
Proof.
  intros Hd Hs. unfold memcpy. rewrite decide_True by lia.
  eexists. split; [done|]. split.
  - rewrite length_app, length_take, length_drop. lia.
  - intros i Hi. unfold readZ. rewrite !decide_True by lia.
    rewrite lookup_app_l by (rewrite length_take; lia).
    apply lookup_take_lt. lia.
Qed.

Lemma memset_word_minus_one : memset_word (-1) = -1.
Proof. reflexivity. Qed.

(** The host loop of [createMolBatch] that compacts the flags. *)
Lemma compaction_spec (P : Z -> Prop) `{!forall c, Decision (P c)}
    (nbrH batchH : list Z) start n :
  0 <= start -> n <= Z.of_nat (length batchH) ->
  (forall i, start <= i < n ->
     exists v, readZ nbrH i = Some v /\ (v = YES <-> P i)) ->
  let nb := filter P (seqZ start (n - start)) in
  exists batchH',
    for_range start n
      (fun i '(batchH, batchSize) =>
         nbr ← readZ nbrH i;
         if (nbr =? YES)%Z then
           batchH ← writeZ batchH batchSize i;
           Some (batchH, batchSize + 1)%Z
         else Some (batchH, batchSize))
      (batchH, 0%Z)
    = Some (batchH', Z.of_nat (length nb))
    /\ length batchH' = length batchH
    /\ take (length nb) batchH' = nb
    /\ drop (length nb) batchH' = drop (length nb) batchH.
Proof.
  intros Hs Hn Hflags nb.
  destruct (Z_lt_ge_dec n start) as [Hlt|Hge].
  { subst nb. rewrite for_range_empty by lia. rewrite seqZ_nil by lia.
    exists batchH. by rewrite filter_nil. }
  match goal with |- context [for_range start n ?f _] => set (body := f) end.
  destruct (for_range_invariant
    (fun i '(b, sz) =>
       let l := filter P (seqZ start (i - start)) in
       sz = Z.of_nat (length l) /\ length b = length batchH
       /\ take (length l) b = l /\ drop (length l) b = drop (length l) batchH)
    start n body (batchH, 0)) as ([b sz] & E & Hsz & L & T & D); [lia| |..].
  3:{ rewrite E. subst nb. rewrite Hsz. exists b. done. }
  - rewrite Z.sub_diag. change (seqZ start 0) with (@nil Z).
    rewrite filter_nil. simpl. rewrite take_0, !drop_0. done.
  - intros i [b sz] Hi (Hsz & L & T & D).
    destruct (Hflags i Hi) as (v & Hv & Hiff). unfold body. rewrite Hv. simpl.
    replace (i + 1 - start) with ((i - start) + 1) by lia.
    rewrite seqZ_app by lia. rewrite filter_app.
    replace (start + (i - start)) with i by lia.
    rewrite (seqZ_cons i 1) by lia. rewrite (seqZ_nil (Z.succ i)) by lia.
    set (l := filter P (seqZ start (i - start))) in *.
    assert (Hl : (length l <= Z.to_nat (i - start))%nat).
    { unfold l. etrans; [apply length_filter|]. by rewrite length_seqZ. }
    destruct (Z.eqb_spec v YES) as [Heq|Hne].
    + rewrite filter_cons_True by (by apply Hiff). rewrite filter_nil.
      unfold writeZ. rewrite decide_True by lia. simpl.
      eexists. split; [done|]. rewrite length_app. simpl.
      split; [lia|]. rewrite length_insert. split; [done|].
      rewrite Hsz, Nat2Z.id.
      assert (Hb : exists w, b !! length l = Some w).
      { apply lookup_lt_is_Some_2. lia. }
      destruct Hb as [w Hw].
      split.
      * replace (length l + 1)%nat with (Datatypes.S (length l)) by lia.
        rewrite (take_S_r _ _ i) by (apply list_lookup_insert_eq; lia).
        rewrite take_insert_ge by lia. by rewrite T.
      * rewrite drop_insert_lt by lia.
        rewrite <- !drop_drop. rewrite D. done.
    + rewrite filter_cons_False by (intros HP; apply Hne; by apply Hiff).
      rewrite filter_nil, app_nil_r. eexists. split; [done|]. done.
Qed.


Context {ext : Externals Bond Angle Dihedral Hop}.


End Batch.

(** ** The pairwise kernel *)

Section Kernel.
Context {ops : RealOps} {Bond Angle Dihedral Hop : Type}.
Local Abbreviation Molecule := (Molecule Bond Angle Dihedral Hop).



Lemma calcInterAtomicEnergy_thread fuel (mols : list Molecule) currentMol
    (env : Environment) n molBatch M (e f : list Real) idx v :
  0 <= idx < n -> Z.of_nat (length f) = n ->
  readZ f idx = readZ e idx ->
  cell_result fuel mols currentMol env molBatch M e idx = Some v ->
  exists f',
    calcInterAtomicEnergy fuel mols currentMol env n molBatch M 0 0 idx f = Some f'
    /\ length f' = length f
    /\ readZ f' idx = Some v
    /\ forall j, j <> idx -> readZ f' j = readZ f j.
Proof.
  intros Hidx Hlen Hsame. unfold cell_result, calcInterAtomicEnergy.
  change (0 * 0 + idx) with idx.
  rewrite (proj2 (Z.ltb_lt idx n)) by lia. rewrite <- Hsame.
  assert (Hkeep : forall v, readZ f idx = Some v ->
    exists f', Some f = Some f' /\ length f' = length f /\ readZ f' idx = Some v
               /\ forall j, j <> idx -> readZ f' j = readZ f j) by eauto.
  destruct (divZ idx (M * M)) as [slot|]; simpl; [|done].
  destruct (readZ molBatch slot) as [other|]; simpl; [|done].
  destruct (negb (other =? -1)); [|by apply Hkeep].
  destruct (readZ mols currentMol) as [mol1|]; simpl; [|done].
  destruct (readZ mols other) as [mol2|]; simpl; [|done].
  destruct (remZ idx (M * M)) as [cell|]; simpl; [|done].
  destruct (divZ cell M) as [x|]; simpl; [|done].
  destruct (remZ cell M) as [y|]; simpl; [|done].
  destruct (_ && _); [|by apply Hkeep].
  destruct (readZ (atoms mol1) x) as [atom1|]; simpl; [|done].
  destruct (readZ (atoms mol2) y) as [atom2|]; simpl; [|done].
  destruct (_ && _); [|by apply Hkeep].
  destruct (calcR2 fuel atom1 atom2 env) as [r2|]; simpl; [|done].
  intros [= <-]. unfold writeZ. rewrite decide_True by lia.
  eexists. split; [done|]. rewrite length_insert. split; [done|]. split.
  - apply readZ_Some. split; [lia|]. apply list_lookup_insert_eq. lia.
  - intros j Hj. unfold readZ. case_decide; [|done].
    apply list_lookup_insert_ne. lia.
Qed.

Lemma calcInterAtomicEnergy_idle fuel (mols : list Molecule) currentMol
    (env : Environment) n molBatch M (f : list Real) idx :
  n <= idx ->
  calcInterAtomicEnergy fuel mols currentMol env n molBatch M 0 0 idx f = Some f.
Proof.
  intros H. unfold calcInterAtomicEnergy. change (0 * 0 + idx) with idx.
  by rewrite (proj2 (Z.ltb_ge idx n)) by lia.
Qed.

Context {consts : Constants}.

Lemma calcInterAtomicEnergy_launch fuel (mols : list Molecule) currentMol
    (env : Environment) n molBatch M (e : list Real) :
  1 <= BATCH_BLOCK -> Z.of_nat (length e) = n ->
  (forall idx, 0 <= idx < n ->
     is_Some (cell_result fuel mols currentMol env molBatch M e idx)) ->
  exists e',
    launch (n ÷ BATCH_BLOCK + 1) BATCH_BLOCK
      (calcInterAtomicEnergy fuel mols currentMol env n molBatch M) e = Some e'
    /\ length e' = length e
    /\ forall idx, 0 <= idx < n ->
         readZ e' idx = cell_result fuel mols currentMol env molBatch M e idx.
Proof.
  intros HB Hlen Hdef.
  rewrite (launch_flat _ _ _
             (calcInterAtomicEnergy fuel mols currentMol env n molBatch M 0 0))
    by (done || lia).
  assert (Hcov : n <= (n ÷ BATCH_BLOCK + 1) * BATCH_BLOCK).
  { rewrite Z.quot_div_nonneg by lia.
    assert (0 < BATCH_BLOCK) as HB' by lia.
    pose proof (Z.mul_succ_div_gt n BATCH_BLOCK HB'). nia. }
  destruct (for_range_invariant
    (fun t f => length f = length e
       /\ forall idx, 0 <= idx < n ->
            readZ f idx = if decide (idx < t)
                          then cell_result fuel mols currentMol env molBatch M e idx
                          else readZ e idx)
    0 ((n ÷ BATCH_BLOCK + 1) * BATCH_BLOCK)
    (calcInterAtomicEnergy fuel mols currentMol env n molBatch M 0 0) e)
    as (f & E & L & Hf).
  - lia.
  - split; [done|]. intros idx Hidx. by rewrite decide_False by lia.
  - intros t f Ht (L & Hf).
    destruct (decide (t < n)) as [Hlt|Hge].
    + destruct (Hdef t ltac:(lia)) as [v Hv].
      destruct (calcInterAtomicEnergy_thread fuel mols currentMol env n molBatch
                  M e f t v) as (f' & E' & L' & Ht' & Ho); [lia|lia| |done|].
      { rewrite Hf by lia. by rewrite decide_False by lia. }
      exists f'. split; [done|]. split; [lia|]. intros idx Hidx.
      destruct (decide (idx = t)) as [->|Hne].
      * rewrite decide_True by lia. by rewrite Ht'.
      * rewrite Ho, Hf by done.
        destruct (decide (idx < t)), (decide (idx < t + 1)); try done; lia.
    + rewrite calcInterAtomicEnergy_idle by lia.
      exists f. split; [done|]. split; [done|]. intros idx Hidx.
      rewrite Hf by done.
      destruct (decide (idx < t)), (decide (idx < t + 1)); try done; lia.
  - exists f. split; [done|]. split; [done|]. intros idx Hidx.
    rewrite Hf by done. by rewrite decide_True by lia.
Qed.

End Kernel.

(** ** The pairwise kernel, in exact arithmetic *)

Lemma finite_uniform {X : Type} (P : nat -> X -> Prop) (l : list X) :
  (forall x, exists n, forall m, (n <= m)%nat -> P m x) ->
  exists N, forall m, (N <= m)%nat -> forall x, x ∈ l -> P m x.
Proof.
  intros H. induction l as [|x l [N IH]].
  - exists 0%nat. intros m _ x Hx. by apply elem_of_nil in Hx.
  - destruct (H x) as [n Hn]. exists (Nat.max n N). intros m Hm y Hy.
    apply elem_of_cons in Hy as [->|Hy]; [apply Hn|apply IH]; (lia || done).
Qed.

Section ExactKernel.
Context {Bond Angle Dihedral Hop : Type}.
Local Existing Instance R_ops.
Local Abbreviation Molecule := (Molecule Bond Angle Dihedral Hop).
Local Open Scope R_scope.

Lemma calcR2_defined (atom1 atom2 : Atom) (env : Environment) :
  0 < env_x env -> 0 < env_y env -> 0 < env_z env ->
  exists n, forall fuel, (n <= fuel)%nat ->
    exists r2, calcR2 fuel atom1 atom2 env = Some r2 /\ 0 <= r2.
Proof.
  intros Hx Hy Hz.
  destruct (makePeriodic_terminates (ax atom1 - ax atom2) _ Hx) as [n1 H1].
  destruct (makePeriodic_terminates (ay atom1 - ay atom2) _ Hy) as [n2 H2].
  destruct (makePeriodic_terminates (az atom1 - az atom2) _ Hz) as [n3 H3].
  exists (Nat.max n1 (Nat.max n2 n3)). intros fuel Hf.
  destruct (H1 fuel ltac:(lia)) as (dx & E1).
  destruct (H2 fuel ltac:(lia)) as (dy & E2).
  destruct (H3 fuel ltac:(lia)) as (dz & E3).
  unfold calcR2. simpl in *. rewrite E1. simpl. rewrite E2. simpl. rewrite E3. simpl.
  eexists. split; [done|]. nra.
Qed.

Lemma calcR2_uniform (l : list (Atom)) (env : Environment) :
  0 < env_x env -> 0 < env_y env -> 0 < env_z env ->
  exists N, forall fuel, (N <= fuel)%nat ->
    forall atom1, atom1 ∈ l -> forall atom2, atom2 ∈ l ->
      exists r2, calcR2 fuel atom1 atom2 env = Some r2 /\ 0 <= r2.
Proof.
  intros Hx Hy Hz.
  apply (finite_uniform
    (fun fuel atom1 => forall atom2, atom2 ∈ l ->
       exists r2, calcR2 fuel atom1 atom2 env = Some r2 /\ 0 <= r2)).
  intros atom1.
  apply (finite_uniform
    (fun fuel atom2 => exists r2, calcR2 fuel atom1 atom2 env = Some r2 /\ 0 <= r2)).
  intros atom2. by apply calcR2_defined.
Qed.

Lemma Q2R_4 : Q2R 4 = 4.
Proof. unfold Q2R. simpl. lra. Qed.

Lemma Q2R_coulomb : Q2R 332.06 = 33206 / 100.
Proof. unfold Q2R. simpl. lra. Qed.

(** The pair energy, in the notation of the specification. *)
Lemma pair_energy_formula (atom1 atom2 : Atom) (r2 : R) :
  0 < r2 ->
  let t := (R_sqrt.sqrt (sigma atom1 * sigma atom2)) ^ 2 / r2 in
  pair_energy atom1 atom2 r2
  = 4 * R_sqrt.sqrt (epsilon atom1 * epsilon atom2) * (t ^ 6 - t ^ 3)
    + charge atom1 * charge atom2 * (33206 / 100) / R_sqrt.sqrt r2.
Proof.
  intros Hr t. unfold pair_energy, calc_lj, calcCharge, calcBlending. simpl.
  rewrite Q2R_zero, Q2R_4, Q2R_coulomb.
  rewrite (proj2 (Reqb_false _ _)) by lra.
  pose proof (sqrt_lt_R0 r2 Hr).
  rewrite (proj2 (Reqb_false _ _)) by lra.
  subst t. field. lra.
Qed.

Lemma pair_energy_coincident (atom1 atom2 : Atom) :
  pair_energy atom1 atom2 0 = 0.
Proof.
  unfold pair_energy, calc_lj, calcCharge. simpl. rewrite Q2R_zero, sqrt_0.
  rewrite !(proj2 (Reqb_true _ _)) by done. lra.
Qed.


Local Open Scope Z_scope.

(** Cell [(b, x, y)] of the work grid has index
    [b * maxMolSize^2 + x * maxMolSize + y], and the kernel decodes it back. *)
Lemma decode_cell M b x y :
  0 < M -> 0 <= b -> 0 <= x < M -> 0 <= y < M ->
  divZ (b * (M * M) + x * M + y) (M * M) = Some b
  /\ remZ (b * (M * M) + x * M + y) (M * M) = Some (x * M + y)
  /\ divZ (x * M + y) M = Some x
  /\ remZ (x * M + y) M = Some y.
Proof.
  intros HM Hb Hx Hy. unfold divZ, remZ.
  rewrite !decide_False by nia.
  assert (0 <= x * M + y < M * M) by nia.
  rewrite !Z.quot_div_nonneg, !Z.rem_mod_nonneg by nia.
  replace (b * (M * M) + x * M + y) with (x * M + y + b * (M * M)) by ring.
  rewrite Z.div_add, Z.mod_add by nia.
  rewrite (Z.div_small (x * M + y) (M * M)), (Z.mod_small (x * M + y) (M * M)) by lia.
  rewrite (Z.add_comm (x * M) y), Z.div_add, Z.mod_add by lia.
  rewrite Z.div_small, Z.mod_small by lia.
  repeat split; f_equal; lia.
Qed.

Lemma divZ_nonzero a b : b <> 0 -> divZ a b = Some (a ÷ b).
Proof. intros H. unfold divZ. by rewrite decide_False. Qed.

Lemma remZ_nonzero a b : b <> 0 -> remZ a b = Some (Z.rem a b).
Proof. intros H. unfold remZ. by rewrite decide_False. Qed.

Lemma cell_result_defined fuel (mols : list Molecule) currentMol
    (env : Environment) molBatch M (e : list R) mol1 idx :
  0 < M -> 0 <= idx < Z.of_nat (length e) ->
  readZ mols currentMol = Some mol1 ->
  numOfAtoms mol1 <= Z.of_nat (length (atoms mol1)) ->
  (forall b, 0 <= b -> b * (M * M) < Z.of_nat (length e) ->
     exists other, readZ molBatch b = Some other
       /\ (other <> -1 -> exists mol2, readZ mols other = Some mol2
             /\ numOfAtoms mol2 <= Z.of_nat (length (atoms mol2)))) ->
  (forall atom1, atom1 ∈ mols ≫= atoms -> forall atom2, atom2 ∈ mols ≫= atoms ->
     exists r2, calcR2 fuel atom1 atom2 env = Some r2 /\ (0 <= r2)%R) ->
  is_Some (cell_result fuel mols currentMol env molBatch M e idx).
Proof.
  intros HM Hidx Hm1 Hf1 Hbatch Huni. unfold cell_result.
  assert (Hold : is_Some (readZ e idx)).
  { unfold readZ. rewrite decide_True by lia. apply lookup_lt_is_Some_2. lia. }
  rewrite (divZ_nonzero idx (M * M)) by nia. simpl.
  assert (Hslot : 0 <= idx ÷ (M * M) /\ idx ÷ (M * M) * (M * M) <= idx).
  { rewrite Z.quot_div_nonneg by nia. split; [apply Z.div_pos; nia|].
    rewrite Z.mul_comm. apply Z.mul_div_le. nia. }
  destruct (Hbatch (idx ÷ (M * M))) as (other & -> & Hother); [lia|lia|]. simpl.
  destruct (Z.eqb_spec other (-1)) as [|Hne]; simpl; [done|].
  destruct (Hother Hne) as (mol2 & Hm2 & Hf2). rewrite Hm1, Hm2. simpl.
  rewrite (remZ_nonzero idx (M * M)) by nia. simpl.
  rewrite divZ_nonzero by lia. simpl. rewrite remZ_nonzero by lia. simpl.
  assert (Hcell : 0 <= Z.rem idx (M * M)) by (apply Z.rem_nonneg; nia).
  set (cell := Z.rem idx (M * M)) in *.
  assert (Hx : 0 <= cell ÷ M) by (apply Z.quot_pos; lia).
  assert (Hy : 0 <= Z.rem cell M) by (apply Z.rem_nonneg; lia).
  destruct (Z.ltb_spec (cell ÷ M) (numOfAtoms mol1)); simpl; [|done].
  destruct (Z.ltb_spec (Z.rem cell M) (numOfAtoms mol2)); simpl; [|done].
  destruct (lookup_lt_is_Some_2 (atoms mol1) (Z.to_nat (cell ÷ M))) as [a1 Ha1]; [lia|].
  destruct (lookup_lt_is_Some_2 (atoms mol2) (Z.to_nat (Z.rem cell M))) as [a2 Ha2]; [lia|].
  rewrite (proj2 (readZ_Some _ _ _) (conj Hx Ha1)).
  rewrite (proj2 (readZ_Some _ _ _) (conj Hy Ha2)). simpl.
  destruct (_ && _); [|done].
  destruct (Huni a1) with (atom2 := a2) as (r2 & -> & _); [| |done].
  - apply list_elem_of_bind. exists mol1. split.
    + apply list_elem_of_lookup. eauto.
    + apply readZ_Some in Hm1 as [_ Hm1]. apply list_elem_of_lookup. eauto.
  - apply list_elem_of_bind. exists mol2. split.
    + apply list_elem_of_lookup. eauto.
    + apply readZ_Some in Hm2 as [_ Hm2]. apply list_elem_of_lookup. eauto.
Qed.


Context {consts : Constants (ops:=R_ops)}.

Local Arguments pair_energy : simpl never.
Local Arguments calcR2 : simpl never.


End ExactKernel.

(** ** The order of the threads of a launch *)


Lemma commute_refl {S : Type} (f : S -> option S) : commute f f.
Proof. done. Qed.

Lemma commute_sym {S : Type} (f g : S -> option S) : commute f g -> commute g f.
Proof. intros H s. by rewrite H. Qed.

Lemma commute_seq_l {S : Type} (f g h : S -> option S) :
  commute f h -> commute g h -> commute (fun s => f s ≫= g) h.
Proof.
  intros Hf Hg s. simpl.
  destruct (f s) as [s1|] eqn:E1; simpl.
  - rewrite Hg. specialize (Hf s). rewrite E1 in Hf. simpl in Hf.
    destruct (h s) as [s2|]; simpl in *.
    + destruct (h s1) as [s3|]; simpl in *.
      * by rewrite <- Hf.
      * destruct (f s2); simpl in *; done.
    + by destruct (h s1).
  - specialize (Hf s). rewrite E1 in Hf. simpl in Hf.
    destruct (h s) as [s2|]; simpl in *; [|done].
    destruct (f s2); simpl in *; done.
Qed.

Lemma iterM_Permutation {S : Type} (P : Z -> Prop)
    (body : Z -> S -> option S) l l' s :
  (forall i j, P i -> P j -> commute (body i) (body j)) ->
  Forall P l -> l ≡ₚ l' -> iterM body l s = iterM body l' s.
Proof.
  intros Hc HP Hp. revert s HP.
  induction Hp as [|x l l' _ IH|x y l|l1 l2 l3 Hp1 IH1 _ IH2];
    intros s HP; simpl.
  - done.
  - apply Forall_cons in HP as [_ HP].
    destruct (body x s); simpl; [by apply IH|done].
  - apply Forall_cons in HP as [Hy HP]. apply Forall_cons in HP as [Hx _].
    pose proof (Hc y x Hy Hx s) as H.
    destruct (body y s) as [s1|], (body x s) as [s2|]; simpl in *.
    + destruct (body x s1), (body y s2); simpl in *; congruence.
    + by destruct (body x s1).
    + by destruct (body y s2).
    + done.
  - rewrite IH1 by done. apply IH2. by rewrite <- Hp1.
Qed.

(** A launch whose threads commute gives the same result in whatever order
    the threads run. *)
Lemma launch_any_order {S : Type} gridDim blockDim
    (kernel : Z -> Z -> Z -> S -> option S) (body : Z -> S -> option S)
    (order : list Z) s :
  0 <= blockDim ->
  (forall b t s, kernel b blockDim t s = body (b * blockDim + t) s) ->
  (forall i j, 0 <= i -> 0 <= j -> commute (body i) (body j)) ->
  order ≡ₚ seqZ 0 (gridDim * blockDim) ->
  launch gridDim blockDim kernel s = iterM body order s.
Proof.
  intros Hd Hk Hc Hp. rewrite (launch_flat _ _ _ body) by done.
  unfold for_range. rewrite Z.sub_0_r.
  apply (iterM_Permutation (fun i => 0 <= i)); [done| |done].
  apply Forall_forall. intros i Hi. apply elem_of_seqZ in Hi. lia.
Qed.

Lemma writeZ_commute {A : Type} (e : list A) i j v w :
  i <> j ->
  writeZ e i v ≫= (fun e' => writeZ e' j w)
  = writeZ e j w ≫= (fun e' => writeZ e' i v).
Proof.
  intros Hne. unfold writeZ.
  destruct (decide (0 <= i < Z.of_nat (length e))) as [Hi|Hi],
           (decide (0 <= j < Z.of_nat (length e))) as [Hj|Hj]; simpl;
    rewrite ?length_insert.
  - rewrite !decide_True by done. f_equal. apply list_insert_insert_ne. lia.
  - by rewrite decide_False by done.
  - by rewrite decide_False by done.
  - done.
Qed.


Lemma own_cell_writers_commute {A : Type} (f g : list A -> option (list A)) i j :
  i <> j -> own_cell_writer f i -> own_cell_writer g j -> commute f g.
Proof.
  intros Hne [o Hf] [p Hg] e.
  rewrite (option_bind_ext g _ (f e) (f e) Hg eq_refl).
  rewrite (option_bind_ext f _ (g e) (g e) Hf eq_refl).
  rewrite Hf, Hg.
  destruct o as [[v|]|], p as [[w|]|]; simpl; try done.
  - by apply writeZ_commute.
  - by destruct (writeZ e i v).
  - by destruct (writeZ e i v).
  - by destruct (writeZ e j w).
  - by destruct (writeZ e j w).
Qed.


Lemma readZ_ext {A : Type} (e e' : list A) :
  length e = length e' -> (forall c, readZ e c = readZ e' c) -> e = e'.
Proof.
  intros Hl H. apply list_eq. intros k. by rewrite <- !readZ_nat.
Qed.

Lemma local_commute {A : Type} (f g : list A -> option (list A)) cs ds :
  local f cs -> local g ds -> (forall c, c ∈ cs -> c ∈ ds -> False) ->
  commute f g.
Proof.
  intros Lf Lg Hdis e.
  destruct (f e) as [r1|] eqn:Ef, (g e) as [r2|] eqn:Eg; simpl.
  - destruct (local_frame _ _ Lf e r1 Ef) as [Lr1 Fr1].
    destruct (local_frame _ _ Lg e r2 Eg) as [Lr2 Fr2].
    destruct (local_some _ _ Lg e r1 r2) as (r12 & E12 & H12); [|done|].
    { split; [done|]. intros c Hc. apply Fr1. intros Hc'. by eapply Hdis. }
    destruct (local_some _ _ Lf e r2 r1) as (r21 & E21 & H21); [|done|].
    { split; [done|]. intros c Hc. apply Fr2. intros Hc'. by eapply Hdis. }
    rewrite E12, E21. f_equal.
    destruct (local_frame _ _ Lg r1 r12 E12) as [L12 F12].
    destruct (local_frame _ _ Lf r2 r21 E21) as [L21 F21].
    apply readZ_ext; [congruence|]. intros c.
    destruct (decide (c ∈ cs)) as [Hc|Hc].
    + rewrite H21 by done. apply F12. intros Hd. by eapply Hdis.
    + destruct (decide (c ∈ ds)) as [Hd|Hd].
      * rewrite H12 by done. symmetry. by apply F21.
      * rewrite F12, F21, Fr1, Fr2 by done. done.
  - destruct (local_frame _ _ Lf e r1 Ef) as [Lr1 Fr1].
    apply (local_none _ _ Lg e r1); [|done].
    split; [done|]. intros c Hc. apply Fr1. intros Hc'. by eapply Hdis.
  - destruct (local_frame _ _ Lg e r2 Eg) as [Lr2 Fr2].
    symmetry. apply (local_none _ _ Lf e r2); [|done].
    split; [done|]. intros c Hc. apply Fr2. intros Hc'. by eapply Hdis.
  - done.
Qed.

Lemma local_seq {A : Type} (f g : list A -> option (list A)) cs :
  local f cs -> local g cs -> local (fun e => f e ≫= g) cs.
Proof.
  intros Lf Lg. split.
  - intros e r H. destruct (f e) as [r1|] eqn:Ef; simpl in H; [|done].
    destruct (local_frame _ _ Lf e r1 Ef) as [L1 F1].
    destruct (local_frame _ _ Lg r1 r H) as [L2 F2].
    split; [congruence|]. intros c Hc. by rewrite F2, F1.
  - intros e e' Hag H. destruct (f e) as [r1|] eqn:Ef; simpl in H.
    + destruct (local_some _ _ Lf e e' r1 Hag Ef) as (r1' & Ef' & H1).
      rewrite Ef'. simpl.
      apply (local_none _ _ Lg r1 r1'); [|done].
      destruct (local_frame _ _ Lf e r1 Ef) as [L1 _].
      destruct (local_frame _ _ Lf e' r1' Ef') as [L1' _].
      destruct Hag as [Hl _]. split; [congruence|done].
    + by rewrite (local_none _ _ Lf e e' Hag Ef).
  - intros e e' r Hag H. destruct (f e) as [r1|] eqn:Ef; simpl in H; [|done].
    destruct (local_some _ _ Lf e e' r1 Hag Ef) as (r1' & Ef' & H1).
    rewrite Ef'. simpl.
    apply (local_some _ _ Lg r1 r1' r); [|done].
    destruct (local_frame _ _ Lf e r1 Ef) as [L1 _].
    destruct (local_frame _ _ Lf e' r1' Ef') as [L1' _].
    destruct Hag as [Hl _]. split; [congruence|done].
Qed.

Lemma local_weaken {A : Type} (f : list A -> option (list A)) cs ds :
  local f cs -> (forall c, c ∈ cs -> c ∈ ds) -> local f ds.
Proof.
  intros Lf Hsub. split.
  - intros e r H. destruct (local_frame _ _ Lf e r H) as [L F].
    split; [done|]. intros c Hc. apply F. intros Hc'. apply Hc. by apply Hsub.
  - intros e e' [Hl Hag] H. apply (local_none _ _ Lf e e'); [|done].
    split; [done|]. intros c Hc. apply Hag. by apply Hsub.
  - intros e e' r [Hl Hag] H.
    destruct (local_some _ _ Lf e e' r) as (r' & E' & H'); [|done|].
    { split; [done|]. intros c Hc. apply Hag. by apply Hsub. }
    exists r'. split; [done|]. intros c Hc.
    destruct (decide (c ∈ cs)) as [Hcs|Hcs]; [by apply H'|].
    destruct (local_frame _ _ Lf e r H) as [_ F].
    destruct (local_frame _ _ Lf e' r' E') as [_ F'].
    rewrite F, F' by done. by apply Hag.
Qed.

Lemma writeZ_read {A : Type} (e e' : list A) i v :
  writeZ e i v = Some e' ->
  length e' = length e
  /\ forall c, readZ e' c = if decide (c = i) then Some v else readZ e c.
Proof.
  intros H. apply writeZ_Some in H as [Hi ->]. rewrite length_insert.
  split; [done|]. intros c. unfold readZ.
  destruct (decide (c = i)) as [->|Hne].
  - rewrite decide_True by lia. apply list_lookup_insert_eq. lia.
  - case_decide; [|done]. apply list_lookup_insert_ne. lia.
Qed.

Lemma writeZ_same_length {A : Type} (e e' : list A) i v :
  length e' = length e -> writeZ e i v = None -> writeZ e' i v = None.
Proof.
  unfold writeZ. intros Hl. rewrite Hl. by case_decide.
Qed.

Section Schedules.
Context {ops : RealOps} {Bond Angle Dihedral Hop : Type}.
Context {consts : Constants}.
Local Abbreviation Molecule := (Molecule Bond Angle Dihedral Hop).

Local Ltac writer_step :=
  match goal with
  | |- own_cell_writer (fun _ => mbind _ ?x) _ =>
      destruct x; simpl; [|by exists None]
  | |- own_cell_writer (fun _ => if ?b then _ else _) _ =>
      destruct b; simpl; [|by exists (Some None)]
  end.

Lemma checkMoleculeDistances_writer fuel (mols : list Molecule) m start n
    (env : Environment) i :
  own_cell_writer (checkMoleculeDistances fuel mols m start n env 0 0 i) i.
Proof.
  unfold checkMoleculeDistances. change (0 * 0 + i) with i.
  repeat writer_step. by eexists (Some (Some _)).
Qed.

Lemma calcInterAtomicEnergy_writer fuel (mols : list Molecule) currentMol
    (env : Environment) n molBatch M i :
  own_cell_writer
    (calcInterAtomicEnergy fuel mols currentMol env n molBatch M 0 0 i) i.
Proof.
  unfold calcInterAtomicEnergy. change (0 * 0 + i) with i.
  repeat writer_step. by eexists (Some (Some _)).
Qed.

Lemma fold_step_local n idx k :
  0 < k -> local (fold_step (ops:=ops) n idx k) [idx; idx + k].
Proof.
  intros Hk.
  assert (Hin : forall c, c ∈ [idx; idx + k] <-> c = idx \/ c = idx + k).
  { intros c. rewrite !elem_of_cons, elem_of_nil. tauto. }
  split.
  - intros e r. unfold fold_step. destruct (_ <? _)%Z; [|by intros [= <-]].
    destruct (readZ e idx) as [a|]; simpl; [|done].
    destruct (readZ e (idx + k)) as [b|]; simpl; [|done].
    destruct (writeZ e idx _) as [e1|] eqn:E1; simpl; [|done].
    intros E2. apply writeZ_read in E1 as [L1 R1], E2 as [L2 R2].
    split; [congruence|]. intros c Hc. rewrite Hin in Hc.
    rewrite R2, R1, !decide_False by tauto. done.
  - intros e e' [Hl Hag]. unfold fold_step. destruct (_ <? _)%Z; [|done].
    rewrite !Hag by (apply Hin; tauto).
    destruct (readZ e idx) as [a|]; simpl; [|done].
    destruct (readZ e (idx + k)) as [b|]; simpl; [|done].
    destruct (writeZ e idx _) as [e1|] eqn:E1; simpl.
    + destruct (writeZ e' idx _) as [e1'|] eqn:E1'; simpl; [|done].
      apply writeZ_read in E1 as [L1 _], E1' as [L1' _].
      apply writeZ_same_length. congruence.
    + intros _. by rewrite (writeZ_same_length e e') by done.
  - intros e e' r [Hl Hag]. unfold fold_step. destruct (_ <? _)%Z.
    2:{ intros [= <-]. exists e'. split; [done|]. intros c Hc. by apply Hag. }
    rewrite !Hag by (apply Hin; tauto).
    destruct (readZ e idx) as [a|]; simpl; [|done].
    destruct (readZ e (idx + k)) as [b|]; simpl; [|done].
    destruct (writeZ e idx _) as [e1|] eqn:E1; simpl; [|done].
    intros E2.
    destruct (writeZ e' idx (radd a b)) as [e1'|] eqn:E1'; simpl.
    2:{ apply (writeZ_same_length e' e) in E1'; [congruence|done]. }
    destruct (writeZ e1' (idx + k) (rofZ 0)) as [r'|] eqn:E2'.
    2:{ apply writeZ_read in E1 as [L1 _], E1' as [L1' _].
        apply (writeZ_same_length e1' e1) in E2'; congruence. }
    exists r'. split; [done|]. intros c Hc.
    apply writeZ_read in E1 as [_ R1], E2 as [_ R2].
    apply writeZ_read in E1' as [_ R1'], E2' as [_ R2'].
    rewrite R2, R2', R1, R1'. apply Hin in Hc.
    destruct Hc as [-> | ->]; repeat case_decide; done || lia.
Qed.


Lemma local_ext {A : Type} (f g : list A -> option (list A)) cs :
  (forall e, f e = g e) -> local g cs -> local f cs.
Proof.
  intros E Lg. split.
  - intros e r. rewrite E. apply (local_frame _ _ Lg).
  - intros e e' Hag. rewrite !E. by apply (local_none _ _ Lg).
  - intros e e' r Hag. rewrite E. intros H.
    destruct (local_some _ _ Lg e e' r Hag H) as (r' & E' & H').
    exists r'. by rewrite E.
Qed.

Lemma aggregateEnergies_local n i t :
  0 < i -> local (aggregateEnergies (ops:=ops) n i 3 0 0 t) (lane_cells i t).
Proof.
  intros Hi.
  apply (local_ext _ (fun e => fold_step n (3 * i * t) (1 * i) e
                               ≫= fold_step n (3 * i * t) (2 * i))).
  { intros e. by rewrite aggregateEnergies_unfold. }
  apply local_seq.
  - apply (local_weaken _ _ _ (fold_step_local n _ (1 * i) ltac:(lia))).
    intros c. unfold lane_cells. rewrite !elem_of_cons, !elem_of_nil. tauto.
  - apply (local_weaken _ _ _ (fold_step_local n _ (2 * i) ltac:(lia))).
    intros c. unfold lane_cells. rewrite !elem_of_cons, !elem_of_nil. tauto.
Qed.

Lemma aggregateEnergies_commute n i t t' :
  0 < i -> 0 <= t -> 0 <= t' ->
  commute (aggregateEnergies (ops:=ops) n i 3 0 0 t)
          (aggregateEnergies (ops:=ops) n i 3 0 0 t').
Proof.
  intros Hi Ht Ht'. destruct (decide (t = t')) as [->|Hne]; [done|].
  apply (local_commute _ _ (lane_cells i t) (lane_cells i t'));
    [by apply aggregateEnergies_local..|].
  intros c. unfold lane_cells. rewrite !elem_of_cons, !elem_of_nil.
  intros Hc Hc'. nia.
Qed.

Lemma checkMoleculeDistances_commute fuel (mols : list Molecule) m start n
    (env : Environment) i j :
  commute (checkMoleculeDistances fuel mols m start n env 0 0 i)
          (checkMoleculeDistances fuel mols m start n env 0 0 j).
Proof.
  destruct (decide (i = j)) as [->|Hne]; [done|].
  by apply (own_cell_writers_commute _ _ i j);
    [|apply checkMoleculeDistances_writer..].
Qed.

Lemma calcInterAtomicEnergy_commute fuel (mols : list Molecule) currentMol
    (env : Environment) n molBatch M i j :
  commute (calcInterAtomicEnergy fuel mols currentMol env n molBatch M 0 0 i)
          (calcInterAtomicEnergy fuel mols currentMol env n molBatch M 0 0 j).
Proof.
  destruct (decide (i = j)) as [->|Hne]; [done|].
  by apply (own_cell_writers_commute _ _ i j);
    [|apply calcInterAtomicEnergy_writer..].
Qed.

(** The three launches give the same result in whatever order their threads
    run. *)

(** X23: a launch of [checkMoleculeDistances] gives the same flags in
    whatever order its threads run: running the thread body over any
    permutation of the thread indices of the grid gives what the launch in
    increasing order gives (and fails when it fails). *)
Theorem checkMoleculeDistances_any_order fuel (mols : list Molecule) m start n
    (env : Environment) grid block order flags :
  0 <= block -> order ≡ₚ seqZ 0 (grid * block) ->
  launch grid block (checkMoleculeDistances fuel mols m start n env) flags
  = iterM (checkMoleculeDistances fuel mols m start n env 0 0) order flags.
Proof.
  intros Hb Hp. apply launch_any_order; [done|done| |done].
  intros i j _ _. apply checkMoleculeDistances_commute.
Qed.

(** X24: a launch of [calcInterAtomicEnergy] gives the same energy buffer
    in whatever order its threads run: each thread stores in the cell of its
    own index only. *)
Theorem calcInterAtomicEnergy_any_order fuel (mols : list Molecule) currentMol
    (env : Environment) n molBatch M grid block order energies :
  0 <= block -> order ≡ₚ seqZ 0 (grid * block) ->
  launch grid block
    (calcInterAtomicEnergy fuel mols currentMol env n molBatch M) energies
  = iterM (calcInterAtomicEnergy fuel mols currentMol env n molBatch M 0 0)
      order energies.
Proof.
  intros Hb Hp. apply launch_any_order; [done|done| |done].
  intros i j _ _. apply calcInterAtomicEnergy_commute.
Qed.


End Schedules.

(** ** The acceptance test, in exact arithmetic *)

Section ExactAcceptance.
Context {Bond Angle Dihedral Hop : Type}.
Local Existing Instance R_ops.
Context {ext : Externals Bond Angle Dihedral Hop}.
Local Open Scope R_scope.

Lemma Q2R_one : Q2R 1 = 1.
Proof. unfold Q2R. simpl. lra. Qed.

(** C1, as amended: a move with [Enew < Eold] is accepted, and no draw is
    taken; a move with [Enew >= Eold] is accepted if and only if the uniform
    draw [u] of the step is at most [exp(-(Enew - Eold) / kT)]: a draw equal
    to the Boltzmann factor accepts. *)
Theorem acceptance_rule (kT newEnergyCont oldEnergyCont : R) (g : Rng) :
  (newEnergyCont < oldEnergyCont ->
     acceptMove kT newEnergyCont oldEnergyCont g = (true, g))
  /\ (oldEnergyCont <= newEnergyCont ->
      forall u g', randomFloat 0 1 g = (u, g') ->
        ((acceptMove kT newEnergyCont oldEnergyCont g).1 = true
         <-> u <= Rtrigo_def.exp (- (newEnergyCont - oldEnergyCont) / kT))
        /\ (acceptMove kT newEnergyCont oldEnergyCont g).2 = g').
Proof.
  unfold acceptMove. simpl. rewrite Q2R_zero, Q2R_one. split.
  - intros H. by rewrite (proj2 (Rltb_true _ _)).
  - intros H u g' Hu. rewrite (proj2 (Rltb_false _ _)) by done. rewrite Hu.
    destruct (Rleb u _) eqn:E; simpl.
    + apply Rleb_true in E. done.
    + apply Rleb_false in E. split; [|done]. split; [done|lra].
Qed.

End ExactAcceptance.

(** C1, as stated, fails when the draw equals the Boltzmann factor: with
    [kT = 1], [Eold = 0], [Enew = ln 2] and the draw [1/2] the code accepts,
    while [1/2 < exp(-ln 2)] does not hold. *)
Lemma acceptance_strict_fails :
  ~ (forall (kT newEnergyCont oldEnergyCont : R) (g : list R) (u : R) (g' : list R),
       (oldEnergyCont <= newEnergyCont)%R ->
       randomFloat (Externals := demo_ext (ops:=R_ops)) 0%R 1%R g = (u, g') ->
       ((acceptMove (ops:=R_ops) (ext:=demo_ext) kT newEnergyCont oldEnergyCont g).1 = true
        <-> (u < Rtrigo_def.exp (- (newEnergyCont - oldEnergyCont) / kT))%R)).
Proof.
  intros H.
  assert (Hln : (0 < ln 2)%R).
  { rewrite <- ln_1. apply ln_increasing; lra. }
  assert (Hexp : Rtrigo_def.exp (- (ln 2 - 0) / 1) = (/ 2)%R).
  { replace (- (ln 2 - 0) / 1)%R with (- ln 2)%R by lra.
    rewrite exp_Ropp, exp_ln by lra. done. }
  assert (Hdraw : randomFloat (Externals := demo_ext (ops:=R_ops)) 0%R 1%R
                    [(/ 2)%R] = ((/ 2)%R, [])).
  { simpl. f_equal. lra. }
  assert (Hacc : (acceptMove (ops:=R_ops) (ext:=demo_ext) 1%R (ln 2) 0%R
                    [(/ 2)%R]).1 = true).
  { unfold acceptMove. cbn [rltb rlit rexp rsub ropp rdiv rleb R_ops].
    rewrite Q2R_zero, Q2R_one, Hdraw.
    rewrite (proj2 (Rltb_false _ _)) by lra.
    rewrite Hexp. rewrite (proj2 (Rleb_true _ _)) by lra. done. }
  apply (H 1%R (ln 2) 0%R [(/ 2)%R] (/ 2)%R [] ltac:(lra) Hdraw) in Hacc.
  rewrite Hexp in Hacc. lra.
Qed.

(** ** The Metropolis driver *)

Section Driver.
Context {ops : RealOps} {Bond Angle Dihedral Hop : Type}.
Context `{!Inhabited Bond, !Inhabited Angle, !Inhabited Dihedral,
          !Inhabited Hop}.
Context {consts : Constants} {ext : Externals Bond Angle Dihedral Hop}.


Lemma same_but_buffers_refl s : same_but_buffers s s.
Proof. by repeat split. Qed.

Lemma same_but_buffers_trans s1 s2 s3 :
  same_but_buffers s1 s2 -> same_but_buffers s2 s3 -> same_but_buffers s1 s3.
Proof. unfold same_but_buffers. intros H1 H2. destruct_and!. repeat split; congruence. Qed.

Lemma createMolBatch_frame fuel m start s n s' :
  createMolBatch fuel m start s = Some (n, s') -> same_but_buffers s s'.
Proof.
  unfold createMolBatch. intros H. simplify_option_eq.
  repeat case_match; simplify_option_eq. by repeat split.
Qed.

Lemma getEnergyFromDevice_frame s e s' :
  getEnergyFromDevice s = Some (e, s') -> same_but_buffers s s'.
Proof.
  unfold getEnergyFromDevice. intros H.
  destruct (while _ _ _ _) as [[[i bs] en]|]; simpl in H; [|done].
  destruct (readZ en 0) as [t|]; simpl in H; [|done].
  destruct (writeZ en 0 _) as [en'|]; simpl in H; [|done].
  injection H as <- <-. by repeat split.
Qed.

Lemma calcBatchEnergy_frame fuel numMols molIdx s e s' :
  calcBatchEnergy fuel numMols molIdx s = Some (e, s') -> same_but_buffers s s'.
Proof.
  unfold calcBatchEnergy. intros H. case_match; simplify_option_eq.
  - apply getEnergyFromDevice_frame in H. destruct H as (?&?&?&?&?&?&?&?&?&?&?&?&?).
    by repeat split.
  - apply same_but_buffers_refl.
Qed.

Lemma calcMolecularEnergyContribution_frame fuel molIdx startIdx s e s' :
  calcMolecularEnergyContribution fuel molIdx startIdx s = Some (e, s') ->
  same_but_buffers s s'.
Proof.
  unfold calcMolecularEnergyContribution. intros H.
  destruct (createMolBatch fuel molIdx startIdx s) as [[n s1]|] eqn:E1; [|done].
  simpl in H. eapply same_but_buffers_trans.
  - by eapply createMolBatch_frame.
  - by eapply calcBatchEnergy_frame.
Qed.


Lemma calcSystemEnergy_frame fuel s e s' :
  calcSystemEnergy fuel s = Some (e, s') ->
  same_but_buffers (log EvCalcSystemEnergy s) s'.
Proof.
  unfold calcSystemEnergy. intros H.
  apply (for_range_preserves
           (fun '(_, s1) => same_but_buffers (log EvCalcSystemEnergy s) s1))
    in H; [done| |apply same_but_buffers_refl].
  intros mol [tot s1] [tot' s2] _ Hs1 Hbody.
  destruct (calcMolecularEnergyContribution fuel mol mol s1) as [[e1 s3]|] eqn:E;
    simpl in Hbody; [|done].
  injection Hbody as <- <-.
  eapply same_but_buffers_trans; [done|].
  by eapply calcMolecularEnergyContribution_frame.
Qed.

(** What [proposeAndEvaluate] leaves of the driver's state: the chosen
    index, the log, the counters and the running total. *)
Lemma proposeAndEvaluate_frame fuel s changeIdx oldE newE s1 :
  proposeAndEvaluate fuel s = Some (changeIdx, oldE, newE, s1) ->
  changeIdx = (chooseMolecule (innerbox s) (rng s)).1
  /\ trace s1 = trace s ++ [EvStep changeIdx]
  /\ oldEnergy s1 = oldEnergy s
  /\ accepted s1 = accepted s /\ rejected s1 = rejected s.
Proof.
  unfold proposeAndEvaluate. intros H.
  destruct (chooseMolecule (innerbox s) (rng s)) as [idx g]. simpl.
  destruct (calcMolecularEnergyContribution fuel idx 0 _) as [[e1 s2]|] eqn:E1;
    simpl in H; [|done].
  destruct (changeMolecule idx (innerbox s2) (rng s2)) as [[b g2]|];
    simpl in H; [|done].
  destruct (writeChangeToDevice idx _) as [s3|] eqn:E3; simpl in H; [|done].
  destruct (calcMolecularEnergyContribution fuel idx 0 s3) as [[e2 s4]|] eqn:E4;
    simpl in H; [|done].
  injection H as <- <- <- <-.
  apply calcMolecularEnergyContribution_frame in E1, E4.
  destruct E1 as (?&?&?&?&?&?&?&?&?&?&?&?&?).
  destruct E4 as (?&?&?&?&?&?&?&?&?&?&?&?&?).
  unfold writeChangeToDevice in E3. simplify_option_eq.
  simpl in *. repeat split; congruence.
Qed.


Local Open Scope real_scope.

(** What a step does to the log and to the running total. *)
Lemma runStep_effect (fuel : nat) (kT : Real) (s s' : ParallelSim) :
  runStep fuel kT s = Some s' ->
  exists changeIdx oldEnergyCont newEnergyCont s1,
    proposeAndEvaluate fuel s = Some (changeIdx, oldEnergyCont, newEnergyCont, s1)
    /\ (exists evs, trace s' = trace s ++ evs /\ Forall loop_event evs)
    /\ (oldEnergy s' = oldEnergy s
        \/ oldEnergy s' = oldEnergy s + (newEnergyCont - oldEnergyCont)).
Proof.
  unfold runStep. intros H.
  destruct (proposeAndEvaluate fuel s) as [[[[idx oldE] newE] s1]|] eqn:E;
    simpl in H; [|done].
  destruct (acceptMove kT newE oldE (rng s1)) as [accept g].
  exists idx, oldE, newE, s1. split; [done|].
  apply proposeAndEvaluate_frame in E as (_ & Ht & Ho & _ & _).
  unfold commitOrRollback in H. destruct accept.
  - injection H as <-. simpl. rewrite Ho, Ht. split; [|by right].
    eexists. split; [done|]. by repeat constructor.
  - simpl in H.
    destruct (Rollback idx (innerbox s1)) as [b|]; simpl in H; [|done].
    unfold writeChangeToDevice in H. simplify_option_eq. simpl.
    rewrite Ht, <- app_assoc, Ho. split; [|by left].
    eexists. split; [done|]. by repeat constructor.
Qed.

(** C9: in every Metropolis step that is accepted the running total
    [oldEnergy] grows by exactly [newEnergyCont - oldEnergyCont], [accepted]
    is incremented and [rejected] is not, and the moved molecule stays; in
    every step that is rejected [Rollback] is called on the chosen molecule,
    [rejected] is incremented and [accepted] is not, and [oldEnergy] is
    unchanged. *)
Theorem step_commit_or_rollback (fuel : nat) (kT : Real) (s s' : ParallelSim) :
  runStep fuel kT s = Some s' ->
  exists changeIdx oldEnergyCont newEnergyCont s1 accept g,
    proposeAndEvaluate fuel s = Some (changeIdx, oldEnergyCont, newEnergyCont, s1)
    /\ acceptMove kT newEnergyCont oldEnergyCont (rng s1) = (accept, g)
    /\ if accept then
         oldEnergy s' = oldEnergy s + (newEnergyCont - oldEnergyCont)
         /\ accepted s' = (accepted s + 1)%Z /\ rejected s' = rejected s
         /\ innerbox s' = innerbox s1
         /\ trace s' = trace s ++ [EvStep changeIdx]
       else
         oldEnergy s' = oldEnergy s
         /\ accepted s' = accepted s /\ rejected s' = (rejected s + 1)%Z
         /\ Rollback changeIdx (innerbox s1) = Some (innerbox s')
         /\ trace s' = trace s ++ [EvStep changeIdx; EvRollback changeIdx].
Proof.
  unfold runStep. intros H.
  destruct (proposeAndEvaluate fuel s) as [[[[idx oldE] newE] s1]|] eqn:E;
    simpl in H; [|done].
  destruct (acceptMove kT newE oldE (rng s1)) as [accept g] eqn:EA.
  exists idx, oldE, newE, s1, accept, g. split; [done|]. split; [done|].
  apply proposeAndEvaluate_frame in E as (_ & Ht & Ho & Ha & Hr).
  unfold commitOrRollback in H. destruct accept.
  - injection H as <-. simpl. rewrite Ho, Ha, Hr, Ht. done.
  - simpl in H.
    destruct (Rollback idx (innerbox s1)) as [b|] eqn:ER; simpl in H; [|done].
    unfold writeChangeToDevice in H. simplify_option_eq. simpl.
    rewrite Ht, <- app_assoc, Hr. done.
Qed.





(** C2: in a run of [runParallel], [calcSystemEnergy] is called once if the
    running total [oldEnergy] is [0] at the start ("not yet known") and not
    at all otherwise; the call precedes every step, and the step loop
    contains no call of it: after the initial phase the log grows by step
    and rollback events only.  A step of the loop leaves the running total
    as it is or adds to it the difference of the two contributions of the
    moved molecule that the step has computed. *)
Theorem system_energy_at_most_once (fuel : nat) (steps : Z) (s s' : ParallelSim) :
  runParallel fuel steps s = Some s' ->
  (exists loop_events,
     trace s' = trace s
                ++ (if oldEnergy s =? rofZ 0 then [EvCalcSystemEnergy] else [])
                ++ loop_events
     /\ Forall loop_event loop_events)
  /\ (forall kT s1 s2, runStep fuel kT s1 = Some s2 ->
        exists changeIdx oldEnergyCont newEnergyCont s1',
          proposeAndEvaluate fuel s1
            = Some (changeIdx, oldEnergyCont, newEnergyCont, s1')
          /\ (oldEnergy s2 = oldEnergy s1
              \/ oldEnergy s2
                 = oldEnergy s1 + (newEnergyCont - oldEnergyCont))).
Proof.
  unfold runParallel. intros H. split.
  2:{ intros kT s1 s2 Hstep.
      apply runStep_effect in Hstep as (idx & oldE & newE & s1' & Hp & _ & Hc).
      exists idx, oldE, newE, s1'. done. }
  destruct (initialEnergy fuel s) as [s0|] eqn:E0; simpl in H; [|done].
  destruct (for_range 0 steps _ s0) as [s1|] eqn:E1; simpl in H; [|done].
  injection H as <-. simpl.
  assert (H0 : trace s0 = trace s
                 ++ (if oldEnergy s =? rofZ 0 then [EvCalcSystemEnergy] else [])).
  { unfold initialEnergy in E0. destruct (oldEnergy s =? rofZ 0).
    - destruct (calcSystemEnergy fuel s) as [[e s2]|] eqn:E; simpl in E0; [|done].
      injection E0 as <-. simpl.
      apply calcSystemEnergy_frame in E. unfold same_but_buffers in E.
      destruct_and!. simpl in *. done.
    - injection E0 as <-. by rewrite app_nil_r. }
  apply (for_range_preserves
           (fun s1 => exists evs, trace s1 = trace s0 ++ evs /\ Forall loop_event evs))
    in E1.
  - destruct E1 as (evs & -> & Hevs). exists evs. rewrite H0, <- app_assoc. done.
  - intros i s2 s3 _ (evs & Hs2 & Hevs) Hstep.
    apply runStep_effect in Hstep as (_ & _ & _ & _ & _ & (evs' & -> & Hevs') & _).
    exists (evs ++ evs'). rewrite Hs2, <- app_assoc. split; [done|].
    by apply Forall_app.
  - exists []. by rewrite app_nil_r.
Qed.

End Driver.


(** ** More on the periodic geometry *)

Lemma while_exit {S : Type} (c : S -> bool) (b : S -> option S) fuel s s' :
  while fuel c b s = Some s' -> c s' = false.
Proof.
  revert s. induction fuel as [|fuel IH]; intros s; simpl; [done|].
  destruct (c s) eqn:E.
  - destruct (b s) as [s1|]; simpl; [apply IH|done].
  - by intros [= <-].
Qed.

Lemma while_invariant {S : Type} (P : S -> Prop) (c : S -> bool)
    (b : S -> option S) fuel s s' :
  (forall s s', P s -> c s = true -> b s = Some s' -> P s') ->
  P s -> while fuel c b s = Some s' -> P s'.
Proof.
  intros Hstep. revert s. induction fuel as [|fuel IH]; intros s Hs; simpl; [done|].
  destruct (c s) eqn:E.
  - destruct (b s) as [s1|] eqn:Eb; simpl; [|done].
    apply IH. by eapply Hstep.
  - by intros [= <-].
Qed.

Lemma while_done {S : Type} (c : S -> bool) (b : S -> option S) fuel s :
  c s = false -> while (Datatypes.S fuel) c b s = Some s.
Proof. intros H. simpl. by rewrite H. Qed.

Section MoreExactGeometry.
Local Existing Instance R_ops.
Local Open Scope R_scope.

Lemma below_true (x L : R) : Rltb x ((- Q2R 0.5) * L) = true <-> x < - L / 2.
Proof. rewrite Rltb_true, Q2R_half. lra. Qed.

Lemma below_false (x L : R) : Rltb x ((- Q2R 0.5) * L) = false <-> - L / 2 <= x.
Proof. rewrite Rltb_false, Q2R_half. lra. Qed.

Lemma above_true (x L : R) : Rltb (Q2R 0.5 * L) x = true <-> L / 2 < x.
Proof. rewrite Rltb_true, Q2R_half. lra. Qed.

Lemma above_false (x L : R) : Rltb (Q2R 0.5 * L) x = false <-> x <= L / 2.
Proof. rewrite Rltb_false, Q2R_half. lra. Qed.

(** Whenever [makePeriodic] returns, whatever the box length, the result is
    in the closed interval and differs from the argument by a multiple of the
    box length. *)
Lemma makePeriodic_returns (fuel : nat) (d L y : R) :
  makePeriodic (ops:=R_ops) fuel d L = Some y ->
  - L / 2 <= y <= L / 2 /\ exists k : Z, y = d + IZR k * L.
Proof.
  unfold makePeriodic. cbn [Real rltb rlit ropp rmul radd rsub R_ops]. intros H.
  destruct (while fuel _ _ d) as [y1|] eqn:E1;
    [|done].
  cbn [mbind option_bind] in H.
  pose proof (while_exit _ _ _ _ _ E1) as X1. apply below_false in X1.
  pose proof (while_exit _ _ _ _ _ H) as X2. apply above_false in X2.
  apply (while_invariant (fun x => exists k : Z, x = d + IZR k * L)) in E1.
  - apply (while_invariant
             (fun x => - L / 2 <= x /\ exists k : Z, x = d + IZR k * L)) in H.
    + destruct H as [Hlo Hk]. split; [lra|done].
    + intros x x' [Hx [k Hk]] Hc [= <-]. apply above_true in Hc. split; [lra|].
      exists (k - 1)%Z. rewrite minus_IZR. lra.
    + split; [lra|done].
  - intros x x' [k Hk] _ [= <-]. exists (k + 1)%Z. rewrite plus_IZR. lra.
  - exists 0%Z. lra.
Qed.

Lemma makePeriodic_in_range (fuel : nat) (d L : R) :
  - L / 2 <= d <= L / 2 ->
  makePeriodic (ops:=R_ops) (S fuel) d L = Some d.
Proof.
  intros H. unfold makePeriodic. cbn [Real rltb rlit ropp rmul radd rsub R_ops].
  rewrite while_done by (apply below_false; lra).
  cbn [mbind option_bind].
  apply while_done. apply above_false. lra.
Qed.

(** The raising loop on [x] mirrors the lowering loop on [- x]. *)
Lemma loops_mirror (L x : R) (fuel : nat) :
  while (S:=R) fuel (fun x => Rltb (Q2R 0.5 * L) x) (fun x => Some (x - L)) (- x)
  = Ropp <$>
    while (S:=R) fuel (fun x => Rltb x ((- Q2R 0.5) * L)) (fun x => Some (x + L)) x.
Proof.
  revert x. induction fuel as [|fuel IH]; intros x; [done|].
  cbn [while].
  assert (E : Rltb (Q2R 0.5 * L) (- x) = Rltb x (- Q2R 0.5 * L)).
  { destruct (Rltb x (- Q2R 0.5 * L)) eqn:E.
    - apply below_true in E. apply above_true. lra.
    - apply below_false in E. apply above_false. lra. }
  rewrite E. destruct (Rltb x (- Q2R 0.5 * L)); [|done].
  cbn [mbind option_bind].
  replace (- x - L) with (- (x + L)) by lra. apply IH.
Qed.

Lemma loops_mirror' (L x : R) (fuel : nat) :
  while (S:=R) fuel (fun x => Rltb x ((- Q2R 0.5) * L)) (fun x => Some (x + L)) (- x)
  = Ropp <$>
    while (S:=R) fuel (fun x => Rltb (Q2R 0.5 * L) x) (fun x => Some (x - L)) x.
Proof.
  pose proof (loops_mirror L (- x) fuel) as H. rewrite Ropp_involutive in H.
  rewrite H. destruct (while _ _ _ (- x)) as [y|]; simpl; [|done].
  by rewrite Ropp_involutive.
Qed.

(** [makePeriodic] is odd: the displacement from [b] to [a] is the opposite
    of the one from [a] to [b]. *)
Lemma makePeriodic_opp (fuel : nat) (d L y : R) :
  makePeriodic (ops:=R_ops) fuel d L = Some y ->
  makePeriodic (ops:=R_ops) fuel (- d) L = Some (- y).
Proof.
  intros H. pose proof (makePeriodic_returns _ _ _ _ H) as [Hy _].
  unfold makePeriodic in *. cbn [Real rltb rlit ropp rmul radd rsub R_ops] in *.
  destruct fuel as [|fuel]; [done|].
  destruct (while (S fuel) _ _ d) as [y1|] eqn:E1;
    [|done].
  cbn [mbind option_bind] in H.
  destruct (Rlt_le_dec d (- L / 2)) as [Hd|Hd].
  - (* the raising loop ran: it ends at or below [L/2] *)
    assert (Hy1 : y1 <= L / 2).
    { pose proof (while_exit _ _ _ _ _ E1) as X1. apply below_false in X1.
      apply (while_invariant (fun x => x <= L / 2 \/ x < - L / 2)) in E1.
      - lra.
      - intros x x' _ Hc [= <-]. apply below_true in Hc. left. lra.
      - by right. }
    rewrite while_done in H by (apply above_false; lra). injection H as <-.
    rewrite while_done by (apply below_false; lra).
    cbn [mbind option_bind]. rewrite loops_mirror, E1. done.
  - rewrite while_done in E1 by (by apply below_false). injection E1 as <-.
    rewrite loops_mirror', H. cbn [fmap option_fmap option_map mbind option_bind].
    apply while_done. apply above_false. lra.
Qed.


(** X1: a displacement that [makePeriodic] returns is a fixed point: the
    function applied to its own result returns it unchanged, whatever the
    box length. *)
Theorem makePeriodic_idempotent (fuel : nat) (d L y : R) :
  makePeriodic (ops:=R_ops) fuel d L = Some y ->
  makePeriodic (ops:=R_ops) fuel y L = Some y.
Proof.
  intros H. destruct fuel as [|fuel]; [done|].
  apply makePeriodic_in_range.
  by destruct (makePeriodic_returns _ _ _ _ H).
Qed.

Lemma makePeriodic_idempotent_witness :
  makePeriodic (ops:=R_ops) 3 (7 / 2) 2 = Some (- 1 / 2)
  /\ makePeriodic (ops:=R_ops) 3 (- 1 / 2) 2 = Some (- 1 / 2).
Proof.
  assert (H : makePeriodic (ops:=R_ops) 3 (7 / 2) 2 = Some (- 1 / 2)).
  { unfold makePeriodic. cbn [Real rltb rlit ropp rmul radd rsub R_ops].
    rewrite while_done by (apply below_false; lra).
    cbn [mbind option_bind while].
    rewrite (proj2 (above_true _ _)) by lra. cbn [mbind option_bind].
    rewrite (proj2 (above_true _ _)) by lra. cbn [mbind option_bind].
    rewrite (proj2 (above_false _ _)) by lra. f_equal. lra. }
  split; [exact H|].
  exact (makePeriodic_idempotent 3 (7 / 2) 2 (- 1 / 2) H).
Defined.

(** X2: with a box length that is not positive the loops of [makePeriodic]
    never end: for a negative length on every argument, for a zero length
    on every argument but [0]. *)
Theorem makePeriodic_nonpositive_box (d L : R) :
  L <= 0 -> (L = 0 -> d <> 0) ->
  forall fuel, makePeriodic (ops:=R_ops) fuel d L = None.
Proof.
  intros HL Hd fuel.
  destruct (makePeriodic (ops:=R_ops) fuel d L) as [y|] eqn:E; [|done].
  destruct (makePeriodic_returns _ _ _ _ E) as [Hy [k Hk]].
  assert (L = 0) as -> by lra.
  destruct Hd; [done|]. lra.
Qed.

Lemma makePeriodic_nonpositive_box_witness :
  makePeriodic (ops:=R_ops) 1000 1 (- 2) = None.
Proof. apply (makePeriodic_nonpositive_box 1 (- 2)); intros; lra. Defined.

(** X3: [makePeriodic] is odd, also where it does not return: the
    displacement of [- d] is the opposite of the displacement of [d]. *)
Theorem makePeriodic_odd (fuel : nat) (d L : R) :
  makePeriodic (ops:=R_ops) fuel (- d) L
  = Ropp <$> makePeriodic (ops:=R_ops) fuel d L.
Proof.
  destruct (makePeriodic (ops:=R_ops) fuel d L) as [y|] eqn:E.
  - by apply makePeriodic_opp.
  - destruct (makePeriodic (ops:=R_ops) fuel (- d) L) as [y'|] eqn:E'; [|done].
    apply makePeriodic_opp in E'. rewrite Ropp_involutive in E'. congruence.
Qed.

End MoreExactGeometry.

Section Symmetry.
Context {Bond Angle Dihedral Hop : Type}.
Local Existing Instance R_ops.
Local Open Scope R_scope.

Lemma calcR2_le (fuel : nat) (atom1 atom2 : Atom) (env : Environment) r2 :
  calcR2 fuel atom1 atom2 env = Some r2 ->
  calcR2 fuel atom2 atom1 env = Some r2.
Proof.
  unfold calcR2. cbn [Real radd rsub rmul R_ops]. intros H.
  destruct (makePeriodic fuel _ (env_x env)) as [dx|] eqn:Ex; [|done].
  destruct (makePeriodic fuel _ (env_y env)) as [dy|] eqn:Ey; [|done].
  destruct (makePeriodic fuel _ (env_z env)) as [dz|] eqn:Ez; [|done].
  cbn [mbind option_bind] in H. injection H as <-.
  apply makePeriodic_opp in Ex, Ey, Ez.
  replace (ax atom2 - ax atom1) with (- (ax atom1 - ax atom2)) by lra.
  replace (ay atom2 - ay atom1) with (- (ay atom1 - ay atom2)) by lra.
  replace (az atom2 - az atom1) with (- (az atom1 - az atom2)) by lra.
  rewrite Ex, Ey, Ez. cbn [mbind option_bind]. f_equal. lra.
Qed.

Lemma calcR2_sym (fuel : nat) (atom1 atom2 : Atom) (env : Environment) :
  calcR2 fuel atom1 atom2 env = calcR2 fuel atom2 atom1 env.
Proof.
  destruct (calcR2 fuel atom1 atom2 env) as [r|] eqn:E.
  - symmetry. by apply calcR2_le.
  - destruct (calcR2 fuel atom2 atom1 env) as [r|] eqn:E'; [|done].
    apply calcR2_le in E'. congruence.
Qed.

Lemma withinCutoff_sym (fuel : nat)
    (molecules : list (Molecule Bond Angle Dihedral Hop))
    (env : Environment) (m c : Z) :
  withinCutoff fuel molecules env m c = withinCutoff fuel molecules env c m.
Proof.
  unfold withinCutoff.
  destruct (readZ molecules m) as [mol1|], (readZ molecules c) as [mol2|];
    cbn [mbind option_bind]; try done;
    repeat match goal with
    | |- context [readZ (atoms ?x) ?i] =>
        destruct (readZ (atoms x) i); cbn [mbind option_bind]
    end; try done.
  by rewrite calcR2_sym.
Qed.

(** X4: the squared minimum-image distance does not depend on the order of
    the two atoms, and so neither does the cutoff test of
    [checkMoleculeDistances]: a molecule is within the cutoff of another
    exactly when the other is within the cutoff of it. *)
Theorem minimum_image_symmetric (fuel : nat)
    (molecules : list (Molecule Bond Angle Dihedral Hop))
    (atom1 atom2 : Atom) (env : Environment) (m c : Z) :
  calcR2 fuel atom1 atom2 env = calcR2 fuel atom2 atom1 env
  /\ withinCutoff fuel molecules env m c = withinCutoff fuel molecules env c m.
Proof.
  split.
  - apply calcR2_sym.
  - apply withinCutoff_sym.
Qed.

End Symmetry.

(** X5: in binary64, when the argument is below [-0.5 * box] and so large
    that adding the box length to it is absorbed by rounding, the first loop
    of [makePeriodic] never ends. *)
Theorem makePeriodic_binary64_absorbed (x box : float) :
  PrimFloat.ltb x (PrimFloat.mul (PrimFloat.opp (float_of_Q 0.5)) box) = true ->
  PrimFloat.add x box = x ->
  forall fuel, makePeriodic (ops:=F_ops) fuel x box = None.
Proof.
  intros Hlt Habs fuel. unfold makePeriodic.
  rewrite while_stuck; [done|exact Hlt|].
  cbn [radd F_ops]. by rewrite Habs.
Qed.

Lemma makePeriodic_binary64_absorbed_witness :
  makePeriodic (ops:=F_ops) 1000 (-1e17)%float 1%float = None.
Proof.
  apply (makePeriodic_binary64_absorbed (-1e17)%float 1%float); reflexivity.
Defined.

(** ** More on the pair potential *)

Section Exchange.
Context {ops : RealOps}.

(** X6: the Lennard-Jones and the Coulomb term do not depend on the order
    of the two atoms, in any arithmetic whose multiplication is
    commutative. *)
Theorem pair_energy_exchange (atom1 atom2 : Atom) (r2 : Real) :
  (forall a b : Real, rmul a b = rmul b a) ->
  calc_lj atom1 atom2 r2 = calc_lj atom2 atom1 r2
  /\ calcCharge (charge atom1) (charge atom2) (rsqrt r2)
     = calcCharge (charge atom2) (charge atom1) (rsqrt r2)
  /\ pair_energy atom1 atom2 r2 = pair_energy atom2 atom1 r2.
Proof.
  intros C.
  assert (L : calc_lj atom1 atom2 r2 = calc_lj atom2 atom1 r2).
  { unfold calc_lj, calcBlending.
    by rewrite (C (sigma atom1)), (C (epsilon atom1)). }
  assert (Q : calcCharge (charge atom1) (charge atom2) (rsqrt r2)
              = calcCharge (charge atom2) (charge atom1) (rsqrt r2)).
  { unfold calcCharge. by rewrite (C (charge atom1)). }
  split; [done|]. split; [done|]. unfold pair_energy. by rewrite L, Q.
Qed.

End Exchange.

Lemma pair_energy_exchange_witness :
  calc_lj (ops:=R_ops) (demo_atom 1 1 1 1 0.1 0.5) (demo_atom 3 1 1 2 0.2 0.25) 4%R
  = calc_lj (ops:=R_ops) (demo_atom 3 1 1 2 0.2 0.25) (demo_atom 1 1 1 1 0.1 0.5) 4%R.
Proof.
  exact (proj1 (pair_energy_exchange (ops:=R_ops)
                  (demo_atom 1 1 1 1 0.1 0.5) (demo_atom 3 1 1 2 0.2 0.25) 4%R
                  Rmult_comm)).
Defined.

Section ExactPotential.
Local Existing Instance R_ops.
Local Open Scope R_scope.

Lemma calc_lj_formula (atom1 atom2 : Atom) (r2 : R) :
  r2 <> 0 -> 0 <= sigma atom1 * sigma atom2 ->
  let t := (sigma atom1 * sigma atom2 / r2) ^ 3 in
  calc_lj atom1 atom2 r2
  = 4 * R_sqrt.sqrt (epsilon atom1 * epsilon atom2) * (t * t - t).
Proof.
  intros Hr Hs t. unfold calc_lj, calcBlending.
  cbn [Real rlit reqb rmul rdiv rsub rsqrt R_ops].
  rewrite Q2R_zero, Q2R_4. rewrite (proj2 (Reqb_false _ _)) by done.
  rewrite sqrt_sqrt by done. subst t. simpl. field. done.
Qed.

(** X7: the Lennard-Jones energy of two atoms with non-negative parameters
    is never below minus the blended well depth [sqrt (epsilon1 * epsilon2)],
    whatever the distance. *)
Theorem calc_lj_well_depth (atom1 atom2 : Atom) (r2 : R) :
  0 <= sigma atom1 -> 0 <= sigma atom2 ->
  0 <= epsilon atom1 -> 0 <= epsilon atom2 ->
  - calcBlending (epsilon atom1) (epsilon atom2) <= calc_lj atom1 atom2 r2.
Proof.
  intros Hs1 Hs2 He1 He2.
  assert (He : 0 <= R_sqrt.sqrt (epsilon atom1 * epsilon atom2))
    by apply sqrt_pos.
  destruct (Req_dec_T r2 0) as [->|Hr].
  - unfold calc_lj, calcBlending. cbn [Real rlit reqb rmul rsqrt R_ops].
    rewrite Q2R_zero, (proj2 (Reqb_true _ _)) by done. lra.
  - rewrite calc_lj_formula by (done || nra).
    unfold calcBlending. cbn [Real rmul rsqrt R_ops].
    set (t := (sigma atom1 * sigma atom2 / r2) ^ 3).
    set (e := R_sqrt.sqrt (epsilon atom1 * epsilon atom2)) in *.
    assert (Hsq : 0 <= e * ((2 * t - 1) * (2 * t - 1))).
    { apply Rmult_le_pos; [done|]. apply Rle_0_sqr. }
    replace (4 * e * (t * t - t)) with (e * ((2 * t - 1) * (2 * t - 1)) - e)
      by ring.
    lra.
Qed.

Lemma calc_lj_well_depth_witness :
  - calcBlending (Q2R 0.1) (Q2R 0.1)
  <= calc_lj (demo_atom 1 1 1 1 0.1 0.5) (demo_atom 3 1 1 1 0.1 0.25) 4.
Proof.
  assert (H0 : 0 <= Q2R 1) by (unfold Q2R; simpl; lra).
  assert (H1 : 0 <= Q2R 0.1) by (unfold Q2R; simpl; lra).
  exact (calc_lj_well_depth (demo_atom 1 1 1 1 0.1 0.5)
           (demo_atom 3 1 1 1 0.1 0.25) 4 H0 H0 H1 H1).
Defined.

(** X8: for atoms with positive parameters the Lennard-Jones energy is
    repulsive (positive) at squared distances below [sigma1 * sigma2], zero
    at that distance and attractive (negative) beyond it. *)
Theorem calc_lj_sign (atom1 atom2 : Atom) (r2 : R) :
  0 < sigma atom1 -> 0 < sigma atom2 ->
  0 < epsilon atom1 -> 0 < epsilon atom2 ->
  0 < r2 ->
  (r2 < sigma atom1 * sigma atom2 -> 0 < calc_lj atom1 atom2 r2)
  /\ (r2 = sigma atom1 * sigma atom2 -> calc_lj atom1 atom2 r2 = 0)
  /\ (sigma atom1 * sigma atom2 < r2 -> calc_lj atom1 atom2 r2 < 0).
Proof.
  intros Hs1 Hs2 He1 He2 Hr.
  assert (Hs : 0 < sigma atom1 * sigma atom2) by nra.
  assert (He : 0 < R_sqrt.sqrt (epsilon atom1 * epsilon atom2))
    by (apply sqrt_lt_R0; nra).
  rewrite calc_lj_formula by lra.
  set (e := R_sqrt.sqrt (epsilon atom1 * epsilon atom2)) in *.
  set (u := sigma atom1 * sigma atom2 / r2).
  assert (Hu : 0 < u) by (apply Rdiv_lt_0_compat; lra).
  assert (Hu3 : 0 < u ^ 3) by (apply pow_lt; lra).
  assert (Hcmp : (r2 < sigma atom1 * sigma atom2 -> 1 < u)
                 /\ (r2 = sigma atom1 * sigma atom2 -> u = 1)
                 /\ (sigma atom1 * sigma atom2 < r2 -> u < 1)).
  { unfold u. repeat split; intros H.
    - apply (Rmult_lt_reg_r r2); [lra|]. unfold Rdiv.
      rewrite Rmult_assoc, Rinv_l by lra. lra.
    - rewrite H. field. lra.
    - apply (Rmult_lt_reg_r r2); [lra|]. unfold Rdiv.
      rewrite Rmult_assoc, Rinv_l by lra. lra. }
  destruct Hcmp as (H1 & H2 & H3). repeat split; intros H.
  - specialize (H1 H). assert (1 < u ^ 3) by (simpl; nra).
    apply Rmult_lt_0_compat; [nra|nra].
  - rewrite (H2 H). simpl. lra.
  - specialize (H3 H). assert (u ^ 3 < 1) by (simpl; nra).
    assert (0 < 4 * e * (u ^ 3 * (1 - u ^ 3))).
    { apply Rmult_lt_0_compat; [lra|]. apply Rmult_lt_0_compat; lra. }
    lra.
Qed.

Lemma calc_lj_sign_witness :
  calc_lj (demo_atom 1 1 1 1 0.1 0.5) (demo_atom 3 1 1 1 0.1 0.25) 4 < 0.
Proof.
  assert (H0 : 0 < Q2R 1) by (unfold Q2R; simpl; lra).
  assert (H1 : 0 < Q2R 0.1) by (unfold Q2R; simpl; lra).
  assert (H4 : 0 < 4) by lra.
  refine (proj2 (proj2 (calc_lj_sign (demo_atom 1 1 1 1 0.1 0.5)
                          (demo_atom 3 1 1 1 0.1 0.25) 4 H0 H0 H1 H1 H4)) _).
  simpl. unfold Q2R. simpl. lra.
Defined.

(** X9: [calcBlending] of two non-negative parameters is their geometric
    mean: it lies between the two, and the blend of a parameter with itself
    is the parameter. *)
Theorem calcBlending_between (d1 d2 : R) :
  0 <= d1 -> d1 <= d2 ->
  d1 <= calcBlending d1 d2 <= d2
  /\ calcBlending d1 d1 = d1
  /\ calcBlending d1 d2 * calcBlending d1 d2 = d1 * d2.
Proof.
  intros H1 H2. unfold calcBlending. cbn [Real rmul rsqrt R_ops].
  split; [|split].
  - split.
    + rewrite <- (sqrt_square d1) at 1 by done. apply sqrt_le_1_alt. nra.
    + rewrite <- (sqrt_square d2) at 2 by lra. apply sqrt_le_1_alt. nra.
  - by apply sqrt_square.
  - apply sqrt_sqrt. nra.
Qed.

Lemma calcBlending_between_witness :
  1 <= calcBlending 1 4 <= 4
  /\ calcBlending 1 1 = 1
  /\ calcBlending 1 4 * calcBlending 1 4 = 1 * 4.
Proof. apply (calcBlending_between 1 4); lra. Defined.

End ExactPotential.

(** ** The triangular index *)

Lemma Rtrunc_floor (a : R) (n : Z) :
  0 <= n -> (IZR n <= a < IZR n + 1)%R -> Rtrunc a = n.
Proof.
  intros Hn [Hlo Hhi]. unfold Rtrunc.
  assert (0 <= IZR n)%R by (by apply IZR_le).
  destruct (Rle_dec 0 a) as [_|Hneg]; [|lra].
  symmetry. apply Int_part_spec. lra.
Qed.



(** ** More on the molecular state store *)

Lemma for_range_fails {S : Type} lo mid hi (body : Z -> S -> option S) s s1 :
  lo <= mid < hi ->
  for_range lo mid body s = Some s1 -> body mid s1 = None ->
  for_range lo hi body s = None.
Proof.
  intros H E1 E2. rewrite (for_range_split lo mid hi) by lia.
  rewrite E1. simpl. rewrite for_range_first by lia. by rewrite E2.
Qed.

(** The copy loop overruns an array exactly when the destination or the
    source has fewer than [n] cells. *)
Lemma copy_loop_Some {A : Type} (n : Z) (dst src r : list A) :
  copy_loop n dst src = Some r ->
  n <= Z.of_nat (length dst) /\ n <= Z.of_nat (length src).
Proof.
  intros H.
  destruct (decide (n <= Z.of_nat (length dst) /\ n <= Z.of_nat (length src)))
    as [|Hno]; [done|].
  exfalso. set (k := Z.of_nat (length dst) `min` Z.of_nat (length src)).
  assert (Hk : 0 <= k < n) by lia.
  unfold copy_loop in H.
  rewrite (for_range_fails 0 k n _ dst (copied k dst src)) in H; [done|done| |].
  - apply (copy_loop_spec k dst src); lia.
  - destruct (decide (k < Z.of_nat (length src))) as [Hs|Hs].
    + assert (k = Z.of_nat (length dst)) as Hd by lia.
      destruct (readZ src k); simpl; [|done].
      unfold writeZ. rewrite decide_False; [done|].
      unfold copied. rewrite length_app, length_take, length_drop. lia.
    + unfold readZ. rewrite decide_True by lia.
      rewrite lookup_ge_None_2 by lia. done.
Qed.

Section Store.
Context {ops : RealOps} {Bond Angle Dihedral Hop : Type}.
Context `{!Inhabited Bond, !Inhabited Angle, !Inhabited Dihedral,
          !Inhabited Hop}.
Context {ext : Externals Bond Angle Dihedral Hop}.
Local Abbreviation Molecule := (Molecule Bond Angle Dihedral Hop).
Local Abbreviation Box := (@Box ops Bond Angle Dihedral Hop).

Lemma copyMolecule_Some (mole_dst mole_src m : Molecule) :
  copyMolecule mole_dst mole_src = Some m ->
  fits mole_src /\ has_room mole_dst mole_src.
Proof.
  unfold copyMolecule. intros Hm.
  destruct (copy_loop (numOfAtoms _) _ _) eqn:E1; [|done].
  destruct (copy_loop (numOfBonds _) _ _) eqn:E2; [|done].
  destruct (copy_loop (numOfAngles _) _ _) eqn:E3; [|done].
  destruct (copy_loop (numOfDihedrals _) _ _) eqn:E4; [|done].
  destruct (copy_loop (numOfHops _) _ _) eqn:E5; [|done].
  apply copy_loop_Some in E1, E2, E3, E4, E5.
  unfold fits, has_room. tauto.
Qed.

(** X11: [copyMolecule] checks no capacity: it is defined (no array is
    overrun) exactly when each of the five arrays of the source holds the
    cells its count announces and each array of the destination has room for
    them. *)
Theorem copyMolecule_defined_iff (mole_dst mole_src : Molecule) :
  is_Some (copyMolecule mole_dst mole_src)
  <-> fits mole_src /\ has_room mole_dst mole_src.
Proof.
  split.
  - intros [m Hm]. by apply copyMolecule_Some in Hm.
  - intros [Hf (R1 & R2 & R3 & R4 & R5)].
    rewrite copyMolecule_spec by done. done.
Qed.


(** The loop [for (j = 0; j < n; j++) a[j] = f(a[j])]. *)
Lemma update_loop_nat {A : Type} (f : A -> A) (k : nat) (l : list A) :
  (k <= length l)%nat ->
  for_range 0 (Z.of_nat k) (fun j ats => a ← readZ ats j; writeZ ats j (f a)) l
  = Some ((f <$> take k l) ++ drop k l).
Proof.
  induction k as [|k IH]; intros Hk.
  { rewrite for_range_empty by lia. by rewrite take_0, drop_0. }
  rewrite Nat2Z.inj_succ. unfold Z.succ. rewrite for_range_last by lia.
  rewrite IH by lia. simpl.
  destruct (lookup_lt_is_Some_2 l k) as [v Hv]; [lia|].
  assert (Hlen : length (f <$> take k l) = k)
    by (rewrite length_fmap, length_take_le; lia).
  assert (Hk' : ((f <$> take k l) ++ drop k l) !! k = Some v).
  { rewrite lookup_app_r by lia. rewrite Hlen, Nat.sub_diag, lookup_drop.
    by rewrite Nat.add_0_r. }
  rewrite readZ_nat, Hk'. simpl.
  rewrite writeZ_nat by (rewrite length_app, Hlen, length_drop; lia).
  f_equal. rewrite (take_S_r _ _ _ Hv), fmap_app, <- app_assoc. simpl.
  rewrite insert_app_r_alt by lia.
  rewrite Hlen, Nat.sub_diag.
  rewrite (drop_S _ _ _ Hv). done.
Qed.

Lemma update_loop_spec {A : Type} (f : A -> A) (n : Z) (l : list A) :
  n <= Z.of_nat (length l) ->
  for_range 0 n (fun j ats => a ← readZ ats j; writeZ ats j (f a)) l
  = Some ((f <$> take (Z.to_nat n) l) ++ drop (Z.to_nat n) l).
Proof.
  intros Hn. destruct (Z_le_gt_dec n 0) as [H0|H0].
  - rewrite for_range_empty by lia.
    replace (Z.to_nat n) with 0%nat by lia. by rewrite take_0, drop_0.
  - rewrite <- (Z2Nat.id n) at 1 by lia. apply update_loop_nat. lia.
Qed.

Lemma update_loop_length {A : Type} (f : A -> A) (n : Z) (l l' : list A) :
  for_range 0 n (fun j ats => a ← readZ ats j; writeZ ats j (f a)) l = Some l' ->
  length l' = length l.
Proof.
  apply (for_range_preserves (fun l' => length l' = length l)); [|done].
  intros i l1 l2 _ Hl Hb.
  destruct (readZ l1 i) as [a|]; simpl in Hb; [|done].
  apply writeZ_Some in Hb as [_ ->]. by rewrite length_insert.
Qed.

(** X12: [keepMoleculeInBox] wraps the coordinates of the first
    [numOfAtoms] atoms with [wrapBox] and changes nothing else: the
    Lennard-Jones parameters and the charge of every atom, the atoms beyond
    the count, the other fields and the size of every array stay. *)
Theorem keepMoleculeInBox_wraps (molecule : Molecule) (e : Environment) :
  numOfAtoms molecule <= Z.of_nat (length (atoms molecule)) ->
  exists m',
    keepMoleculeInBox molecule e = Some m'
    /\ atoms m'
       = (wrapAtom e <$> take (Z.to_nat (numOfAtoms molecule)) (atoms molecule))
         ++ drop (Z.to_nat (numOfAtoms molecule)) (atoms molecule)
    /\ Forall2 (fun a a' => sigma a' = sigma a /\ epsilon a' = epsilon a
                            /\ charge a' = charge a)
         (atoms molecule) (atoms m')
    /\ id m' = id molecule /\ numOfAtoms m' = numOfAtoms molecule
    /\ numOfBonds m' = numOfBonds molecule
    /\ numOfAngles m' = numOfAngles molecule
    /\ numOfDihedrals m' = numOfDihedrals molecule
    /\ numOfHops m' = numOfHops molecule
    /\ bonds m' = bonds molecule /\ angles m' = angles molecule
    /\ dihedrals m' = dihedrals molecule /\ hops m' = hops molecule.
Proof.
  intros Hn. unfold keepMoleculeInBox. rewrite update_loop_spec by done.
  eexists. split; [done|]. simpl. split; [done|]. split; [|done].
  rewrite <- (take_drop (Z.to_nat (numOfAtoms molecule)) (atoms molecule)) at 1.
  apply Forall2_app.
  - apply Forall2_fmap_r, Forall_Forall2_diag, Forall_forall. by intros a _.
  - apply Forall_Forall2_diag, Forall_forall. by intros a _.
Qed.

Lemma keepMoleculeInBox_in_place (molecule m' : Molecule) (e : Environment) :
  keepMoleculeInBox molecule e = Some m' ->
  in_place molecule m' /\ numOfAtoms m' = numOfAtoms molecule.
Proof.
  unfold keepMoleculeInBox. intros H.
  destruct (for_range _ _ _ _) as [ats|] eqn:E; simpl in H; [|done].
  injection H as <-. apply update_loop_length in E. by repeat split.
Qed.

(** What the checkpoint holds. *)
Lemma saveChangedMole_Some (moleno : Z) (b b1 : Box) :
  saveChangedMole moleno b = Some b1 ->
  exists mol, readZ (molecules b) moleno = Some mol /\ fits mol
    /\ molecules b1 = molecules b /\ enviro b1 = enviro b
    /\ changedmole b1
       = checkpoint_of mol.
Proof.
  unfold saveChangedMole. intros H.
  destruct (readZ (molecules b) moleno) as [mol|]; simpl in H; [|done].
  destruct (copyMolecule _ mol) as [m|] eqn:E; simpl in H; [|done].
  injection H as <-. exists mol. split; [done|].
  assert (Hfit : fits mol) by (by destruct (copyMolecule_Some _ _ _ E)).
  split; [done|]. split; [done|]. split; [done|]. simpl.
  rewrite copyMolecule_spec in E; simpl; rewrite ?length_malloc; try lia;
    [|done].
  by injection E as <-.
Qed.

(** What [Rollback] does with a checkpoint of [mol] when the molecule in the
    pool still has the arrays of [mol]. *)
Lemma Rollback_checkpoint (moleno : Z) (b2 : Box) (mol mol' : Molecule) :
  fits mol ->
  changedmole b2
  = checkpoint_of mol ->
  readZ (molecules b2) moleno = Some mol' ->
  in_place mol mol' ->
  exists b3 mol3,
    Rollback moleno b2 = Some b3
    /\ readZ (molecules b3) moleno = Some mol3
    /\ observable mol3 = observable mol
    /\ enviro b3 = enviro b2 /\ changedmole b3 = changedmole b2
    /\ length (molecules b3) = length (molecules b2)
    /\ forall j, j <> moleno -> readZ (molecules b3) j = readZ (molecules b2) j.
Proof.
  intros (F1 & F2 & F3 & F4 & F5) Hcm Hm' (L1 & L2 & L3 & L4 & L5).
  unfold Rollback. rewrite Hm', Hcm. simpl.
  rewrite copyMolecule_spec; simpl;
    rewrite ?length_copied, ?length_malloc; try lia.
  2:{ repeat split; simpl; rewrite length_copied, length_malloc;
        rewrite ?length_malloc; lia. }
  unfold set_molecule. simpl.
  apply readZ_Some in Hm' as [Hi Hl]. apply lookup_lt_Some in Hl.
  unfold writeZ. rewrite decide_True by lia. simpl.
  eexists _, _. split; [done|]. simpl. split.
  { apply readZ_Some. split; [done|]. apply list_lookup_insert_eq. lia. }
  split.
  { unfold observable. simpl.
    rewrite !take_copied
      by (rewrite ?length_copied, ?length_malloc; rewrite ?length_malloc; lia).
    rewrite ?take_copied by lia. done. }
  split; [done|]. split; [done|]. split; [by rewrite length_insert|].
  intros j Hj. unfold readZ. case_decide; [|done].
  apply list_lookup_insert_ne. lia.
Qed.

(** The parts of a [changeMolecule] that returns. *)
Lemma changeMolecule_Some (molIdx : Z) (b b' : Box) (g g' : Rng) :
  changeMolecule molIdx b g = Some (b', g') ->
  exists (mol mol2 : Molecule) vertex dx dy dz rx ry rz,
    readZ (molecules b) molIdx = Some mol /\ fits mol
    /\ keepMoleculeInBox (moveMolecule mol vertex dx dy dz rx ry rz) (enviro b)
       = Some mol2
    /\ 0 <= molIdx < Z.of_nat (length (molecules b))
    /\ b' = {| molecules := <[Z.to_nat molIdx:=mol2]> (molecules b);
               changedmole := checkpoint_of mol;
               enviro := enviro b |}.
Proof.
  unfold changeMolecule. intros H.
  destruct (saveChangedMole molIdx b) as [b1|] eqn:E1; simpl in H; [|done].
  apply saveChangedMole_Some in E1 as (mol & Hmol & Hfit & Hms & Henv & Hcm).
  rewrite Hms, Hmol in H. simpl in H.
  destruct (randomReal _ _ g) as [r g1].
  destruct (readZ (atoms mol) _) as [vertex|]; simpl in H; [|done].
  repeat match type of H with
  | context [randomReal ?lo ?hi ?g] => destruct (randomReal lo hi g)
  end.
  destruct (keepMoleculeInBox _ _) as [mol2|] eqn:Ek; simpl in H; [|done].
  unfold set_molecule in H.
  destruct (writeZ (molecules b1) molIdx mol2) as [ms|] eqn:Ew; simpl in H;
    [|done].
  injection H as <- <-. apply writeZ_Some in Ew as [Hi ->].
  rewrite Hms in Hi.
  eexists mol, mol2, _, _, _, _, _, _, _.
  split; [done|]. split; [done|]. rewrite <- Henv. split; [exact Ek|].
  split; [done|]. by rewrite Hms, Hcm.
Qed.

(** X13: [changeMolecule] touches the chosen molecule only: the other
    molecules, the number of molecules and the environment stay, and
    [changedmole] holds a copy of the chosen molecule as it was before the
    move. *)
Theorem changeMolecule_frame (molIdx : Z) (b b' : Box) (g g' : Rng) :
  changeMolecule molIdx b g = Some (b', g') ->
  enviro b' = enviro b
  /\ length (molecules b') = length (molecules b)
  /\ (forall j, j <> molIdx -> readZ (molecules b') j = readZ (molecules b) j)
  /\ exists mol : Molecule, readZ (molecules b) molIdx = Some mol
       /\ observable (changedmole b') = observable mol.
Proof.
  intros H.
  apply changeMolecule_Some in H
    as (mol & mol2 & v & dx & dy & dz & rx & ry & rz & Hmol & Hfit & _ & Hi & ->).
  simpl. split; [done|]. split; [by rewrite length_insert|]. split.
  - intros j Hj. unfold readZ. case_decide; [|done].
    apply list_lookup_insert_ne. lia.
  - exists mol. split; [done|]. unfold observable, checkpoint_of. simpl.
    destruct Hfit as (F1 & F2 & F3 & F4 & F5).
    rewrite !take_copied by lia. done.
Qed.

(** X14: a move followed by [Rollback] of the same molecule restores it:
    provided [moveMolecule] works in place (it keeps the arrays of the
    molecule), after [changeMolecule] the call [Rollback] is defined and
    leaves every molecule of the pool with the observable state it had
    before the move. *)
Theorem changeMolecule_then_Rollback (molIdx : Z) (b b' : Box) (g g' : Rng) :
  (forall (m : Molecule) vertex dx dy dz rx ry rz,
     in_place m (moveMolecule m vertex dx dy dz rx ry rz)) ->
  changeMolecule molIdx b g = Some (b', g') ->
  exists (b'' : Box) (mol mol'' : Molecule),
    Rollback molIdx b' = Some b''
    /\ readZ (molecules b) molIdx = Some mol
    /\ readZ (molecules b'') molIdx = Some mol''
    /\ observable mol'' = observable mol
    /\ (forall j, j <> molIdx -> readZ (molecules b'') j = readZ (molecules b) j)
    /\ length (molecules b'') = length (molecules b)
    /\ enviro b'' = enviro b.
Proof.
  intros Hmove H.
  apply changeMolecule_Some in H
    as (mol & mol2 & v & dx & dy & dz & rx & ry & rz & Hmol & Hfit & Ek & Hi & ->).
  apply keepMoleculeInBox_in_place in Ek as [(K1 & K2 & K3 & K4 & K5) _].
  destruct (Hmove mol v dx dy dz rx ry rz) as (M1 & M2 & M3 & M4 & M5).
  destruct (Rollback_checkpoint molIdx
              {| molecules := <[Z.to_nat molIdx:=mol2]> (molecules b);
                 changedmole := checkpoint_of mol; enviro := enviro b |}
              mol mol2 Hfit eq_refl)
    as (b3 & mol3 & ER & Hr & Hobs & Henv3 & _ & Hlen & Hothers).
  - simpl. apply readZ_Some. split; [lia|].
    apply list_lookup_insert_eq. lia.
  - unfold in_place. repeat split; congruence.
  - exists b3, mol, mol3. split; [done|]. split; [done|]. split; [done|].
    split; [done|]. simpl in *. split; [|split].
    + intros j Hj. rewrite Hothers by done. unfold readZ.
      case_decide; [|done]. apply list_lookup_insert_ne. lia.
    + by rewrite Hlen, length_insert.
    + done.
Qed.

(** X15: [Rollback] is idempotent: rolling back a second time changes
    nothing. *)
Theorem Rollback_idempotent (moleno : Z) (b b' : Box) :
  Rollback moleno b = Some b' -> Rollback moleno b' = Some b'.
Proof.
  unfold Rollback. intros H.
  destruct (readZ (molecules b) moleno) as [dst|] eqn:Ed; simpl in H; [|done].
  destruct (copyMolecule dst (changedmole b)) as [m|] eqn:Ec; simpl in H;
    [|done].
  destruct (copyMolecule_Some _ _ _ Ec) as [Hfit Hroom].
  pose proof Hfit as (F1 & F2 & F3 & F4 & F5).
  pose proof Hroom as (R1 & R2 & R3 & R4 & R5).
  rewrite copyMolecule_spec in Ec by (done || apply Hroom).
  injection Ec as <-.
  unfold set_molecule in H.
  destruct (writeZ (molecules b) moleno _) as [ms|] eqn:Ew; simpl in H; [|done].
  injection H as <-. simpl. apply writeZ_Some in Ew as [Hi ->].
  match goal with
  | |- context [readZ (<[?i:=?M]> ?l) moleno] =>
      assert (Hr : readZ (<[i:=M]> l) moleno = Some M)
        by (apply readZ_Some; split; [lia|]; apply list_lookup_insert_eq; lia);
      rewrite Hr
  end.
  simpl. rewrite copyMolecule_spec; simpl; rewrite ?length_copied; try done.
  unfold set_molecule. simpl. unfold writeZ.
  rewrite decide_True by (rewrite length_insert; lia). simpl.
  rewrite list_insert_insert_eq. do 3 f_equal.
  assert (C : forall (A : Type) (n : Z) (d s : list A),
            n <= Z.of_nat (length s) -> copied n (copied n d s) s = copied n d s).
  { intros A n d s Hn. unfold copied. f_equal.
    rewrite drop_app_length'; [done|]. rewrite length_take. lia. }
  by rewrite !C.
Qed.

End Store.

Section StoreOnTheSmallSystem.
Local Existing Instance F_ops.
Local Existing Instance demo_ext.

Lemma keepMoleculeInBox_wraps_witness :
  exists m',
    keepMoleculeInBox (demo_molecule 1 [demo_atom 12 1 (-1) 1 0.1 0.25])
      demo_environment = Some m'
    /\ atoms m' = [demo_atom 2 1 9 1 0.1 0.25].
Proof.
  destruct (keepMoleculeInBox_wraps
              (demo_molecule 1 [demo_atom 12 1 (-1) 1 0.1 0.25])
              demo_environment) as (m' & E & Ha & _).
  - simpl. lia.
  - exists m'. split; [exact E|]. rewrite Ha. reflexivity.
Defined.

Lemma changeMolecule_frame_witness :
  changeMolecule 1 demo_box
    [0.3; 0.99; 0.5; 0.5; 0.5; 0.5; 0.5]%float = Some demo_moved
  /\ enviro demo_moved.1 = enviro demo_box
  /\ length (molecules demo_moved.1) = length (molecules demo_box).
Proof.
  assert (H : changeMolecule 1 demo_box
                [0.3; 0.99; 0.5; 0.5; 0.5; 0.5; 0.5]%float
              = Some (demo_moved.1, demo_moved.2)) by reflexivity.
  split; [exact H|].
  destruct (changeMolecule_frame 1 demo_box demo_moved.1 _ _ H)
    as (He & Hl & _).
  split; [exact He|exact Hl].
Defined.

Lemma demo_move_in_place (m : Molecule unit unit unit unit) vertex dx dy dz rx ry rz :
  in_place m (demo_move m vertex dx dy dz rx ry rz).
Proof. unfold in_place. simpl. by rewrite length_fmap. Qed.

Lemma changeMolecule_then_Rollback_witness :
  changeMolecule 1 demo_box [0.3; 0.99; 0.5; 0.5; 0.5; 0.5; 0.5]%float
    = Some demo_moved
  /\ exists (b'' : Box) (mol mol'' : Molecule unit unit unit unit),
       Rollback 1 demo_moved.1 = Some b''
       /\ readZ (molecules demo_box) 1 = Some mol
       /\ readZ (molecules b'') 1 = Some mol''
       /\ observable mol'' = observable mol.
Proof.
  assert (H : changeMolecule 1 demo_box
                [0.3; 0.99; 0.5; 0.5; 0.5; 0.5; 0.5]%float
              = Some (demo_moved.1, demo_moved.2)) by reflexivity.
  split; [exact H|].
  destruct (changeMolecule_then_Rollback (ext:=demo_ext) 1 demo_box demo_moved.1 _ _
              demo_move_in_place H)
    as (b'' & mol & mol'' & E1 & E2 & E3 & E4 & _).
  exists b'', mol, mol''. repeat split; assumption.
Defined.

Lemma Rollback_idempotent_witness :
  Rollback 1 demo_moved.1 = Some demo_rolled_back
  /\ Rollback 1 demo_rolled_back = Some demo_rolled_back.
Proof.
  assert (H : Rollback 1 demo_moved.1 = Some demo_rolled_back) by reflexivity.
  split; [exact H|].
  exact (Rollback_idempotent 1 demo_moved.1 demo_rolled_back H).
Defined.

End StoreOnTheSmallSystem.

Section Choice.
Context {Bond Angle Dihedral Hop : Type}.
Local Existing Instance R_ops.
Context {ext : Externals Bond Angle Dihedral Hop}.
Local Abbreviation Box := (@Box R_ops Bond Angle Dihedral Hop).

(** X16: [chooseMolecule] returns an index of the pool when the draw of
    [randomReal (0, numOfMolecules)] is in [[0, numOfMolecules)]; a draw equal
    to the upper bound gives the index [numOfMolecules], one past the last
    molecule. *)
Theorem chooseMolecule_in_range (b : Box) (g : Rng) :
  let n := numOfMolecules (enviro b) in
  let r : R := (randomReal (ops:=R_ops) (IZR 0) (IZR n) g).1 in
  ((0 <= r < IZR n)%R -> 0 <= (chooseMolecule b g).1 < n)
  /\ (0 <= n -> r = IZR n -> (chooseMolecule b g).1 = n).
Proof.
  intros n r. unfold chooseMolecule. cbn [Real rofZ rtrunc R_ops].
  fold n. subst r. destruct (randomReal (ops:=R_ops) (IZR 0) (IZR n) g) as [r g1]. simpl.
  unfold Rtrunc. split.
  - intros [Hlo Hhi]. destruct (Rle_dec 0 r) as [_|]; [|lra].
    destruct (base_Int_part r) as [H1 H2].
    split.
    + apply le_IZR. 
      assert (IZR (Int_part r) > -1)%R by lra.
      assert (-1 < Int_part r) by (by apply lt_IZR).
      apply IZR_le. lia.
    + apply lt_IZR. lra.
  - intros Hn ->. assert (0 <= IZR n)%R by (by apply IZR_le).
    destruct (Rle_dec 0 (IZR n)) as [_|]; [|lra].
    symmetry. apply Int_part_spec. lra.
Qed.

End Choice.

Lemma chooseMolecule_in_range_witness :
  0 <= (chooseMolecule (ops:=R_ops) (ext:=demo_ext) demo_box [(1 / 2)%R]).1 < 3.
Proof.
  refine (proj1 (chooseMolecule_in_range (ext:=demo_ext (ops:=R_ops))
                   demo_box [(1 / 2)%R]) _).
  simpl. lra.
Defined.

(** ** More on the Metropolis driver *)

Lemma for_range_counts {S : Type} (P : Z -> S -> Prop) lo hi
    (body : Z -> S -> option S) s s' :
  lo <= hi ->
  (forall i s s', lo <= i < hi -> P i s -> body i s = Some s' -> P (i + 1) s') ->
  P lo s -> for_range lo hi body s = Some s' -> P hi s'.
Proof.
  intros Hle Hstep H0.
  assert (G : forall k : nat, lo + Z.of_nat k <= hi -> forall s',
            for_range lo (lo + Z.of_nat k) body s = Some s' ->
            P (lo + Z.of_nat k) s').
  { induction k as [|k IH]; intros Hk s1.
    - rewrite for_range_empty by lia. intros [= <-].
      by replace (lo + Z.of_nat 0) with lo by lia.
    - replace (lo + Z.of_nat (Datatypes.S k)) with (lo + Z.of_nat k + 1) by lia.
      rewrite for_range_last by lia.
      destruct (for_range lo (lo + Z.of_nat k) body s) as [s2|]; simpl; [|done].
      intros Hb. eapply Hstep; [|apply IH|done]; [lia|lia|done]. }
  specialize (G (Z.to_nat (hi - lo))).
  replace (lo + Z.of_nat (Z.to_nat (hi - lo))) with hi in G by lia.
  apply G. lia.
Qed.

Section MoreDriver.
Context {ops : RealOps} {Bond Angle Dihedral Hop : Type}.
Context `{!Inhabited Bond, !Inhabited Angle, !Inhabited Dihedral,
          !Inhabited Hop}.
Context {consts : Constants} {ext : Externals Bond Angle Dihedral Hop}.
Local Abbreviation Box := (@Box ops Bond Angle Dihedral Hop).
Local Open Scope real_scope.

Lemma Rollback_frame (moleno : Z) (b b' : Box) :
  Rollback moleno b = Some b' ->
  enviro b' = enviro b /\ length (molecules b') = length (molecules b).
Proof.
  unfold Rollback, set_molecule. intros H.
  destruct (readZ _ _) as [dst|]; simpl in H; [|done].
  destruct (copyMolecule _ _) as [m|]; simpl in H; [|done].
  destruct (writeZ _ _ _) as [ms|] eqn:E; simpl in H; [|done].
  injection H as <-. simpl. apply writeZ_Some in E as [_ ->].
  by rewrite length_insert.
Qed.

Lemma writeChangeToDevice_frame (changeIdx : Z) (s s' : ParallelSim) :
  writeChangeToDevice changeIdx s = Some s' ->
  configuration s' = configuration s
  /\ innerbox s' = innerbox s /\ rng s' = rng s /\ trace s' = trace s
  /\ oldEnergy s' = oldEnergy s /\ currentEnergy s' = currentEnergy s
  /\ accepted s' = accepted s /\ rejected s' = rejected s.
Proof.
  unfold writeChangeToDevice. intros H.
  destruct (readZ _ _) as [m|]; simpl in H; [|done].
  destruct (writeZ _ _ _) as [d|] eqn:E; simpl in H; [|done].
  injection H as <-. apply writeZ_Some in E as [_ ->].
  unfold configuration. simpl. by rewrite length_insert.
Qed.

Lemma same_but_buffers_configuration (s s' : ParallelSim) :
  same_but_buffers s s' -> configuration s' = configuration s.
Proof.
  unfold same_but_buffers, configuration. intros H. destruct_and!.
  by repeat match goal with H : _ = _ |- _ => rewrite H; clear H end.
Qed.

(** What a step leaves of the configuration and of the counters. *)
Lemma runStep_accounts (fuel : nat) (kT : Real) (s s' : ParallelSim) :
  runStep fuel kT s = Some s' ->
  configuration s' = configuration s
  /\ (accepted s' = (accepted s + 1)%Z /\ rejected s' = rejected s
      \/ accepted s' = accepted s /\ rejected s' = (rejected s + 1)%Z).
Proof.
  unfold runStep, proposeAndEvaluate. intros H.
  destruct (chooseMolecule (innerbox s) (rng s)) as [idx g0].
  destruct (calcMolecularEnergyContribution fuel idx 0 _) as [[e1 s1]|] eqn:E1;
    simpl in H; [|done].
  destruct (changeMolecule idx (innerbox s1) (rng s1)) as [[b g1]|] eqn:E2;
    simpl in H; [|done].
  destruct (writeChangeToDevice idx _) as [s2|] eqn:E3; simpl in H; [|done].
  destruct (calcMolecularEnergyContribution fuel idx 0 s2) as [[e2 s3]|] eqn:E4;
    simpl in H; [|done].
  destruct (acceptMove kT e2 e1 (rng s3)) as [accept g2].
  apply calcMolecularEnergyContribution_frame in E1, E4.
  pose proof (same_but_buffers_configuration _ _ E1) as C1.
  pose proof (same_but_buffers_configuration _ _ E4) as C4.
  destruct E1 as (B1&?&?&?&?&?&?&?&?&A1&R1&?&?).
  destruct E4 as (B4&?&?&?&?&?&?&?&?&A4&R4&?&?).
  apply changeMolecule_Some in E2
    as (mol & mol2 & v & dx & dy & dz & rx & ry & rz & _ & _ & _ & _ & ->).
  apply writeChangeToDevice_frame in E3 as (C3 & B3 & _ & _ & _ & _ & A3 & R3).
  assert (C : configuration s3 = configuration s).
  { rewrite C4, C3. unfold configuration in *. simpl in *.
    rewrite length_insert. exact C1. }
  unfold commitOrRollback in H. destruct accept.
  - injection H as <-. split; [exact C|]. left. simpl in *. split; congruence.
  - simpl in H.
    destruct (Rollback idx (innerbox s3)) as [b3|] eqn:ER; simpl in H; [|done].
    apply Rollback_frame in ER as [Renv Rlen].
    apply writeChangeToDevice_frame in H as (C5 & _ & _ & _ & _ & _ & A5 & R5).
    split.
    + rewrite C5. unfold configuration in *. simpl in *.
      rewrite Renv, Rlen. exact C.
    + right. simpl in *. split; congruence.
Qed.

Lemma initialEnergy_accounts (fuel : nat) (s s' : ParallelSim) :
  initialEnergy fuel s = Some s' ->
  configuration s' = configuration s
  /\ accepted s' = accepted s /\ rejected s' = rejected s.
Proof.
  unfold initialEnergy. intros H. destruct (oldEnergy s =? rofZ 0).
  - destruct (calcSystemEnergy fuel s) as [[e s1]|] eqn:E; simpl in H; [|done].
    injection H as <-. apply calcSystemEnergy_frame in E.
    pose proof (same_but_buffers_configuration _ _ E) as C.
    destruct E as (?&?&?&?&?&?&?&?&?&A&R&?&?). simpl in *.
    split; [exact C|]. split; congruence.
  - by injection H as <-.
Qed.

(** X17: a run of [runParallel] counts every step once: the sum of
    [accepted] and [rejected] grows by the number of steps (by nothing when
    [steps <= 0]), neither counter decreases, and [currentEnergy] is the
    running total at the end. *)
Theorem runParallel_counts_steps (fuel : nat) (steps : Z) (s s' : ParallelSim) :
  runParallel fuel steps s = Some s' ->
  (accepted s' + rejected s' = accepted s + rejected s + Z.max 0 steps)%Z
  /\ (accepted s <= accepted s')%Z /\ (rejected s <= rejected s')%Z
  /\ currentEnergy s' = oldEnergy s'.
Proof.
  unfold runParallel. intros H.
  destruct (initialEnergy fuel s) as [s0|] eqn:E0; simpl in H; [|done].
  destruct (for_range 0 steps _ s0) as [s1|] eqn:E1; simpl in H; [|done].
  injection H as <-. simpl.
  apply initialEnergy_accounts in E0 as (_ & A0 & R0).
  assert (G : (accepted s1 + rejected s1
               = accepted s0 + rejected s0 + Z.max 0 steps)%Z
              /\ (accepted s0 <= accepted s1)%Z
              /\ (rejected s0 <= rejected s1)%Z).
  { destruct (Z_le_gt_dec steps 0) as [Hs|Hs].
    { rewrite for_range_empty in E1 by lia. injection E1 as <-. lia. }
    apply (for_range_counts
             (fun i s1 => (accepted s1 + rejected s1
                           = accepted s0 + rejected s0 + i)%Z
                          /\ (accepted s0 <= accepted s1)%Z
                          /\ (rejected s0 <= rejected s1)%Z)) in E1.
    - lia.
    - lia.
    - intros i s2 s3 _ (Hsum & Ha & Hr) Hstep.
      apply runStep_accounts in Hstep as (_ & [[-> ->]|[-> ->]]); lia.
    - lia. }
  repeat split; try done; lia.
Qed.

(** X18: a run of [runParallel] keeps the configuration: the counts
    [moleculeCount], [energyCount] and [maxMolSize], the three copies of the
    environment and the number of molecules of the host and of the device
    array are at the end what they were at the start. *)
Theorem runParallel_keeps_configuration (fuel : nat) (steps : Z)
    (s s' : ParallelSim) :
  runParallel fuel steps s = Some s' ->
  configuration s' = configuration s.
Proof.
  unfold runParallel. intros H.
  destruct (initialEnergy fuel s) as [s0|] eqn:E0; simpl in H; [|done].
  destruct (for_range 0 steps _ s0) as [s1|] eqn:E1; simpl in H; [|done].
  injection H as <-.
  apply initialEnergy_accounts in E0 as (C0 & _ & _).
  apply (for_range_preserves
           (fun s1 => configuration s1 = configuration s0)) in E1.
  - by rewrite <- C0, <- E1.
  - intros i s2 s3 _ Hc Hstep.
    apply runStep_accounts in Hstep as [-> _]. exact Hc.
  - done.
Qed.


End MoreDriver.

Section DriverOnTheSmallSystem.
Local Existing Instance F_ops.
Local Existing Instance demo_consts.
Local Existing Instance demo_ext.

Lemma runParallel_counts_steps_witness :
  runParallel 8 1 demo_start = Some demo_after_run
  /\ (accepted demo_after_run + rejected demo_after_run
      = accepted demo_start + rejected demo_start + Z.max 0 1)%Z.
Proof.
  assert (H : runParallel 8 1 demo_start = Some demo_after_run) by reflexivity.
  split; [exact H|].
  exact (proj1 (runParallel_counts_steps 8 1 demo_start demo_after_run H)).
Defined.

Lemma runParallel_keeps_configuration_witness :
  runParallel 8 1 demo_start = Some demo_after_run
  /\ configuration demo_after_run = configuration demo_start.
Proof.
  assert (H : runParallel 8 1 demo_start = Some demo_after_run) by reflexivity.
  split; [exact H|].
  exact (runParallel_keeps_configuration 8 1 demo_start demo_after_run H).
Defined.


End DriverOnTheSmallSystem.

(** ** More on the acceptance test *)

Section MoreExactAcceptance.
Context {Bond Angle Dihedral Hop : Type}.
Local Existing Instance R_ops.
Context {ext : Externals Bond Angle Dihedral Hop}.
Local Open Scope R_scope.

(** X20: at a positive [kT] the acceptance test is monotone in the new
    energy: with the same state of the random number generator, a move that
    is accepted at the energy [new2] is accepted at every lower energy
    [new1]. *)
Theorem acceptance_monotone (kT oldEnergyCont new1 new2 : R) (g : Rng) :
  0 < kT -> new1 <= new2 ->
  (acceptMove (ops:=R_ops) kT new2 oldEnergyCont g).1 = true ->
  (acceptMove (ops:=R_ops) kT new1 oldEnergyCont g).1 = true.
Proof.
  intros HkT Hle. unfold acceptMove.
  cbn [Real rltb rleb rlit rexp ropp rsub rdiv R_ops].
  destruct (Rltb new1 oldEnergyCont) eqn:E1; [done|].
  apply Rltb_false in E1.
  rewrite (proj2 (Rltb_false new2 oldEnergyCont)) by lra.
  destruct (randomFloat (ops:=R_ops) (Q2R 0) (Q2R 1) g) as [u g'].
  destruct (Rleb u (Rtrigo_def.exp (- (new2 - oldEnergyCont) / kT))) eqn:E2;
    [|done].
  intros _. apply Rleb_true in E2.
  assert (Hexp : Rtrigo_def.exp (- (new2 - oldEnergyCont) / kT)
                 <= Rtrigo_def.exp (- (new1 - oldEnergyCont) / kT)).
  { destruct (Req_dec_T new1 new2) as [->|Hne]; [lra|].
    left. apply exp_increasing. unfold Rdiv.
    apply Rmult_lt_compat_r; [by apply Rinv_0_lt_compat|lra]. }
  rewrite (proj2 (Rleb_true _ _)) by lra. done.
Qed.

End MoreExactAcceptance.

Lemma acceptance_monotone_witness :
  (acceptMove (ops:=R_ops) (ext:=demo_ext) 1%R 0%R 0%R [0%R]).1 = true.
Proof.
  apply (acceptance_monotone (ext:=demo_ext (ops:=R_ops)) 1%R 0%R 0%R 1%R [0%R]).
  - lra.
  - lra.
  - unfold acceptMove. cbn [Real rltb rleb rlit rexp ropp rsub rdiv R_ops].
    rewrite (proj2 (Rltb_false _ _)) by lra.
    cbn [randomFloat demo_ext demo_draw Real radd rmul rsub R_ops].
    rewrite Q2R_zero, Q2R_one.
    pose proof (exp_pos (- (1 - 0) / 1)) as Hpos.
    rewrite (proj2 (Rleb_true _ _)) by lra. done.
Defined.

(** ** More on the batches and the kernels *)

Lemma for_range_skip {S : Type} lo hi (body : Z -> S -> option S) s :
  (forall i, lo <= i < hi -> body i s = Some s) ->
  for_range lo hi body s = Some s.
Proof.
  intros H. destruct (Z_le_gt_dec hi lo) as [Hle|Hgt].
  { by apply for_range_empty. }
  destruct (for_range_invariant (fun _ s' => s' = s) lo hi body s)
    as (s' & E & ->); [lia|done| |done].
  intros i s1 Hi ->. exists s. split; [by apply H|done].
Qed.

Section MoreBatch.
Context {ops : RealOps} {Bond Angle Dihedral Hop : Type}.
Context {consts : Constants} {ext : Externals Bond Angle Dihedral Hop}.
Local Abbreviation Molecule := (Molecule Bond Angle Dihedral Hop).

(** What [createMolBatch] returns and leaves in the batch array. *)
Lemma createMolBatch_spec (fuel : nat) (m startIdx : Z) (s : ParallelSim) :
  1 <= MOL_BLOCK -> memset_word NO <> YES ->
  0 <= startIdx -> 0 <= moleculeCount s ->
  moleculeCount s <= Z.of_nat (length (nbrMolsD s)) ->
  moleculeCount s <= Z.of_nat (length (nbrMolsH s)) ->
  moleculeCount s <= Z.of_nat (length (molBatchH s)) ->
  (forall c, startIdx <= c < moleculeCount s -> c <> m ->
     is_Some (withinCutoff fuel (moleculesD s) (environmentD s) m c)) ->
  let nb := neighbours fuel (moleculesD s) (environmentD s) m startIdx
              (moleculeCount s) in
  exists s',
    createMolBatch fuel m startIdx s = Some (Z.of_nat (length nb), s')
    /\ take (length nb) (molBatchH s') = nb
    /\ (forall k, Z.of_nat (length nb) <= k < moleculeCount s ->
          readZ (molBatchH s') k = Some (-1))
    /\ length (molBatchH s') = length (molBatchH s)
    /\ length (nbrMolsH s') = length (nbrMolsH s)
    /\ length (nbrMolsD s') = length (nbrMolsD s)
    /\ energiesD s' = energiesD s /\ molBatchD s' = molBatchD s.
Proof.
  intros HB HNO Hs Hn HD HH HBt Hdef nb. unfold createMolBatch.
  destruct (memset_int_spec (nbrMolsD s) NO (moleculeCount s)) as (f0 & -> & L0 & I0);
    [lia|]. simpl.
  unfold divZ. rewrite decide_False by lia. simpl.
  assert (Hcov : moleculeCount s <= (moleculeCount s ÷ MOL_BLOCK + 1) * MOL_BLOCK).
  { rewrite Z.quot_div_nonneg by lia.
    assert (0 < MOL_BLOCK) as HB' by lia.
    pose proof (Z.mul_succ_div_gt (moleculeCount s) MOL_BLOCK HB'). nia. }
  destruct (checkMoleculeDistances_launch fuel (moleculesD s) m startIdx
              (moleculeCount s) (environmentD s)
              (moleculeCount s ÷ MOL_BLOCK + 1) MOL_BLOCK f0)
    as (f1 & -> & L1 & I1); [lia|lia|done|done|done|]. simpl.
  destruct (memcpy_spec (nbrMolsH s) f1 (moleculeCount s)) as (h & -> & Lh & Ih);
    [lia|lia|]. simpl.
  destruct (memset_int_spec (molBatchH s) (-1) (moleculeCount s))
    as (b0 & -> & Lb0 & Ib0); [lia|]. simpl.
  destruct (compaction_spec
              (fun c => c <> m /\ withinCutoff fuel (moleculesD s) (environmentD s) m c
                                 = Some true)
              h b0 startIdx (moleculeCount s))
    as (b1 & E & Lb1 & T & D); [done|lia| |].
  { intros i Hi. exists (flag fuel (moleculesD s) (environmentD s) m startIdx i).
    rewrite Ih, I1 by lia. split; [done|]. unfold flag.
    case_decide as Hc; split; try tauto; try done. }
  fold nb in E, T, D. rewrite E. simpl.
  eexists. split; [done|]. simpl. split; [done|]. split.
  2:{ rewrite Lb1, Lb0, Lh, L1, L0. done. }
  intros k Hk. rewrite memset_word_minus_one in Ib0.
  rewrite <- (Ib0 k) by lia.
  unfold readZ. rewrite !decide_True by lia.
  replace (Z.to_nat k) with (length nb + (Z.to_nat k - length nb))%nat by lia.
  rewrite <- !lookup_drop. unfold nb, neighbours. by rewrite D.
Qed.

(** X21: a molecule with no candidate within the cutoff contributes
    nothing: when every candidate of [[startIdx, moleculeCount)] other than
    [molIdx] fails the distance test (in particular when there is none, as
    for the last molecule in [calcSystemEnergy]), the batch is empty,
    [calcMolecularEnergyContribution] returns [0] and no kernel touches the
    energy buffer. *)
Theorem isolated_molecule_contributes_zero (fuel : nat) (molIdx startIdx : Z)
    (s : ParallelSim) :
  1 <= MOL_BLOCK -> memset_word NO <> YES ->
  0 <= startIdx -> 0 <= moleculeCount s ->
  moleculeCount s <= Z.of_nat (length (nbrMolsD s)) ->
  moleculeCount s <= Z.of_nat (length (nbrMolsH s)) ->
  moleculeCount s <= Z.of_nat (length (molBatchH s)) ->
  (forall c, startIdx <= c < moleculeCount s -> c <> molIdx ->
     withinCutoff fuel (moleculesD s) (environmentD s) molIdx c = Some false) ->
  exists s',
    calcMolecularEnergyContribution fuel molIdx startIdx s = Some (rofZ 0, s')
    /\ energiesD s' = energiesD s /\ molBatchD s' = molBatchD s.
Proof.
  intros HB HNO Hs Hn HD HH HBt Hfar.
  destruct (createMolBatch_spec fuel molIdx startIdx s)
    as (s' & E & _ & _ & _ & _ & _ & He & Hb); try done.
  { intros c Hc Hne. rewrite Hfar by done. by eexists. }
  assert (Hnb : neighbours fuel (moleculesD s) (environmentD s) molIdx startIdx
                  (moleculeCount s) = []).
  { unfold neighbours. apply elem_of_nil_inv. intros c Hc.
    apply list_elem_of_filter in Hc as [[Hne Hw] Hc].
    apply elem_of_seqZ in Hc. rewrite Hfar in Hw by (done || lia). done. }
  rewrite Hnb in E. unfold calcMolecularEnergyContribution. rewrite E.
  simpl. exists s'. done.
Qed.


(** An evaluation that dispatches work, in its parts. *)
Lemma calcBatchEnergy_returns (fuel : nat) (numMols molIdx : Z)
    (s : ParallelSim) (batchD : list Z) (cells : list Real) :
  (forall a b c : Real, radd a (radd b c) = radd (radd a b) c) ->
  (forall a b : Real, radd a b = radd b a) ->
  (forall a : Real, radd (rofZ 0) a = a) ->
  BATCH_BLOCK <> 0 -> 1 <= AGG_BLOCK -> 1 <= MAX_WARP ->
  0 < numMols -> 0 < energyCount s ->
  Z.of_nat (length (energiesD s)) = energyCount s ->
  memcpy (molBatchD s) (molBatchH s) (moleculeCount s) = Some batchD ->
  launch (energyCount s ÷ BATCH_BLOCK + 1) BATCH_BLOCK
    (calcInterAtomicEnergy fuel (moleculesD s) molIdx (environmentD s)
       (energyCount s) batchD (maxMolSize s))
    (<[0%nat:=rlit 0]> (energiesD s)) = Some cells ->
  exists energies,
    calcBatchEnergy fuel numMols molIdx s
    = Some (sum_energies cells,
            set_energiesD energies
              (set_energiesD cells (set_molBatchD batchD s)))
    /\ length energies = length (energiesD s)
    /\ energies !! 0%nat = Some (rlit 0)
    /\ forall k, (0 < k < length energies)%nat -> energies !! k = Some (rofZ 0).
Proof.
  intros A C Zr HB HA HW Hnum Hn Hlen Hcopy Hlaunch. unfold calcBatchEnergy.
  rewrite (proj2 (Z.gtb_lt numMols 0)) by lia.
  unfold writeZ. rewrite decide_True by lia.
  change (Z.to_nat 0) with 0%nat. cbn [mbind option_bind].
  rewrite Hcopy. cbn [mbind option_bind].
  unfold divZ. rewrite decide_False by done. cbn [mbind option_bind].
  rewrite Hlaunch. cbn [mbind option_bind].
  assert (L : length cells = length (energiesD s)).
  { apply (launch_preserves (fun e => length e = length (energiesD s)))
      in Hlaunch; [done| |by rewrite length_insert].
    intros b t f f' Hf Hk. apply calcInterAtomicEnergy_length in Hk. lia. }
  destruct (getEnergyFromDevice_spec
              (set_energiesD cells (set_molBatchD batchD s)) HA HW)
    as (total & energies & E & Le & Z0 & Zk & S); simpl; [done|lia|].
  rewrite E, (S A C Zr). simpl. exists energies.
  split; [done|]. split; [by rewrite Le|]. done.
Qed.


End MoreBatch.

Section BatchOnTheSmallSystem.
Local Existing Instance F_ops.
Local Existing Instance demo_consts.
Local Existing Instance demo_ext.

Lemma isolated_molecule_contributes_zero_witness :
  exists s',
    calcMolecularEnergyContribution 8 2 2 demo_start = Some (rofZ 0, s')
    /\ energiesD s' = energiesD demo_start.
Proof.
  destruct (isolated_molecule_contributes_zero 8 2 2 demo_start)
    as (s' & E & He & _).
  - simpl. lia.
  - vm_compute. discriminate.
  - lia.
  - simpl. lia.
  - simpl. lia.
  - simpl. lia.
  - simpl. lia.
  - intros c Hc Hne. simpl in Hc. lia.
  - exists s'. split; [exact E|exact He].
Defined.


End BatchOnTheSmallSystem.

Section BatchOnTheSmallSystemExactly.
Local Existing Instance R_ops.
Local Existing Instance demo_consts.
Local Existing Instance demo_ext.


End BatchOnTheSmallSystemExactly.

Section SchedulesOnTheSmallSystem.
Local Existing Instance F_ops.
Local Existing Instance demo_consts.
Local Existing Instance demo_ext.

(** The launches of the small system with the threads in the opposite
    order. *)
Lemma checkMoleculeDistances_any_order_witness :
  launch 2 2 (checkMoleculeDistances 8 demo_molecules 0 0 3 demo_environment)
    [0; 0; 0]
  = iterM (checkMoleculeDistances 8 demo_molecules 0 0 3 demo_environment 0 0)
      (reverse (seqZ 0 (2 * 2))) [0; 0; 0].
Proof.
  apply (checkMoleculeDistances_any_order 8 demo_molecules 0 0 3
           demo_environment 2 2 (reverse (seqZ 0 (2 * 2))) [0; 0; 0]).
  - lia.
  - apply reverse_Permutation.
Defined.

Lemma calcInterAtomicEnergy_any_order_witness :
  launch 4 4
    (calcInterAtomicEnergy 8 demo_molecules 0 demo_environment 12 [1; -1; -1] 2)
    (replicate 12 (rlit 0))
  = iterM
      (calcInterAtomicEnergy 8 demo_molecules 0 demo_environment 12
         [1; -1; -1] 2 0 0)
      (reverse (seqZ 0 (4 * 4))) (replicate 12 (rlit 0)).
Proof.
  apply (calcInterAtomicEnergy_any_order 8 demo_molecules 0 demo_environment
           12 [1; -1; -1] 2 4 4 (reverse (seqZ 0 (4 * 4)))
           (replicate 12 (rlit 0))).
  - lia.
  - apply reverse_Permutation.
Defined.


(** In binary64 the two guards fire for [-0.0] as for [+0.0]. *)
Lemma coincident_atoms_binary64_witness :
  calc_lj (demo_atom 1 1 1 1 0.1 0.5) (demo_atom 1 1 1 1 0.1 0.5) (-0)%float
    = 0%float
  /\ calcCharge (rlit 0.5) (rlit 0.5) (PrimFloat.sqrt (-0)%float) = 0%float.
Proof.
  apply (coincident_atoms_binary64 (demo_atom 1 1 1 1 0.1 0.5)
           (demo_atom 1 1 1 1 0.1 0.5) (-0)%float).
  reflexivity.
Defined.

End SchedulesOnTheSmallSystem.

(** ** Sums of energies, in exact arithmetic *)

Section ExactSums.
Local Existing Instance R_ops.
Local Open Scope R_scope.

Lemma sum_energies_nil : sum_energies (ops:=R_ops) [] = 0.
Proof. done. Qed.

Lemma sum_energies_cons (x : R) (l : list R) :
  sum_energies (x :: l) = x + sum_energies l.
Proof. done. Qed.

Local Arguments sum_energies : simpl never.

Lemma sum_energies_app (l1 l2 : list R) :
  sum_energies (l1 ++ l2) = sum_energies l1 + sum_energies l2.
Proof.
  induction l1 as [|x l1 IH]; simpl.
  - unfold sum_energies. simpl. lra.
  - rewrite !sum_energies_cons, IH. lra.
Qed.

Lemma sum_energies_zero (l : list R) :
  Forall (fun v => v = 0) l -> sum_energies l = 0.
Proof.
  induction 1 as [|x l -> _ IH]; [done|].
  rewrite sum_energies_cons, IH. lra.
Qed.

Lemma sum_energies_ext {A : Type} (f g : A -> R) (l : list A) :
  (forall x, x ∈ l -> f x = g x) ->
  sum_energies (f <$> l) = sum_energies (g <$> l).
Proof.
  intros H. induction l as [|x l IH]; [done|].
  rewrite !fmap_cons, !sum_energies_cons, IH, (H x).
  - done.
  - left.
  - intros y Hy. apply H. by right.
Qed.

Lemma sum_energies_zeros {A : Type} (f : A -> R) (l : list A) :
  (forall x, x ∈ l -> f x = 0) -> sum_energies (f <$> l) = 0.
Proof.
  intros H. apply sum_energies_zero, Forall_fmap, Forall_forall. exact H.
Qed.

Lemma sum_energies_plus {A : Type} (f g : A -> R) (l : list A) :
  sum_energies ((fun x => f x + g x) <$> l)
  = sum_energies (f <$> l) + sum_energies (g <$> l).
Proof.
  induction l as [|x l IH].
  - unfold sum_energies. simpl. lra.
  - rewrite !fmap_cons, !sum_energies_cons, IH. lra.
Qed.

Lemma sum_energies_swap {A B : Type} (f : A -> B -> R) (l1 : list A)
    (l2 : list B) :
  sum_energies ((fun a => sum_energies (f a <$> l2)) <$> l1)
  = sum_energies ((fun b => sum_energies ((fun a => f a b) <$> l1)) <$> l2).
Proof.
  induction l1 as [|a l1 IH].
  - symmetry. apply sum_energies_zeros. intros b _. done.
  - rewrite fmap_cons, sum_energies_cons, IH.
    rewrite <- sum_energies_plus. apply sum_energies_ext. intros b _.
    by rewrite fmap_cons, sum_energies_cons.
Qed.

Lemma sum_energies_filter {A : Type} (P : A -> Prop) `{!forall x, Decision (P x)}
    (f : A -> R) (l : list A) :
  sum_energies (f <$> filter P l)
  = sum_energies ((fun x => if decide (P x) then f x else 0) <$> l).
Proof.
  induction l as [|x l IH]; [done|].
  rewrite fmap_cons, sum_energies_cons.
  destruct (decide (P x)) as [Hx|Hx].
  - rewrite filter_cons_True by done.
    by rewrite fmap_cons, sum_energies_cons, IH.
  - rewrite filter_cons_False by done. rewrite IH. lra.
Qed.

(** The sum over [[0, a * b)] by blocks of [b]. *)
Lemma sum_energies_grid (f : Z -> R) (a : nat) (b : Z) :
  (0 <= b)%Z ->
  sum_energies (f <$> seqZ 0 (Z.of_nat a * b))
  = sum_energies
      ((fun i => sum_energies ((fun j => f (i * b + j)%Z) <$> seqZ 0 b))
         <$> seqZ 0 (Z.of_nat a)).
Proof.
  intros Hb. induction a as [|a IH].
  - done.
  - rewrite Nat2Z.inj_succ.
    replace (Z.succ (Z.of_nat a) * b)%Z with (Z.of_nat a * b + b)%Z by lia.
    rewrite seqZ_app by nia. rewrite fmap_app, sum_energies_app, IH.
    unfold Z.succ. rewrite (seqZ_app 0 (Z.of_nat a) 1) by lia.
    rewrite fmap_app, sum_energies_app. f_equal.
    rewrite (seqZ_cons _ 1) by lia. rewrite (seqZ_nil _ (Z.pred 1)) by lia.
    rewrite fmap_cons, fmap_nil, sum_energies_cons.
    replace (sum_energies (ops:=R_ops) []) with 0 by done.
    rewrite Rplus_0_r.
    replace (0 + Z.of_nat a * b)%Z with (Z.of_nat a * b + 0)%Z by lia.
    rewrite <- (fmap_add_seqZ (Z.of_nat a * b) 0 b), <- list_fmap_compose.
    apply sum_energies_ext. intros j _. simpl. f_equal; lia.
Qed.

(** A list is the list of its cells. *)
Lemma list_of_reads {A : Type} (l : list A) (v : Z -> A) :
  (forall i, (0 <= i < Z.of_nat (length l))%Z -> readZ l i = Some (v i)) ->
  l = v <$> seqZ 0 (Z.of_nat (length l)).
Proof.
  intros H. apply list_eq. intros k.
  rewrite list_lookup_fmap.
  destruct (decide (k < length l)%nat) as [Hk|Hk].
  - rewrite lookup_seqZ_lt by lia. simpl.
    specialize (H (Z.of_nat k) ltac:(lia)). rewrite readZ_nat in H.
    rewrite H. done.
  - rewrite lookup_ge_None_2 by lia.
    rewrite lookup_seqZ_ge by lia. done.
Qed.

(** The sum over the first [n] cells of a list, by index. *)
Lemma sum_energies_take_nat {A : Type} (g : A -> R) (l : list A) (k : nat) :
  (k <= length l)%nat ->
  sum_energies (g <$> take k l)
  = sum_energies
      ((fun x => match readZ l x with Some a => g a | None => 0 end)
         <$> seqZ 0 (Z.of_nat k)).
Proof.
  induction k as [|k IH]; intros Hk; [done|].
  destruct (lookup_lt_is_Some_2 l k) as [a Ha]; [lia|].
  rewrite (take_S_r _ _ _ Ha), fmap_app, sum_energies_app, IH by lia.
  rewrite Nat2Z.inj_succ. unfold Z.succ.
  rewrite (seqZ_app 0 (Z.of_nat k) 1) by lia.
  rewrite fmap_app, sum_energies_app. f_equal.
  rewrite (seqZ_cons _ 1) by lia. rewrite (seqZ_nil _ (Z.pred 1)) by lia.
  rewrite !fmap_cons, !fmap_nil. f_equal.
  change (0 + Z.of_nat k)%Z with (Z.of_nat k). by rewrite readZ_nat, Ha.
Qed.

Lemma sum_energies_take {A : Type} (g : A -> R) (l : list A) (n : Z) :
  (n <= Z.of_nat (length l))%Z ->
  sum_energies (g <$> take (Z.to_nat n) l)
  = sum_energies
      ((fun x => match readZ l x with Some a => g a | None => 0 end)
         <$> seqZ 0 n).
Proof.
  intros Hn. destruct (Z_le_gt_dec n 0) as [H0|H0].
  - replace (Z.to_nat n) with 0%nat by lia. rewrite seqZ_nil by lia. done.
  - rewrite sum_energies_take_nat by lia. by rewrite Z2Nat.id by lia.
Qed.

End ExactSums.

(** ** The energy of a batch, in exact arithmetic *)

Section ExactBatchEnergy.
Context {Bond Angle Dihedral Hop : Type}.
Local Existing Instance R_ops.
Local Abbreviation Molecule := (Molecule Bond Angle Dihedral Hop).
Local Arguments sum_energies : simpl never.
Local Arguments pair_energy : simpl never.
Local Arguments calcR2 : simpl never.
Local Arguments atom_pair_energy : simpl never.

(** The cells of an empty slot of the batch keep their content. *)
Lemma cell_result_empty_slot fuel (mols : list Molecule) m (env : Environment)
    molBatch M (e : list R) b x y :
  0 < M -> 0 <= b -> 0 <= x < M -> 0 <= y < M ->
  readZ molBatch b = Some (-1) ->
  cell_result fuel mols m env molBatch M e (b * (M * M) + x * M + y)
  = readZ e (b * (M * M) + x * M + y).
Proof.
  intros HM Hb Hx Hy Hslot. unfold cell_result.
  destruct (decode_cell M b x y HM Hb Hx Hy) as (D1 & _).
  rewrite D1. simpl. rewrite Hslot. done.
Qed.

(** The cells of a slot that holds a molecule, on a zero buffer. *)
Lemma cell_result_pair fuel (mols : list Molecule) m (env : Environment)
    molBatch M (e : list R) b x y other (mol1 mol2 : Molecule) :
  0 < M -> 0 <= b -> 0 <= x < M -> 0 <= y < M ->
  readZ molBatch b = Some other -> other <> -1 ->
  readZ mols m = Some mol1 -> readZ mols other = Some mol2 ->
  numOfAtoms mol1 <= Z.of_nat (length (atoms mol1)) ->
  numOfAtoms mol2 <= Z.of_nat (length (atoms mol2)) ->
  (forall atom1 atom2, atom1 ∈ atoms mol1 -> atom2 ∈ atoms mol2 ->
     is_Some (calcR2 fuel atom1 atom2 env)) ->
  readZ e (b * (M * M) + x * M + y) = Some 0%R ->
  cell_result fuel mols m env molBatch M e (b * (M * M) + x * M + y)
  = Some (cell_energy fuel env mol1 mol2 x y).
Proof.
  intros HM Hb Hx Hy Hslot Hne Hm1 Hm2 Hf1 Hf2 Hdef He.
  unfold cell_result, cell_energy.
  destruct (decode_cell M b x y HM Hb Hx Hy) as (D1 & D2 & D3 & D4).
  rewrite D1. simpl. rewrite Hslot. simpl.
  rewrite (proj2 (Z.eqb_neq other (-1)) Hne). simpl.
  rewrite Hm1, Hm2. simpl. rewrite D2. simpl. rewrite D3. simpl.
  rewrite D4. simpl.
  destruct (Z.ltb_spec x (numOfAtoms mol1)) as [Hx1|]; simpl; [|done].
  destruct (Z.ltb_spec y (numOfAtoms mol2)) as [Hy2|]; simpl; [|done].
  destruct (lookup_lt_is_Some_2 (atoms mol1) (Z.to_nat x)) as [a1 Ha1]; [lia|].
  destruct (lookup_lt_is_Some_2 (atoms mol2) (Z.to_nat y)) as [a2 Ha2]; [lia|].
  rewrite (proj2 (readZ_Some _ _ _) (conj (proj1 Hx) Ha1)).
  rewrite (proj2 (readZ_Some _ _ _) (conj (proj1 Hy) Ha2)). simpl.
  unfold atom_pair_energy. cbn [Real rleb rofZ R_ops].
  destruct (_ && _); [|done].
  destruct (Hdef a1 a2) as [r2 ->]; [by eapply list_elem_of_lookup_2..|].
  done.
Qed.

Lemma seqZ_split (lo n k : Z) :
  0 <= k <= n -> seqZ lo n = seqZ lo k ++ seqZ (lo + k) (n - k).
Proof.
  intros H. rewrite <- seqZ_app by lia. f_equal. lia.
Qed.

(** The grid of a pair of molecules sums to the energy of the pair. *)
Lemma sum_cell_energy fuel (env : Environment) (mol1 mol2 : Molecule) M1 M2 :
  0 <= numOfAtoms mol1 <= M1 -> 0 <= numOfAtoms mol2 <= M2 ->
  numOfAtoms mol1 <= Z.of_nat (length (atoms mol1)) ->
  numOfAtoms mol2 <= Z.of_nat (length (atoms mol2)) ->
  sum_energies
    ((fun x => sum_energies (cell_energy fuel env mol1 mol2 x <$> seqZ 0 M2))
       <$> seqZ 0 M1)
  = molecule_pair_energy fuel env mol1 mol2.
Proof.
  intros H1 H2 F1 F2. unfold molecule_pair_energy.
  rewrite (sum_energies_take _ (atoms mol1)) by done.
  rewrite (seqZ_split 0 M1 (numOfAtoms mol1)) by lia.
  rewrite fmap_app, sum_energies_app.
  rewrite (sum_energies_zeros _ (seqZ (0 + numOfAtoms mol1) _)).
  2:{ intros x Hx. apply elem_of_seqZ in Hx. apply sum_energies_zeros.
      intros y _. unfold cell_energy.
      by rewrite (proj2 (Z.ltb_ge x (numOfAtoms mol1))) by lia. }
  rewrite Rplus_0_r. apply sum_energies_ext. intros x Hx. cbv beta.
  apply elem_of_seqZ in Hx.
  destruct (lookup_lt_is_Some_2 (atoms mol1) (Z.to_nat x)) as [a1 Ha1]; [lia|].
  rewrite (proj2 (readZ_Some (atoms mol1) x a1)) by (split; [lia|done]).
  rewrite (sum_energies_take _ (atoms mol2)) by done.
  rewrite (seqZ_split 0 M2 (numOfAtoms mol2)) by lia.
  rewrite fmap_app, sum_energies_app.
  rewrite (sum_energies_zeros _ (seqZ (0 + numOfAtoms mol2) _)).
  2:{ intros y Hy. apply elem_of_seqZ in Hy. unfold cell_energy.
      rewrite (proj2 (Z.ltb_ge y (numOfAtoms mol2))) by lia.
      by rewrite andb_false_r. }
  rewrite Rplus_0_r. apply sum_energies_ext. intros y Hy. cbv beta.
  apply elem_of_seqZ in Hy. unfold cell_energy.
  rewrite (proj2 (Z.ltb_lt x _)), (proj2 (Z.ltb_lt y _)) by lia. simpl.
  rewrite (proj2 (readZ_Some (atoms mol1) x a1)) by (split; [lia|done]).
  by destruct (readZ (atoms mol2) y).
Qed.

End ExactBatchEnergy.

Section ExactContribution.
Context {Bond Angle Dihedral Hop : Type}.
Local Existing Instance R_ops.
Context {consts : Constants (ops:=R_ops)}.
Context {ext : Externals (ops:=R_ops) Bond Angle Dihedral Hop}.
Local Abbreviation Molecule := (Molecule Bond Angle Dihedral Hop).
Local Arguments sum_energies : simpl never.
Local Arguments pair_energy : simpl never.
Local Arguments calcR2 : simpl never.
Local Arguments atom_pair_energy : simpl never.
Local Arguments molecule_pair_energy : simpl never.

(** The contribution of a molecule is the sum over its neighbours. *)
Lemma contribution_neighbours fuel (mols : list Molecule) (env : Environment)
    m start count :
  contribution fuel mols env m start count
  = sum_energies
      ((fun c => match readZ mols m, readZ mols c with
                 | Some mol1, Some mol2 => molecule_pair_energy fuel env mol1 mol2
                 | _, _ => 0%R
                 end)
         <$> neighbours fuel mols env m start count).
Proof.
  unfold contribution, neighbours. rewrite sum_energies_filter.
  apply sum_energies_ext. intros c _. unfold interaction.
  by destruct (decide _).
Qed.

(** Readiness depends on the sizes, the device molecules and environment,
    and on the scratch arrays through their lengths and the zero buffer. *)
Lemma ready_fields (s s' : ParallelSim) :
  ready s ->
  moleculeCount s' = moleculeCount s -> energyCount s' = energyCount s ->
  maxMolSize s' = maxMolSize s ->
  moleculesD s' = moleculesD s -> environmentD s' = environmentD s ->
  length (energiesD s') = length (energiesD s) ->
  Forall (fun v => v = 0%R) (energiesD s') ->
  length (nbrMolsD s') = length (nbrMolsD s) ->
  length (nbrMolsH s') = length (nbrMolsH s) ->
  length (molBatchH s') = length (molBatchH s) ->
  length (molBatchD s') = length (molBatchD s) ->
  ready s'.
Proof.
  unfold ready.
  intros (HB & HNO & Hc & HM & Hec & Hlm & Hle & Hz & H1 & H2 & H3 & H4 & Hws)
         -> -> -> -> -> Le Hz' L1 L2 L3 L4.
  rewrite Le, L1, L2, L3, L4. done.
Qed.

Lemma ready_frame (s s' : ParallelSim) :
  ready s -> same_but_buffers s s' ->
  length (energiesD s') = length (energiesD s) ->
  Forall (fun v => v = 0%R) (energiesD s') ->
  length (nbrMolsD s') = length (nbrMolsD s) ->
  length (nbrMolsH s') = length (nbrMolsH s) ->
  length (molBatchH s') = length (molBatchH s) ->
  length (molBatchD s') = length (molBatchD s) ->
  ready s'.
Proof.
  intros Hr (_ & _ & Hm & He & Hc & Hec & HM & _).
  by apply ready_fields.
Qed.

(** The molecules of a ready state. *)
Lemma ready_molecule (s : ParallelSim) (c : Z) :
  ready s -> 0 <= c < moleculeCount s ->
  exists mol : Molecule,
    readZ (moleculesD s) c = Some mol /\ mol ∈ moleculesD s
    /\ well_sized (environmentD s) (maxMolSize s) mol.
Proof.
  intros (_ & _ & _ & _ & _ & Hlm & _ & _ & _ & _ & _ & _ & Hws) Hc.
  destruct (lookup_lt_is_Some_2 (moleculesD s) (Z.to_nat c)) as [mol Hmol];
    [lia|].
  exists mol. split; [apply readZ_Some; split; [lia|done]|].
  assert (Hin : mol ∈ moleculesD s) by (by eapply list_elem_of_lookup_2).
  split; [done|]. by eapply Forall_forall in Hws.
Qed.

(** In a ready state, with fuel for the distance of every pair of atoms,
    [calcMolecularEnergyContribution] returns the energy of the molecule
    with its neighbours and leaves a ready state. *)
Lemma calcMolecularEnergyContribution_exact (fuel : nat) (m startIdx : Z)
    (s : ParallelSim) :
  ready s -> 0 <= startIdx -> 0 <= m < moleculeCount s ->
  (forall atom1, atom1 ∈ moleculesD s ≫= atoms ->
   forall atom2, atom2 ∈ moleculesD s ≫= atoms ->
     exists r2, calcR2 fuel atom1 atom2 (environmentD s) = Some r2 /\ (0 <= r2)%R) ->
  exists s',
    calcMolecularEnergyContribution fuel m startIdx s
    = Some (contribution fuel (moleculesD s) (environmentD s) m startIdx
              (moleculeCount s), s')
    /\ ready s' /\ same_but_buffers s s'.
Proof.
  intros Hready Hs Hm Hfuel.
  pose proof Hready as
    ((HMB & HBB & HAB & HWB) & HNO & Hcount & HM & Hec & Hlm & Hle & Hzero
     & HnD & HnH & HbH & HbD & Hws).
  set (mols := moleculesD s) in *. set (env := environmentD s) in *.
  set (count := moleculeCount s) in *. set (M := maxMolSize s) in *.
  assert (Hatoms : forall (mol : Molecule) a, mol ∈ mols -> a ∈ atoms mol ->
                     a ∈ mols ≫= atoms).
  { intros mol a Hmol Ha. apply list_elem_of_bind. by exists mol. }
  destruct (ready_molecule s m Hready Hm) as (mol1 & Hm1 & Hin1 & Hw1).
  fold mols env M in Hm1, Hin1, Hw1.
  (* the distance tests are defined *)
  assert (Hwc : forall c, 0 <= c < count ->
                  is_Some (withinCutoff fuel mols env m c)).
  { intros c Hc.
    destruct (ready_molecule s c Hready Hc) as (mol2 & Hm2 & Hin2 & Hw2).
    fold mols env M in Hm2, Hin2, Hw2.
    unfold withinCutoff. rewrite Hm1, Hm2. simpl.
    destruct Hw1 as (_ & _ & Hp1). destruct Hw2 as (_ & _ & Hp2).
    destruct (lookup_lt_is_Some_2 (atoms mol1) (Z.to_nat (primaryAtomIndex env)))
      as [a1 Ha1]; [lia|].
    destruct (lookup_lt_is_Some_2 (atoms mol2) (Z.to_nat (primaryAtomIndex env)))
      as [a2 Ha2]; [lia|].
    rewrite (proj2 (readZ_Some _ _ _) (conj (proj1 Hp1) Ha1)). simpl.
    rewrite (proj2 (readZ_Some _ _ _) (conj (proj1 Hp2) Ha2)). simpl.
    destruct (Hfuel a1) with (atom2 := a2) as (r2 & -> & _); [| |by eexists].
    - apply (Hatoms mol1); [done|]. by eapply list_elem_of_lookup_2.
    - apply (Hatoms mol2); [done|]. by eapply list_elem_of_lookup_2. }
  destruct (createMolBatch_spec fuel m startIdx s)
    as (s1 & E1 & T & Hrest & L1 & L2 & L3 & He & Hbd); try done; try lia.
  { intros c Hc _. apply Hwc. lia. }
  pose proof (createMolBatch_frame _ _ _ _ _ _ E1) as F1.
  unfold calcMolecularEnergyContribution. rewrite E1. cbn [mbind option_bind].
  rewrite contribution_neighbours.
  fold mols env count in E1, T, Hrest |- *.
  set (nb := neighbours fuel mols env m startIdx count) in *.
  set (E := fun c => match readZ mols m, readZ mols c with
                     | Some mol1, Some mol2 => molecule_pair_energy fuel env mol1 mol2
                     | _, _ => 0%R
                     end).
  assert (Hnb : forall c, c ∈ nb -> startIdx <= c < count /\ c <> m).
  { intros c Hc. unfold nb, neighbours in Hc.
    apply list_elem_of_filter in Hc as [[Hne _] Hc].
    apply elem_of_seqZ in Hc. lia. }
  assert (Hnblen : Z.of_nat (length nb) <= count).
  { unfold nb, neighbours. etrans; [apply inj_le, length_filter|].
    rewrite length_seqZ. lia. }
  destruct (decide (length nb = 0%nat)) as [Hempty|Hsome].
  { (* no neighbour: no launch *)
    unfold calcBatchEnergy. rewrite Hempty. simpl.
    apply nil_length_inv in Hempty. rewrite Hempty.
    exists s1. split; [done|]. split; [|done].
    apply (ready_frame s s1).
    - done.
    - done.
    - by rewrite He.
    - by rewrite He.
    - done.
    - done.
    - done.
    - by rewrite Hbd. }
  (* the batch on the device *)
  destruct F1 as (Fi & Fe & Fm & Fed & Fc & Fec & FM & Fo & Fcu & Fa & Fr & Frng & Ft).
  destruct (memcpy_spec (molBatchD s1) (molBatchH s1) (moleculeCount s1))
    as (batchD & Ecopy & Lcopy & Rcopy); [rewrite Fc, Hbd; lia|rewrite Fc, L1; lia|].
  rewrite Fc in Rcopy. fold count in Rcopy.
  assert (Hslot_nb : forall b c, nb !! b = Some c ->
                       readZ batchD (Z.of_nat b) = Some c).
  { intros b c Hb. pose proof (lookup_lt_Some _ _ _ Hb) as Hlt.
    rewrite Rcopy by lia. rewrite readZ_nat.
    rewrite <- T in Hb. rewrite lookup_take_lt in Hb by lia. done. }
  assert (Hslot_rest : forall b, Z.of_nat (length nb) <= b < count ->
                         readZ batchD b = Some (-1)).
  { intros b Hb. rewrite Rcopy by lia. by apply Hrest. }
  (* the launch *)
  set (e0 := <[0%nat:=rlit 0]> (energiesD s1)).
  assert (Le0 : Z.of_nat (length e0) = count * (M * M)).
  { unfold e0. rewrite length_insert, He, Hle. done. }
  assert (Hz0 : forall idx, 0 <= idx < count * (M * M) ->
                  readZ e0 idx = Some 0%R).
  { intros idx Hidx. unfold readZ. rewrite decide_True by lia.
    destruct (lookup_lt_is_Some_2 e0 (Z.to_nat idx)) as [v Hv]; [lia|].
    rewrite Hv. f_equal. unfold e0 in Hv. rewrite He in Hv.
    destruct (decide (Z.to_nat idx = 0%nat)) as [H0|H0].
    - rewrite H0, list_lookup_insert_eq in Hv by lia.
      injection Hv as <-. simpl. apply Q2R_zero.
    - rewrite list_lookup_insert_ne in Hv by done.
      eapply Forall_lookup_1 in Hzero; [|done]. done. }
  assert (Hslots : forall b, 0 <= b < count ->
            exists other, readZ batchD b = Some other
              /\ (other = -1 \/ other ∈ nb)).
  { intros b Hb. destruct (decide (b < Z.of_nat (length nb))) as [Hlt|Hge].
    - destruct (lookup_lt_is_Some_2 nb (Z.to_nat b)) as [c Hc]; [lia|].
      exists c. split; [|right; by eapply list_elem_of_lookup_2].
      rewrite <- (Z2Nat.id b) by lia. by apply Hslot_nb.
    - exists (-1). split; [apply Hslot_rest; lia|by left]. }
  assert (Hnb_range : forall c, c ∈ nb -> c <> -1 /\ 0 <= c < count).
  { intros c Hc. apply Hnb in Hc. lia. }
  destruct (calcInterAtomicEnergy_launch fuel mols m env (count * (M * M))
              batchD M e0 HBB Le0)
    as (cells & Elaunch & Lcells & Rcells).
  { intros idx Hidx.
    apply (cell_result_defined fuel mols m env batchD M e0 mol1); try done.
    - change (0 <= idx < Z.of_nat (@length Real e0)). by rewrite Le0.
    - by destruct Hw1 as (_ & ? & _).
    - intros b Hb0 Hb.
      change (b * (M * M) < Z.of_nat (@length Real e0)) in Hb.
      rewrite Le0 in Hb.
      assert (b < count) by nia.
      destruct (Hslots b) as (other & Ho & Hcase); [lia|].
      exists other. split; [done|]. intros Hne.
      destruct Hcase as [|Hin]; [done|].
      destruct (Hnb_range other Hin) as [_ Hr].
      destruct (ready_molecule s other Hready Hr) as (mol2 & Hm2 & _ & Hw2).
      exists mol2. split; [done|]. by destruct Hw2 as (_ & ? & _). }
  destruct (calcBatchEnergy_returns fuel (Z.of_nat (length nb)) m s1 batchD cells)
    as (energies & Eret & Len & Z0 & Zk).
  { intros a b c. simpl. lra. }
  { intros a b. simpl. lra. }
  { intros a. simpl. lra. }
  { lia. } { done. } { done. } { lia. }
  { rewrite Fec, Hec. nia. }
  { rewrite He, Fec. done. }
  { done. }
  { rewrite Fm, Fed, Fec, FM, Hec. exact Elaunch. }
  rewrite Eret.
  exists (set_energiesD energies (set_energiesD cells (set_molBatchD batchD s1))).
  split; [|split].
  2:{ apply (ready_frame s); simpl.
      - done.
      - unfold same_but_buffers. simpl. by repeat split.
      - pose proof Len as Len'. rewrite He in Len'. exact Len'.
      - apply Forall_lookup. intros k v Hv.
        destruct k as [|k].
        + assert (Hv0 : Some v = Some (Q2R 0)) by (rewrite <- Hv; exact Z0).
          injection Hv0 as ->. apply Q2R_zero.
        + assert (Hvk : Some v = Some 0%R).
          { rewrite <- Hv. apply Zk. apply lookup_lt_Some in Hv.
            split; [lia|exact Hv]. }
          by injection Hvk as ->.
      - done.
      - done.
      - done.
      - by rewrite Lcopy, Hbd. }
  2:{ unfold same_but_buffers. simpl. by repeat split. }
  do 2 f_equal.
  (* the sum of the cells *)
  set (v := fun idx => default 0%R (cell_result fuel mols m env batchD M e0 idx)).
  assert (Hcells : cells = v <$> seqZ 0 (Z.of_nat (length cells))).
  { apply list_of_reads. intros idx Hidx. rewrite Rcells by lia. unfold v.
    destruct (cell_result fuel mols m env batchD M e0 idx) eqn:Ec; [done|].
    exfalso. rewrite <- Rcells in Ec by lia.
    unfold readZ in Ec. rewrite decide_True in Ec by lia.
    apply lookup_ge_None_1 in Ec. lia. }
  rewrite Hcells, Lcells, Le0.
  rewrite <- (Z2Nat.id count) at 1 by lia.
  rewrite sum_energies_grid by nia. rewrite Z2Nat.id by lia.
  (* slot by slot *)
  set (B := fun b => match readZ nb b with Some c => E c | None => 0%R end).
  rewrite (sum_energies_ext _
             (fun b => if decide (b < Z.of_nat (length nb)) then B b else 0%R)).
  2:{ intros b Hb. apply elem_of_seqZ in Hb. cbv beta.
      replace (M * M) with (Z.of_nat (Z.to_nat M) * M) by lia.
      rewrite sum_energies_grid by lia. rewrite Z2Nat.id by lia.
      destruct (decide (b < Z.of_nat (length nb))) as [Hlt|Hge].
      - destruct (lookup_lt_is_Some_2 nb (Z.to_nat b)) as [c Hc]; [lia|].
        unfold B. rewrite (proj2 (readZ_Some nb b c)) by (split; [lia|done]).
        assert (Hcin : c ∈ nb) by (by eapply list_elem_of_lookup_2).
        destruct (Hnb_range c Hcin) as [Hne Hr].
        destruct (ready_molecule s c Hready Hr) as (mol2 & Hm2 & Hin2 & Hw2).
        fold mols env M in Hm2, Hin2, Hw2.
        unfold E. rewrite Hm1, Hm2.
        destruct Hw1 as (Hn1 & Hf1 & _). destruct Hw2 as (Hn2 & Hf2 & _).
        rewrite <- (sum_cell_energy fuel env mol1 mol2 M M) by done.
        apply sum_energies_ext. intros x Hx. apply elem_of_seqZ in Hx.
        apply sum_energies_ext. intros y Hy. apply elem_of_seqZ in Hy.
        unfold v.
        replace (b * (M * M) + (x * M + y)) with (b * (M * M) + x * M + y) by lia.
        rewrite (cell_result_pair fuel mols m env batchD M e0 b x y c mol1 mol2);
          try done; try lia.
        + rewrite <- (Z2Nat.id b) by lia. by apply Hslot_nb.
        + intros a1 a2 Ha1 Ha2.
          destruct (Hfuel a1) with (atom2 := a2) as (r2 & -> & _);
            [by apply (Hatoms mol1)|by apply (Hatoms mol2)|by eexists].
        + apply Hz0. nia.
      - apply sum_energies_zeros. intros x Hx. apply elem_of_seqZ in Hx.
        apply sum_energies_zeros. intros y Hy. apply elem_of_seqZ in Hy.
        unfold v.
        replace (b * (M * M) + (x * M + y)) with (b * (M * M) + x * M + y) by lia.
        rewrite cell_result_empty_slot by (done || lia || (apply Hslot_rest; lia)).
        rewrite Hz0; [done|]. nia. }
  rewrite (seqZ_split 0 count (Z.of_nat (length nb))) by lia.
  rewrite fmap_app, sum_energies_app.
  rewrite (sum_energies_zeros _ (seqZ (0 + _) _)).
  2:{ intros b Hb. apply elem_of_seqZ in Hb. by rewrite decide_False by lia. }
  rewrite Rplus_0_r.
  replace (E <$> nb) with (E <$> take (Z.to_nat (Z.of_nat (length nb))) nb)
    by (by rewrite take_ge by lia).
  rewrite (sum_energies_take E nb) by lia.
  apply sum_energies_ext. intros b Hb. apply elem_of_seqZ in Hb.
  by rewrite decide_True by lia.
Qed.


(** Fuel for the distance of every pair of atoms of the system. *)
Lemma fuel_for_every_pair (s : ParallelSim) :
  (0 < env_x (environmentD s))%R -> (0 < env_y (environmentD s))%R ->
  (0 < env_z (environmentD s))%R ->
  exists N, forall fuel, (N <= fuel)%nat ->
    forall atom1, atom1 ∈ moleculesD s ≫= atoms ->
    forall atom2, atom2 ∈ moleculesD s ≫= atoms ->
      exists r2, calcR2 fuel atom1 atom2 (environmentD s) = Some r2
                 /\ (0 <= r2)%R.
Proof. intros Hx Hy Hz. by apply calcR2_uniform. Qed.


(** The loop of [calcSystemEnergy]. *)
Lemma calcSystemEnergy_exact (fuel : nat) (s : ParallelSim) :
  ready s ->
  (forall atom1, atom1 ∈ moleculesD s ≫= atoms ->
   forall atom2, atom2 ∈ moleculesD s ≫= atoms ->
     exists r2, calcR2 fuel atom1 atom2 (environmentD s) = Some r2 /\ (0 <= r2)%R) ->
  exists s',
    calcSystemEnergy fuel s
    = Some (system_energy fuel (moleculesD s) (environmentD s) (moleculeCount s),
            s')
    /\ ready s' /\ same_but_buffers (log EvCalcSystemEnergy s) s'.
Proof.
  intros Hready Hfuel. unfold calcSystemEnergy, system_energy.
  assert (Hready0 : ready (log EvCalcSystemEnergy s)).
  { apply (ready_fields s); try done.
    by destruct Hready as (_ & _ & _ & _ & _ & _ & _ & ? & _). }
  set (s0 := log EvCalcSystemEnergy s) in *.
  change (moleculeCount s0) with (moleculeCount s).
  pose proof Hready as (_ & _ & Hcount & _).
  destruct (for_range_invariant
    (fun i '(total, s1) =>
       total = sum_energies
                 ((fun m => contribution fuel (moleculesD s) (environmentD s)
                              m m (moleculeCount s)) <$> seqZ 0 i)
       /\ ready s1 /\ same_but_buffers s0 s1)
    0 (moleculeCount s)
    (fun mol '(totalEnergy, s1) =>
       '(e, s2) ← calcMolecularEnergyContribution fuel mol mol s1;
       Some (radd totalEnergy e, s2))
    (rofZ 0, s0)) as ([total s'] & E & Ht & Hr & F).
  - lia.
  - split; [done|]. split; [done|]. apply same_but_buffers_refl.
  - intros i [total s1] Hi (Ht & Hr & F).
    pose proof F as (_ & _ & Fm & Fe & Fc & _).
    change (moleculesD s0) with (moleculesD s) in Fm.
    change (environmentD s0) with (environmentD s) in Fe.
    change (moleculeCount s0) with (moleculeCount s) in Fc.
    destruct (calcMolecularEnergyContribution_exact fuel i i s1 Hr)
      as (s2 & E & Hr2 & F2);
      [lia|rewrite Fc; lia|rewrite Fm, Fe; exact Hfuel|].
    rewrite E. cbn [mbind option_bind]. eexists. split; [done|].
    cbv beta iota. split; [|split; [done|]].
    + rewrite Fm, Fe, Fc.
      rewrite (seqZ_split 0 (i + 1) i) by lia.
      rewrite fmap_app, sum_energies_app, <- Ht.
      replace (i + 1 - i) with 1 by lia.
      rewrite (seqZ_cons _ 1) by lia. rewrite (seqZ_nil _ (Z.pred 1)) by lia.
      rewrite fmap_cons, fmap_nil, sum_energies_cons. simpl.
      change (sum_energies (ops:=R_ops) []) with 0%R. 
      replace (0 + i) with i by lia. lra.
    + by eapply same_but_buffers_trans.
  - rewrite E. exists s'. split; [by rewrite Ht|]. done.
Qed.


End ExactContribution.

(** ** The incremental update of the energy *)

Section ExactSumsOfPairs.
Local Existing Instance R_ops.
Local Open Scope R_scope.
Local Arguments sum_energies : simpl never.

Lemma sum_energies_minus {A : Type} (f g : A -> R) (l : list A) :
  sum_energies ((fun x => f x - g x) <$> l)
  = sum_energies (f <$> l) - sum_energies (g <$> l).
Proof.
  induction l as [|x l IH].
  - unfold sum_energies. simpl. lra.
  - rewrite !fmap_cons, !sum_energies_cons, IH. lra.
Qed.

(** A sum over a range with one term that is not zero. *)
Lemma sum_energies_single (f : Z -> R) (lo len k : Z) :
  (lo <= k < lo + len)%Z -> (forall c, c <> k -> f c = 0) ->
  sum_energies (f <$> seqZ lo len) = f k.
Proof.
  intros Hk Hz.
  rewrite (seqZ_split lo len (k - lo)) by lia.
  replace (lo + (k - lo))%Z with k by lia.
  rewrite (seqZ_cons k (len - (k - lo))) by lia.
  rewrite fmap_app, fmap_cons, sum_energies_app, sum_energies_cons.
  rewrite !sum_energies_zeros; [lra| |].
  - intros c Hc. apply elem_of_seqZ in Hc. apply Hz. lia.
  - intros c Hc. apply elem_of_seqZ in Hc. apply Hz. lia.
Qed.

(** The pairs [(m, c)], [m <= c < n], of which only those with the index
    [k] count. *)
Lemma sum_energies_pairs_with (D : Z -> Z -> R) (n k : Z) :
  (0 <= k < n)%Z ->
  (forall a b, a <> k -> b <> k -> D a b = 0) -> D k k = 0 ->
  (forall a b, D a b = D b a) ->
  sum_energies
    ((fun m => sum_energies (D m <$> seqZ m (n - m))) <$> seqZ 0 n)
  = sum_energies (D k <$> seqZ 0 n).
Proof.
  intros Hk Hout Hkk Hsym.
  rewrite (seqZ_split 0 n k) by lia.
  rewrite !fmap_app, !sum_energies_app.
  replace (0 + k)%Z with k by lia.
  rewrite (seqZ_cons k (n - k)) by lia.
  rewrite fmap_cons, sum_energies_cons.
  rewrite (sum_energies_zeros _ (seqZ (Z.succ k) _)).
  2:{ intros m Hm. apply elem_of_seqZ in Hm. apply sum_energies_zeros.
      intros c Hc. apply elem_of_seqZ in Hc. apply Hout; lia. }
  rewrite Rplus_0_r. f_equal.
  - apply sum_energies_ext. intros m Hm. apply elem_of_seqZ in Hm. cbv beta.
    rewrite (sum_energies_single _ _ _ k) by (lia || (intros; apply Hout; lia)).
    apply Hsym.
  - by rewrite <- (seqZ_cons k (n - k)) by lia.
Qed.

End ExactSumsOfPairs.

Section ExactIncrement.
Context {Bond Angle Dihedral Hop : Type}.
Local Existing Instance R_ops.
Local Abbreviation Molecule := (Molecule Bond Angle Dihedral Hop).
Local Arguments sum_energies : simpl never.
Local Arguments calcR2 : simpl never.
Local Arguments molecule_pair_energy : simpl never.
Local Open Scope R_scope.

Lemma pair_energy_sym (atom1 atom2 : Atom) (r2 : R) :
  pair_energy atom1 atom2 r2 = pair_energy atom2 atom1 r2.
Proof.
  unfold pair_energy, calc_lj, calcCharge, calcBlending.
  cbn [Real radd rmul rdiv rsub rsqrt reqb rlit rofZ R_ops].
  by rewrite (Rmult_comm (sigma atom1)), (Rmult_comm (epsilon atom1)),
    (Rmult_comm (charge atom1)).
Qed.

Lemma atom_pair_energy_sym fuel (env : Environment) (atom1 atom2 : Atom) :
  atom_pair_energy fuel env atom1 atom2 = atom_pair_energy fuel env atom2 atom1.
Proof.
  unfold atom_pair_energy. rewrite (calcR2_sym fuel atom1 atom2).
  destruct (calcR2 fuel atom2 atom1 env) as [r2|].
  - rewrite (pair_energy_sym atom1 atom2).
    by destruct (rleb _ (sigma atom1)), (rleb _ (epsilon atom1)),
      (rleb _ (sigma atom2)), (rleb _ (epsilon atom2)).
  - by destruct (rleb _ (sigma atom1)), (rleb _ (epsilon atom1)),
      (rleb _ (sigma atom2)), (rleb _ (epsilon atom2)).
Qed.

Lemma molecule_pair_energy_sym fuel (env : Environment) (mol1 mol2 : Molecule) :
  molecule_pair_energy fuel env mol1 mol2
  = molecule_pair_energy fuel env mol2 mol1.
Proof.
  unfold molecule_pair_energy. rewrite sum_energies_swap.
  apply sum_energies_ext. intros a2 _. apply sum_energies_ext. intros a1 _.
  apply atom_pair_energy_sym.
Qed.

Lemma interaction_self fuel (mols : list Molecule) (env : Environment) m :
  interaction fuel mols env m m = 0.
Proof. unfold interaction. rewrite decide_False; [done|]. by intros [? _]. Qed.

Lemma interaction_sym fuel (mols : list Molecule) (env : Environment) m c :
  interaction fuel mols env m c = interaction fuel mols env c m.
Proof.
  unfold interaction. rewrite (withinCutoff_sym fuel mols env m c).
  destruct (decide (c <> m /\ _)) as [[Hne Hw]|Hno].
  - rewrite decide_True by (split; [congruence|done]).
    destruct (readZ mols m), (readZ mols c); try done.
    apply molecule_pair_energy_sym.
  - rewrite decide_False; [done|]. intros [Hne Hw]. apply Hno.
    split; [congruence|done].
Qed.

(** The interaction of two molecules depends on these molecules only. *)
Lemma interaction_local fuel (mols mols' : list Molecule) (env : Environment)
    m c :
  readZ mols' m = readZ mols m -> readZ mols' c = readZ mols c ->
  interaction fuel mols' env m c = interaction fuel mols env m c.
Proof.
  intros Hm Hc. unfold interaction, withinCutoff. by rewrite Hm, Hc.
Qed.

(** Moving one molecule changes the energy of the system by the change of
    the energy of that molecule with all the others. *)
Lemma system_energy_increment fuel (mols mols' : list Molecule)
    (env : Environment) (count k : Z) :
  (0 <= k < count)%Z ->
  (forall j, j <> k -> readZ mols' j = readZ mols j) ->
  system_energy fuel mols' env count - system_energy fuel mols env count
  = contribution fuel mols' env k 0 count - contribution fuel mols env k 0 count.
Proof.
  intros Hk Hsame. unfold system_energy, contribution.
  rewrite Z.sub_0_r, <- !sum_energies_minus.
  etrans.
  { apply sum_energies_ext. intros m _. cbv beta. symmetry.
    apply sum_energies_minus. }
  apply (sum_energies_pairs_with
           (fun m c => interaction fuel mols' env m c
                       - interaction fuel mols env m c) count k); try done.
  - intros a b Ha Hb. rewrite (interaction_local fuel mols mols') by auto. lra.
  - rewrite !interaction_self. lra.
  - intros a b. by rewrite (interaction_sym fuel mols'), (interaction_sym fuel mols).
Qed.

Context {consts : Constants (ops:=R_ops)}.
Context {ext : Externals (ops:=R_ops) Bond Angle Dihedral Hop}.


End ExactIncrement.
(** * The properties on the small system *)

Section OnTheSmallSystem.
Local Existing Instance F_ops.
Local Existing Instance demo_consts.
Local Existing Instance demo_ext.

Lemma step_commit_or_rollback_witness :
  runStep 8 demo_kT demo_start
    = Some demo_after_step
  /\ rejected demo_after_step = 1
  /\ exists changeIdx oldEnergyCont newEnergyCont s1 accept g,
       proposeAndEvaluate 8 demo_start
         = Some (changeIdx, oldEnergyCont, newEnergyCont, s1)
       /\ acceptMove demo_kT newEnergyCont oldEnergyCont (rng s1) = (accept, g)
       /\ if accept then
            oldEnergy demo_after_step
              = radd (oldEnergy demo_start) (rsub newEnergyCont oldEnergyCont)
            /\ accepted demo_after_step = (accepted demo_start + 1)%Z
            /\ rejected demo_after_step = rejected demo_start
            /\ innerbox demo_after_step = innerbox s1
            /\ trace demo_after_step = trace demo_start ++ [EvStep changeIdx]
          else
            oldEnergy demo_after_step = oldEnergy demo_start
            /\ accepted demo_after_step = accepted demo_start
            /\ rejected demo_after_step = (rejected demo_start + 1)%Z
            /\ Rollback changeIdx (innerbox s1) = Some (innerbox demo_after_step)
            /\ trace demo_after_step
               = trace demo_start ++ [EvStep changeIdx; EvRollback changeIdx].
Proof.
  assert (H : runStep 8 demo_kT demo_start
              = Some demo_after_step) by reflexivity.
  split; [exact H|]. split; [reflexivity|].
  exact (step_commit_or_rollback 8 demo_kT demo_start demo_after_step H).
Defined.

Lemma system_energy_at_most_once_witness :
  runParallel 8 1 demo_start = Some demo_after_run
  /\ exists loop_events,
       trace demo_after_run
       = trace demo_start
         ++ (if reqb (oldEnergy demo_start) (rofZ 0)
             then [EvCalcSystemEnergy] else [])
         ++ loop_events
       /\ Forall loop_event loop_events.
Proof.
  assert (H : runParallel 8 1 demo_start = Some demo_after_run) by reflexivity.
  split; [exact H|].
  exact (proj1 (system_energy_at_most_once 8 1 demo_start demo_after_run H)).
Defined.

Lemma checkpoint_rollback_roundtrip_witness :
  exists b1,
    saveChangedMole 1 demo_box = Some b1
    /\ molecules b1 = molecules demo_box
    /\ forall (b2 : Box) (mol' : Molecule unit unit unit unit),
         changedmole b2 = changedmole b1 ->
         readZ (molecules b2) 1 = Some mol' ->
         in_place (demo_molecule 1 [demo_atom 3 1 1 1 0.1 0.25]) mol' ->
         exists b3 mol3,
           Rollback 1 b2 = Some b3
           /\ readZ (molecules b3) 1 = Some mol3
           /\ observable mol3
              = observable (demo_molecule 1 [demo_atom 3 1 1 1 0.1 0.25]).
Proof.
  apply (checkpoint_rollback_roundtrip demo_box 1
           (demo_molecule 1 [demo_atom 3 1 1 1 0.1 0.25])).
  - reflexivity.
  - unfold fits. simpl. lia.
Defined.





End OnTheSmallSystem.

Section OnTheSmallSystemExactly.
Local Existing Instance R_ops.
Local Existing Instance demo_consts.
Local Existing Instance demo_ext.


Lemma Q2R_10 : (0 < Q2R 10)%R.
Proof. unfold Q2R. simpl. lra. Qed.


End OnTheSmallSystemExactly.

Section EnergyOnTheSmallSystemExactly.
Local Existing Instance R_ops.
Local Existing Instance demo_consts.
Local Existing Instance demo_ext.

(** The small system, with any three molecules of at most two atoms, is
    ready. *)
Lemma demo_ready (mols : list (Molecule unit unit unit unit)) :
  length mols = 3%nat ->
  Forall (well_sized demo_environment 2) mols ->
  ready (set_moleculesD mols (demo_sim (ops:=R_ops) 0%R [])).
Proof.
  intros Hlen Hws. unfold ready. simpl. rewrite Hlen.
  repeat split; try lia; try done.
  apply Forall_forall. intros v Hv.
  repeat (apply elem_of_cons in Hv as [->|Hv]; [apply Q2R_zero|]).
  by apply elem_of_nil in Hv.
Qed.

Lemma demo_molecules_well_sized :
  Forall (well_sized demo_environment 2) (demo_molecules (ops:=R_ops)).
Proof. repeat constructor; simpl; lia. Qed.

Lemma demo_moved_well_sized :
  Forall (well_sized demo_environment 2)
    (<[1%nat:=demo_molecule 1 [demo_atom 3.5 1 1 1 0.1 0.25]]>
       (demo_molecules (ops:=R_ops))).
Proof. repeat constructor; simpl; lia. Qed.




End EnergyOnTheSmallSystemExactly.
